(** * Stock price aggregation service (src/stock/index.js)

    A shallow embedding of the time-series alignment and correlation engine,
    of the cache-aside fetch layer and of the two handlers, followed by the
    properties of the specification that concern them and by further
    properties of the code.

    Conventions.
    - JavaScript numbers that hold prices are kept abstract behind the class
      [JSNumber]; the instance [float64] is IEEE-754 binary64 as the program
      runs it (Rocq's primitive floats). The instance [exactR] is the exact
      arithmetic that the specification sets beside it; the program never
      runs it.
    - Instants are integers (milliseconds since the epoch); a [Date] is its
      time value, [None] standing for an Invalid Date (time value NaN). The
      clock reads a valid time value.
    - The window is a JavaScript number [NumberValue]: any binary64 value,
      the integers among them written as integers.
    - The clock, the cache and the log of upstream requests are threaded
      explicitly through the stateful functions as a [World]. *)

From Stdlib Require Import ZArith List Bool String Floats Reals Lra Lia.
From stdpp Require Import gmap strings.

Import ListNotations.
Local Open Scope Z_scope.

(** ** JavaScript numbers *)

(** The operations on numbers that the source applies to prices. *)
Class JSNumber (num : Type) := {
  nzero : num;                  (* the literal 0 *)
  nadd : num -> num -> num;     (* x + y *)
  nsub : num -> num -> num;     (* x - y *)
  nmul : num -> num -> num;     (* x * y *)
  ndiv : num -> num -> num;     (* x / y *)
  nsqrt : num -> num;           (* Math.sqrt(x) *)
  nlen : nat -> num;            (* an array length, as a number *)
  nnan : num;                   (* the result of arithmetic on undefined *)
  nis0 : num -> bool            (* x === 0 *)
}.

(** binary64, the arithmetic of the program. [x === 0] holds for both zeros
    and fails for NaN, as [PrimFloat.eqb] does. *)
#[global] Instance float64 : JSNumber float := {|
  nzero := 0%float;
  nadd := PrimFloat.add;
  nsub := PrimFloat.sub;
  nmul := PrimFloat.mul;
  ndiv := PrimFloat.div;
  nsqrt := PrimFloat.sqrt;
  nlen := fun n => PrimFloat.of_uint63 (Uint63.of_Z (Z.of_nat n));
  nnan := PrimFloat.nan;
  nis0 := fun x => PrimFloat.eqb x 0%float
|}.

(** Exact real arithmetic: the arithmetic the specification speaks of where
    it says of a result that it holds exactly, in exact arithmetic. The
    program does not compute in it, and nothing is concluded about the
    program from this instance. There is no NaN among the reals: [nnan] is
    only reached when the second series is shorter than the first, and is
    given the value 0 here. *)
#[global] Instance exactR : JSNumber R := {|
  nzero := 0%R;
  nadd := Rplus;
  nsub := Rminus;
  nmul := Rmult;
  ndiv := Rdiv;
  nsqrt := sqrt;
  nlen := INR;
  nnan := 0%R;
  nis0 := fun x => if Req_dec_T x 0%R then true else false
|}.

(** ** Data model *)

(** A [Date]: its time value in milliseconds, [None] for an Invalid Date
    (whose time value is NaN). *)
Definition JSDate := option Z.

Record PricePoint (num : Type) := {
  price : num;
  lastUpdatedAt : JSDate
}.
Arguments price {num} _.
Arguments lastUpdatedAt {num} _.

Abbreviation PriceHistory num := (list (PricePoint num)).

(** ** Numbers of the time arithmetic *)

(** A JavaScript number as it enters the comparison of line 152 and the
    time arithmetic of line 53. Numbers are binary64 values. One that is an
    integer is written [Integral]; any value may be written [Double], with
    the binary64 value itself: a fraction, an infinity, NaN. *)
Inductive NumberValue :=
| Integral (n : Z)
| Double (x : float).

(** The binary64 value of a number; an integer that binary64 does not hold
    is rounded to the nearest value. *)
Definition toDouble (value : NumberValue) : float :=
  match value with
  | Integral n => SF2Prim (SpecFloat.binary_normalize prec emax n 0 false)
  | Double x => x
  end.

(** [x * y] and [x - y]. Between integers they are written on the integers.
    In line 53 this is what binary64 computes whenever the result is a
    valid time value: the clock reading is below 2^53, the products
    [minutes * 60] and [minutes * 60 * 1000] are multiples of 4 and of 32,
    exact in binary64 up to 2^55 and 2^58, and a difference within the range
    of [Date] is an integer below 2^53. Beyond those bounds the binary64
    result is rounded, and lies as the integer does outside the range of
    [Date]. *)
Definition numberMul (x y : NumberValue) : NumberValue :=
  match x, y with
  | Integral a, Integral b => Integral (a * b)
  | _, _ => Double (PrimFloat.mul (toDouble x) (toDouble y))
  end.

Definition numberSub (x y : NumberValue) : NumberValue :=
  match x, y with
  | Integral a, Integral b => Integral (a - b)
  | _, _ => Double (PrimFloat.sub (toDouble x) (toDouble y))
  end.

(** [x <= y]; false when either is NaN. *)
Definition numberLe (x y : NumberValue) : bool :=
  match x, y with
  | Integral a, Integral b => a <=? b
  | _, _ => PrimFloat.leb (toDouble x) (toDouble y)
  end.

(** [isNaN(x)] *)
Definition isNaN (value : NumberValue) : bool :=
  match value with
  | Integral _ => false
  | Double x => PrimFloat.is_nan x
  end.

(** The largest time value of a [Date], in milliseconds: 100 000 000 days
    on either side of the epoch. *)
Definition maxTime : Z := 8640000000000000.

(** [new Date(value)] for a number: the time value is NaN when the number
    is not finite or beyond [maxTime] in absolute value, and the number cut
    to an integer (towards 0) otherwise. A binary64 value is [m * 2^e],
    with its sign. *)
Definition newDate (value : NumberValue) : JSDate :=
  match value with
  | Integral n => if Z.abs n <=? maxTime then Some n else None
  | Double x =>
      match Prim2SF x with
      | SpecFloat.S754_zero _ => Some 0
      | SpecFloat.S754_finite s m e =>
          let beyond :=
            if e <? 0 then maxTime * 2 ^ (- e) <? Z.pos m
            else maxTime <? Z.pos m * 2 ^ e in
          if beyond then None
          else Some (SpecFloat.cond_Zopp s (Z.shiftl (Z.pos m) e))
      | _ => None
      end
  end.

Section Engine.
Context {num : Type} {N : JSNumber num}.

(** *** calculateAveragePrice (lines 21-25)
    [None] is a null or undefined argument. *)
Definition calculateAveragePrice (priceHistory : option (PriceHistory num)) : num :=
  match priceHistory with
  | None => nzero
  | Some history =>
      if (length history =? 0)%nat then nzero
      else
        let sum := fold_left (fun acc curr => nadd acc (price curr)) history nzero in
        ndiv sum (nlen (length history))
  end.

(** *** calculateCorrelation (lines 94-120) *)

(** [prices[i] - mean]; an index past the end reads undefined. *)
Definition deviation (prices : list num) (i : nat) (mean : num) : num :=
  match prices !! i with
  | Some x => nsub x mean
  | None => nnan
  end.

(** One turn of the loop of lines 106-112 on [(cov, stdDev1, stdDev2)]. *)
Definition correlationStep (prices1 prices2 : list num) (mean1 mean2 : num)
    (acc : num * num * num) (i : nat) : num * num * num :=
  let '(cov, stdDev1, stdDev2) := acc in
  let diff1 := deviation prices1 i mean1 in
  let diff2 := deviation prices2 i mean2 in
  (nadd cov (nmul diff1 diff2),
   nadd stdDev1 (nmul diff1 diff1),
   nadd stdDev2 (nmul diff2 diff2)).

(** [cov], [stdDev1] and [stdDev2] as they stand after line 116. *)
Definition correlationMoments (prices1 prices2 : list num) : num * num * num :=
  let n := length prices1 in
  let mean1 := ndiv (fold_left (fun sum x => nadd sum x) prices1 nzero) (nlen n) in
  let mean2 := ndiv (fold_left (fun sum y => nadd sum y) prices2 nzero) (nlen n) in
  let '(cov, stdDev1, stdDev2) :=
    fold_left (correlationStep prices1 prices2 mean1 mean2) (seq 0 n)
              (nzero, nzero, nzero) in
  let n1 := nsub (nlen n) (nlen 1) in
  (ndiv cov n1, nsqrt (ndiv stdDev1 n1), nsqrt (ndiv stdDev2 n1)).

(** The three ways out of the function: line 95, line 118, line 119. *)
Inductive CorrelationExit :=
| TooShort
| ZeroStdDev
| Quotient (cov divisor : num).

Definition correlationExit (prices1 prices2 : list num) : CorrelationExit :=
  if (length prices1 <? 2)%nat || (length prices2 <? 2)%nat then TooShort
  else
    let '(cov, stdDev1, stdDev2) := correlationMoments prices1 prices2 in
    if nis0 stdDev1 || nis0 stdDev2 then ZeroStdDev
    else Quotient cov (nmul stdDev1 stdDev2).

Definition calculateCorrelation (prices1 prices2 : list num) : num :=
  match correlationExit prices1 prices2 with
  | TooShort => nzero
  | ZeroStdDev => nzero
  | Quotient cov divisor => ndiv cov divisor
  end.

End Engine.

(** ** SeriesAligner *)

(** The numbers the aligner computes with: differences of time values and
    the initial [Infinity] of [minDiff]. *)
Inductive TimeNumber :=
| TFinite (ms : Z)
| TInfinity
| TNaN.

(** [date.getTime()] *)
Definition getTime (d : JSDate) : TimeNumber :=
  match d with
  | Some ms => TFinite ms
  | None => TNaN
  end.

(** [Math.abs(x - y)] on time values. *)
Definition absDiff (x y : TimeNumber) : TimeNumber :=
  match x, y with
  | TFinite a, TFinite b => TFinite (Z.abs (a - b))
  | _, _ => TNaN
  end.

(** [x < y]; every comparison with NaN is false. *)
Definition timeLt (x y : TimeNumber) : bool :=
  match x, y with
  | TFinite a, TFinite b => a <? b
  | TFinite _, TInfinity => true
  | _, _ => false
  end.

(** [d1 >= d2] and [d1 <= d2] on dates; false when either is invalid. *)
Definition dateGe (d1 d2 : JSDate) : bool :=
  match d1, d2 with
  | Some a, Some b => b <=? a
  | _, _ => false
  end.

Definition dateLe (d1 d2 : JSDate) : bool :=
  match d1, d2 with
  | Some a, Some b => a <=? b
  | _, _ => false
  end.

(** Line 53: [new Date(endTime.getTime() - minutes * 60 * 1000)], the start
    of the window that ends at the instant [endTime]. *)
Definition windowStart (endTime : Z) (minutes : NumberValue) : JSDate :=
  newDate (numberSub (Integral endTime)
                     (numberMul (numberMul minutes (Integral 60)) (Integral 1000))).

Section Aligner.
Context {num : Type}.

(** [filterByTime] (lines 56-61) *)
Definition filterByTime (startTime endTime : JSDate)
    (history : list (PricePoint num)) : list (PricePoint num) :=
  List.filter
    (fun entry =>
       let entryTime := lastUpdatedAt entry in
       dateGe entryTime startTime && dateLe entryTime endTime)
    history.

(** One turn of the inner loop (lines 75-82) on [(closest, minDiff)]. *)
Definition closestStep (time1 : TimeNumber)
    (st : option (PricePoint num) * TimeNumber) (entry2 : PricePoint num)
    : option (PricePoint num) * TimeNumber :=
  let '(closest, minDiff) := st in
  let time2 := getTime (lastUpdatedAt entry2) in
  let diff := absDiff time1 time2 in
  if timeLt diff minDiff then (Some entry2, diff) else (closest, minDiff).

(** The inner loop, from [closest = null] and [minDiff = Infinity]. *)
Definition findClosest (time1 : TimeNumber) (filtered2 : list (PricePoint num))
    : option (PricePoint num) * TimeNumber :=
  fold_left (closestStep time1) filtered2 (None, TInfinity).

(** One turn of the outer loop (lines 70-88) on [(aligned1, aligned2)]. *)
Definition alignStep (filtered2 : list (PricePoint num))
    (acc : list num * list num) (entry1 : PricePoint num) : list num * list num :=
  let '(aligned1, aligned2) := acc in
  let time1 := getTime (lastUpdatedAt entry1) in
  match fst (findClosest time1 filtered2) with
  | Some closest => (aligned1 ++ [price entry1], aligned2 ++ [price closest])
  | None => (aligned1, aligned2)
  end.

(** *** alignPriceHistories (lines 51-91)
    [now] is the instant read by [new Date()] on line 52; [minutes] is the
    number the window was given as. *)
Definition alignPriceHistories (now : Z) (history1 history2 : list (PricePoint num))
    (minutes : NumberValue) : list num * list num :=
  let endTime : JSDate := Some now in
  let startTime : JSDate := windowStart now minutes in
  let filtered1 := filterByTime startTime endTime history1 in
  let filtered2 := filterByTime startTime endTime history2 in
  fold_left (alignStep filtered2) filtered1 ([], []).

End Aligner.

(** ** PriceHistoryCache *)

Record CacheEntry (num : Type) := {
  v : PriceHistory num;   (* the stored value *)
  t : Z                   (* the instant it expires at, in milliseconds *)
}.
Arguments v {num} _.
Arguments t {num} _.

(** [stdTTL: 300] (line 12), in seconds. *)
Definition stdTTL : Z := 300.

(** Modelled from the spec: the cache is an instance of the node-cache
    package, which is not among the sources. Section 4.1 gives its contract:
    [get(key)] answers the value stored by the last [set] of that key until
    its time-to-live, counted from the insertion, has elapsed, and misses
    afterwards. An entry is kept with the instant it expires at, and is
    expired once that instant lies strictly in the past; expired entries are
    left in the table, where no [get] can see them. *)
Definition cacheGet {num : Type} (data : gmap string (CacheEntry num)) (now : Z)
    (key : string) : option (PriceHistory num) :=
  match data !! key with
  | Some entry => if t entry <? now then None else Some (v entry)
  | None => None
  end.

(** Modelled from the spec: [set(key, value)] of the same package, with the
    standard time-to-live. *)
Definition cacheSet {num : Type} (data : gmap string (CacheEntry num)) (now : Z)
    (key : string) (value : PriceHistory num) : gmap string (CacheEntry num) :=
  <[key := {| v := value; t := now + stdTTL * 1000 |}]> data.

(** ** PriceHistoryFetcher *)

(** What [axios.get] settles with (section 6 of the specification). *)
Inductive UpstreamReply (num : Type) :=
| ReplyArray (data : PriceHistory num)      (* response.data is an array *)
| ReplyStock (stock : PricePoint num)       (* response.data is {stock: {...}} *)
| ReplyFailure (message : string).          (* the promise rejects *)
Arguments ReplyArray {num} _.
Arguments ReplyStock {num} _.
Arguments ReplyFailure {num} _.

(** The state the program reads and writes: the clock, the cache and the
    upstream requests issued so far, each with its ticker and minutes. *)
Record World (num : Type) := {
  clock : Z;
  cache : gmap string (CacheEntry num);
  upstreamCalls : list (string * string)
}.
Arguments clock {num} _.
Arguments cache {num} _.
Arguments upstreamCalls {num} _.

(** How a call of an async function ends. *)
Inductive Settled (A : Type) :=
| Returned (value : A)
| Thrown (message : string).
Arguments Returned {A} _.
Arguments Thrown {A} _.

(** An async call after its synchronous part. *)
Inductive FetchState (num : Type) :=
| Resolved (data : PriceHistory num)    (* cache hit: the function returned *)
| Awaiting (k : nat) (arrival : Z).     (* suspended on request number k *)
Arguments Resolved {num} _.
Arguments Awaiting {num} _ _.

Section Fetcher.
Context {num : Type}.

(** The upstream feed: the reply to the [k]-th request issued, and the time
    in milliseconds it takes to arrive. *)
Variable upstream : nat -> string -> string -> UpstreamReply num.
Variable latency : nat -> nat.

(** Lines 29-41: the cache lookup and, on a miss, the request, up to the
    [await]. *)
Definition fetchBegin (ticker minutes : string) (w : World num)
    : FetchState num * World num :=
  let cacheKey := ticker +:+ ":" +:+ minutes in
  match cacheGet (cache w) (clock w) cacheKey with
  | Some cachedData => (Resolved cachedData, w)
  | None =>
      let k := length (upstreamCalls w) in
      (Awaiting k (clock w + Z.of_nat (latency k)),
       {| clock := clock w;
          cache := cache w;
          upstreamCalls := upstreamCalls w ++ [(ticker, minutes)] |})
  end.

(** Lines 42-47: what runs when the reply to request [k] arrives. *)
Definition fetchResume (ticker minutes : string) (k : nat) (arrival : Z)
    (w : World num) : Settled (PriceHistory num) * World num :=
  let cacheKey := ticker +:+ ":" +:+ minutes in
  let w1 := {| clock := arrival; cache := cache w; upstreamCalls := upstreamCalls w |} in
  match upstream k ticker minutes with
  | ReplyArray data =>
      (Returned data,
       {| clock := arrival;
          cache := cacheSet (cache w) arrival cacheKey data;
          upstreamCalls := upstreamCalls w |})
  | ReplyStock stock =>
      let data := [stock] in
      (Returned data,
       {| clock := arrival;
          cache := cacheSet (cache w) arrival cacheKey data;
          upstreamCalls := upstreamCalls w |})
  | ReplyFailure message =>
      (Thrown ("Failed to fetch data for " +:+ ticker +:+ ": " +:+ message), w1)
  end.

Definition settle (ticker minutes : string) (s : FetchState num) (w : World num)
    : Settled (PriceHistory num) * World num :=
  match s with
  | Resolved data => (Returned data, w)
  | Awaiting k arrival => fetchResume ticker minutes k arrival w
  end.

(** *** fetchStockPriceHistory (lines 28-48), awaited on its own *)
Definition fetchStockPriceHistory (ticker minutes : string) (w : World num)
    : Settled (PriceHistory num) * World num :=
  let '(s, w1) := fetchBegin ticker minutes w in
  settle ticker minutes s w1.

(** The instant a call settles at. *)
Definition settlesAt (s : FetchState num) (w : World num) : Z :=
  match s with
  | Resolved _ => clock w
  | Awaiting _ arrival => arrival
  end.

(** [Promise.all] of the two fetches (lines 163-166): both calls run to
    their [await] before either reply arrives; the replies are then handled
    in the order of their arrival (in the order of the requests when they
    arrive together). The result is the pair of histories, or the error of
    the first call to fail; the world is the one left when both calls have
    settled. *)
Definition fetchBoth (ticker1 ticker2 minutes : string) (w : World num)
    : Settled (PriceHistory num * PriceHistory num) * World num :=
  let '(s1, w1) := fetchBegin ticker1 minutes w in
  let '(s2, w2) := fetchBegin ticker2 minutes w1 in
  if settlesAt s1 w2 <=? settlesAt s2 w2 then
    let '(r1, w3) := settle ticker1 minutes s1 w2 in
    let '(r2, w4) := settle ticker2 minutes s2 w3 in
    (match r1, r2 with
     | Returned history1, Returned history2 => Returned (history1, history2)
     | Thrown message, _ => Thrown message
     | _, Thrown message => Thrown message
     end, w4)
  else
    let '(r2, w3) := settle ticker2 minutes s2 w2 in
    let '(r1, w4) := settle ticker1 minutes s1 w3 in
    (match r2, r1 with
     | Returned history2, Returned history1 => Returned (history1, history2)
     | Thrown message, _ => Thrown message
     | _, Thrown message => Thrown message
     end, w4).

End Fetcher.

(** ** AggregationService: the correlation operation *)

(** A parameter of [req.query] as the query-string parser hands it over. *)
Inductive QueryValue :=
| QAbsent                         (* undefined: the parameter is not given *)
| QString (s : string)            (* given once *)
| QArray (items : list string)    (* given several times *)
| QObject.                        (* given with bracketed sub-keys *)

(** [!value] *)
Definition falsy (value : QueryValue) : bool :=
  match value with
  | QAbsent => true
  | QString EmptyString => true
  | _ => false
  end.

Definition isArray (value : QueryValue) : bool :=
  match value with
  | QArray _ => true
  | _ => false
  end.

(** [value.length], for an array. *)
Definition arrayLength (value : QueryValue) : nat :=
  match value with
  | QArray items => length items
  | _ => 0
  end.

(** [value[i]] converted to a string, as the template literals do. *)
Definition itemAt (value : QueryValue) (i : nat) : string :=
  match value with
  | QArray items => default "undefined" (items !! i)
  | _ => "undefined"
  end.

(** String conversion of a query value. *)
Definition ToString (value : QueryValue) : string :=
  match value with
  | QAbsent => "undefined"
  | QString s => s
  | QArray items => String.concat "," items
  | QObject => "[object Object]"
  end.

Record Request := {
  q_minutes : QueryValue;
  q_ticker : QueryValue
}.

Record StockSummary (num : Type) := {
  averagePrice : num;
  priceHistory : PriceHistory num
}.
Arguments averagePrice {num} _.
Arguments priceHistory {num} _.

Inductive ResponseBody (num : Type) :=
| ErrorBody (error : string)
| CorrelationBody (correlation : num) (stocks : gmap string (StockSummary num)).
Arguments ErrorBody {num} _.
Arguments CorrelationBody {num} _ _.

Record Response (num : Type) := {
  status : nat;
  body : ResponseBody num
}.
Arguments status {num} _.
Arguments body {num} _.

Section Service.
Context {num : Type} {N : JSNumber num}.

Variable upstream : nat -> string -> string -> UpstreamReply num.
Variable latency : nat -> nat.

(** Number conversion of a string: the number it denotes, NaN when it
    denotes none. *)
Variable StringToNumber : string -> NumberValue.

(** Number conversion of a query value; [undefined] gives NaN. *)
Definition ToNumber (value : QueryValue) : NumberValue :=
  match value with
  | QAbsent => Double PrimFloat.nan
  | _ => StringToNumber (ToString value)
  end.

(** [!minutes || isNaN(minutes) || minutes <= 0] (line 152) *)
Definition invalidMinutes (minutes : QueryValue) : bool :=
  falsy minutes
  || isNaN (ToNumber minutes)
  || numberLe (ToNumber minutes) (Integral 0).

(** [!ticker || !Array.isArray(ticker) || ticker.length !== 2] (line 156) *)
Definition invalidTicker (ticker : QueryValue) : bool :=
  falsy ticker || negb (isArray ticker) || negb (arrayLength ticker =? 2)%nat.

(** *** GET /stockcorrelation (lines 149-187) *)
Definition stockCorrelation (req : Request) (w : World num)
    : Response num * World num :=
  let minutes := q_minutes req in
  let ticker := q_ticker req in
  if invalidMinutes minutes then
    ({| status := 400; body := ErrorBody "Invalid minutes parameter." |}, w)
  else if invalidTicker ticker then
    ({| status := 400; body := ErrorBody "Exactly two tickers are required." |}, w)
  else
    let ticker1 := itemAt ticker 0 in
    let ticker2 := itemAt ticker 1 in
    match fetchBoth upstream latency ticker1 ticker2 (ToString minutes) w with
    | (Returned (history1, history2), w') =>
        let '(alignedPrices1, alignedPrices2) :=
          alignPriceHistories (clock w') history1 history2 (ToNumber minutes) in
        let correlation := calculateCorrelation alignedPrices1 alignedPrices2 in
        ({| status := 200;
            body := CorrelationBody correlation
              (<[ticker2 := {| averagePrice := calculateAveragePrice (Some history2);
                               priceHistory := history2 |}]>
                 (<[ticker1 := {| averagePrice := calculateAveragePrice (Some history1);
                                  priceHistory := history1 |}]> ∅)) |}, w')
    | (Thrown message, w') =>
        ({| status := 500; body := ErrorBody message |}, w')
    end.

End Service.

(** ** AggregationService: the average operation *)

(** The character [U+0022], which the first error message quotes with. *)
Definition doubleQuote : string := String (Ascii.ascii_of_nat 34) EmptyString.

(** [GET /stocks/:ticker]: the route parameter and the two query
    parameters the handler reads. *)
Record AverageRequest := {
  p_ticker : string;
  a_minutes : QueryValue;
  a_aggregation : QueryValue
}.

Inductive AverageBody (num : Type) :=
| AverageError (error : string)
| AverageResult (averageStockPrice : num) (priceHistory : PriceHistory num).
Arguments AverageError {num} _.
Arguments AverageResult {num} _ _.

Record AverageResponse (num : Type) := {
  a_status : nat;
  a_body : AverageBody num
}.
Arguments a_status {num} _.
Arguments a_body {num} _.

(** [aggregation !== 'average'] (line 127): strict inequality with a string. *)
Definition notAverage (aggregation : QueryValue) : bool :=
  match aggregation with
  | QString s => negb (String.eqb s "average")
  | _ => true
  end.

Section AverageService.
Context {num : Type} {N : JSNumber num}.

Variable upstream : nat -> string -> string -> UpstreamReply num.
Variable latency : nat -> nat.
Variable StringToNumber : string -> NumberValue.

(** *** GET /stocks/:ticker (lines 123-146) *)
Definition stockAverage (req : AverageRequest) (w : World num)
    : AverageResponse num * World num :=
  let ticker := p_ticker req in
  let minutes := a_minutes req in
  let aggregation := a_aggregation req in
  if notAverage aggregation then
    ({| a_status := 400;
        a_body := AverageError ("Invalid aggregation type. Use " +:+ doubleQuote
                                +:+ "average" +:+ doubleQuote +:+ ".") |}, w)
  else if invalidMinutes StringToNumber minutes then
    ({| a_status := 400; a_body := AverageError "Invalid minutes parameter." |}, w)
  else
    match fetchStockPriceHistory upstream latency ticker (ToString minutes) w with
    | (Returned priceHistory, w') =>
        let averagePrice := calculateAveragePrice (Some priceHistory) in
        ({| a_status := 200; a_body := AverageResult averagePrice priceHistory |}, w')
    | (Thrown message, w') =>
        ({| a_status := 500; a_body := AverageError message |}, w')
    end.

End AverageService.

(** ** The vocabulary of the specification *)

Section Vocabulary.
Context {num : Type} {N : JSNumber num}.

(** The sum of the values of a series, taken in order from [acc]. *)
Fixpoint sumFrom (acc : num) (values : list num) : num :=
  match values with
  | [] => acc
  | x :: rest => sumFrom (nadd acc x) rest
  end.

(** Arithmetic mean: sum of the values divided by their count. *)
Definition arithmeticMean (values : list num) : num :=
  ndiv (sumFrom nzero values) (nlen (length values)).

(** The standard deviations that [calculateCorrelation] computes for its
    two series. *)
Definition computedStdDev1 (prices1 prices2 : list num) : num :=
  snd (fst (correlationMoments prices1 prices2)).

Definition computedStdDev2 (prices1 prices2 : list num) : num :=
  snd (correlationMoments prices1 prices2).

(** A series all of whose points have the same value. *)
Definition constantSeries (values : list num) : Prop :=
  exists c, Forall (fun x => x = c) values.

(** The sample variance that [calculateCorrelation] computes for a series
    set against itself: the covariance of line 114. *)
Definition computedVariance (series : list num) : num :=
  fst (fst (correlationMoments series series)).

End Vocabulary.

(** [m * 2^e] is positive and at least [2^j]. *)
Definition atLeastPow (j m e : Z) : Prop :=
  0 < m /\ (e < j -> 2 ^ (j - e) <= m).

(** [2^e] as a real number, for an exponent of either sign. *)
Definition bpow (e : Z) : R := powerRZ 2 e.

(** The real number that a finite binary64 value denotes; 0 for NaN and
    the infinities. *)
Definition realOf (x : spec_float) : R :=
  match x with
  | S754_finite s m e =>
      ((if s then - IZR (Z.pos m) else IZR (Z.pos m)) * bpow e)%R
  | _ => 0%R
  end.

Definition float64Value (x : float) : R := realOf (Prim2SF x).

(** A binary64 value that is not zero: NaN, an infinity, or a finite number
    of absolute value at least [2^j]. *)
Definition awayFromZero (j : Z) (x : spec_float) : Prop :=
  match x with
  | S754_zero _ => False
  | S754_finite _ m e => atLeastPow j (Z.pos m) e
  | _ => True
  end.

(** The sum of [f i] over the indices [i] of a list, in exact arithmetic. *)
Definition sumOver (f : nat -> R) (indices : list nat) : R :=
  fold_right (fun i acc => (f i + acc)%R) 0%R indices.

Section WindowVocabulary.
Context {num : Type}.

(** The point carries a valid timestamp between [startTime] and [endTime],
    both ends included. *)
Definition inWindow (startTime endTime : Z) (p : PricePoint num) : Prop :=
  match lastUpdatedAt p with
  | Some ts => startTime <= ts <= endTime
  | None => False
  end.

#[global] Instance inWindow_dec (startTime endTime : Z) (p : PricePoint num) :
  Decision (inWindow startTime endTime p).
Proof. unfold inWindow. destruct (lastUpdatedAt p); apply _. Defined.

(** The restriction of a history to a window, in the order of the history. *)
Definition restrictToWindow (startTime endTime : Z) (history : PriceHistory num)
    : PriceHistory num :=
  filter (inWindow startTime endTime) history.

(** The point lies in the window that [alignPriceHistories] works on when
    the clock reads [now]: it carries a valid timestamp between the start of
    the window, as line 53 computes it, and [now]. No point does when that
    start is an Invalid Date. *)
Definition inWindowAt (now : Z) (minutes : NumberValue) (p : PricePoint num) : Prop :=
  match windowStart now minutes with
  | Some startTime => inWindow startTime now p
  | None => False
  end.

#[global] Instance inWindowAt_dec (now : Z) (minutes : NumberValue)
    (p : PricePoint num) : Decision (inWindowAt now minutes p).
Proof. unfold inWindowAt. destruct (windowStart now minutes); apply _. Defined.

(** The points of a history in that window, in the order of the history. *)
Definition pointsInWindow (now : Z) (minutes : NumberValue)
    (history : PriceHistory num) : PriceHistory num :=
  filter (inWindowAt now minutes) history.

(** [b], at index [j] of [series] with timestamp [tb], is the point of
    [series] nearest to the instant [ta]: no point of the series is
    strictly nearer, and every point before it is strictly farther. *)
Definition nearestFirst (ta : Z) (series : PriceHistory num) (j : nat)
    (b : PricePoint num) (tb : Z) : Prop :=
  series !! j = Some b
  /\ lastUpdatedAt b = Some tb
  /\ (forall j' b' tb', series !! j' = Some b' -> lastUpdatedAt b' = Some tb' ->
       Z.abs (ta - tb) <= Z.abs (ta - tb'))
  /\ (forall j' b' tb', (j' < j)%nat -> series !! j' = Some b' ->
       lastUpdatedAt b' = Some tb' -> Z.abs (ta - tb) < Z.abs (ta - tb')).

(** What the outer loop appends for one point of the first series. *)
Definition pairedWith (filtered2 : PriceHistory num) (entry1 : PricePoint num)
    : option (PricePoint num) :=
  fst (findClosest (getTime (lastUpdatedAt entry1)) filtered2).

(** The state [(closest, minDiff)] of the inner loop after the points
    [seen]: nothing found yet, or the nearest of them with its distance. *)
Definition closestInvariant (ta : Z) (seen : PriceHistory num)
    (st : option (PricePoint num) * TimeNumber) : Prop :=
  (fst st = None /\ snd st = TInfinity
   /\ Forall (fun p => lastUpdatedAt p = None) seen)
  \/ (exists j b tb, nearestFirst ta seen j b tb
        /\ fst st = Some b /\ snd st = TFinite (Z.abs (ta - tb))).

(** The prices the outer loop appends to [aligned1] and to [aligned2] for
    one point of the first series. *)
Definition pushed1 (filtered2 : PriceHistory num) (entry1 : PricePoint num)
    : list num :=
  match pairedWith filtered2 entry1 with
  | Some _ => [price entry1]
  | None => []
  end.

Definition pushed2 (filtered2 : PriceHistory num) (entry1 : PricePoint num)
    : list num :=
  match pairedWith filtered2 entry1 with
  | Some closest => [price closest]
  | None => []
  end.

End WindowVocabulary.

(** What the specification asks of the ticker parameter, and what the
    handler checks of it. *)
Definition twoDistinctTickers (ticker : QueryValue) : Prop :=
  exists t1 t2, ticker = QArray [t1; t2] /\ t1 <> t2.

Definition twoTickers (ticker : QueryValue) : Prop :=
  exists t1 t2, ticker = QArray [t1; t2].

(** Whether a string holds the character that separates the ticker from the
    minutes in a cache key. *)
Fixpoint containsColon (s : string) : bool :=
  match s with
  | EmptyString => false
  | String c rest => Ascii.eqb c (Ascii.ascii_of_nat 58) || containsColon rest
  end.

(** ** Sample data *)

(** Two histories of three points within one minute, in binary64. *)
Definition sampleA : PriceHistory float :=
  [ {| price := 1%float; lastUpdatedAt := Some 1700000000000 |};
    {| price := 2%float; lastUpdatedAt := Some 1700000030000 |};
    {| price := 4%float; lastUpdatedAt := Some 1700000045000 |} ].

Definition sampleB : PriceHistory float :=
  [ {| price := 3%float; lastUpdatedAt := Some 1700000001000 |};
    {| price := 1%float; lastUpdatedAt := Some 1700000029000 |};
    {| price := 2%float; lastUpdatedAt := Some 1700000050000 |} ].

(** A feed that answers every request with an array: [sampleA] for AAPL,
    [sampleB] for any other ticker; replies take 120 ms. *)
Definition sampleUpstream (k : nat) (ticker minutes : string) : UpstreamReply float :=
  if String.eqb ticker "AAPL" then ReplyArray sampleA else ReplyArray sampleB.

Definition sampleLatency (k : nat) : nat := 120.

(** Number conversion on strings of decimal digits (the empty string is 0);
    every other string is NaN here. *)
Fixpoint digitsToNumber (acc : Z) (s : string) : NumberValue :=
  match s with
  | EmptyString => Integral acc
  | String c rest =>
      let d := Z.of_N (Ascii.N_of_ascii c) - 48 in
      if (0 <=? d) && (d <=? 9) then digitsToNumber (10 * acc + d) rest
      else Double PrimFloat.nan
  end.

(** The same conversion, which also knows the strings [0.5] and
    [Infinity]. *)
Definition decimalToNumber (s : string) : NumberValue :=
  if String.eqb s "0.5" then Double 0.5%float
  else if String.eqb s "Infinity" then Double PrimFloat.infinity
  else digitsToNumber 0 s.

(** A feed that rejects every request. *)
Definition failingUpstream (k : nat) (ticker minutes : string) : UpstreamReply float :=
  ReplyFailure "Request failed with status code 503".

(** A world with an empty cache in which no request was issued yet. *)
Definition freshWorld : World float :=
  {| clock := 1700000050000; cache := ∅; upstreamCalls := [] |}.


(** The world left by a first fetch of AAPL over 60 minutes in
    [freshWorld]: the reply arrived after 120 ms and was stored. *)
Definition cachedWorld : World float :=
  {| clock := 1700000050120;
     cache := cacheSet ∅ 1700000050120 "AAPL:60" sampleA;
     upstreamCalls := [("AAPL", "60")] |}.

(** The world [w] after [ms] milliseconds in which nothing else happened. *)
Definition elapse {num : Type} (ms : Z) (w : World num) : World num :=
  {| clock := clock w + ms; cache := cache w; upstreamCalls := upstreamCalls w |}.

(** A request for the correlation of AAPL with itself over 60 minutes. *)
Definition sameTickerRequest : Request :=
  {| q_minutes := QString "60"; q_ticker := QArray ["AAPL"; "AAPL"] |}.

(** A request for the correlation of AAPL and MSFT over 60 minutes, and a
    request for the average of AAPL over 60 minutes. *)
Definition twoTickerRequest : Request :=
  {| q_minutes := QString "60"; q_ticker := QArray ["AAPL"; "MSFT"] |}.

Definition averageRequest : AverageRequest :=
  {| p_ticker := "AAPL"; a_minutes := QString "60";
     a_aggregation := QString "average" |}.

(** Requests for the correlation over half a minute, over an infinite
    window and over 200000000000 minutes. *)
Definition halfMinuteRequest : Request :=
  {| q_minutes := QString "0.5"; q_ticker := QArray ["AAPL"; "MSFT"] |}.

Definition infiniteRequest : Request :=
  {| q_minutes := QString "Infinity"; q_ticker := QArray ["AAPL"; "MSFT"] |}.

Definition hugeWindowRequest : Request :=
  {| q_minutes := QString "200000000000"; q_ticker := QArray ["AAPL"; "MSFT"] |}.

(** The coefficient of an answer, NaN standing for an answer without one. *)
Definition coefficientOf (answer : Response float) : float :=
  match body answer with
  | CorrelationBody correlation _ => correlation
  | ErrorBody _ => nan
  end.

(** ** Runs of the service *)

(** What the synchronous part of a fetch leaves pending is a request of the
    log, due no earlier than now. *)
Definition pendingOk {num : Type} (ticker minutes : string) (s : FetchState num)
    (w : World num) : Prop :=
  match s with
  | Resolved _ => True
  | Awaiting k arrival =>
      upstreamCalls w !! k = Some (ticker, minutes) /\ clock w <= arrival
  end.

(** What line 42 makes of a reply: the array itself, or the single stock as
    an array of one point; nothing for a rejected request. *)
Definition normalised {num : Type} (reply : UpstreamReply num)
    : option (PriceHistory num) :=
  match reply with
  | ReplyArray data => Some data
  | ReplyStock stock => Some [stock]
  | ReplyFailure _ => None
  end.

Section Runs.
Context {num : Type} {N : JSNumber num}.
Variable upstream : nat -> string -> string -> UpstreamReply num.
Variable latency : nat -> nat.
Variable StringToNumber : string -> NumberValue.

(** One step of the service: time goes by, or one request of either kind is
    handled from its arrival to its answer. *)
Inductive Step : World num -> World num -> Prop :=
| StepElapse (w : World num) (ms : Z) :
    0 <= ms -> Step w (elapse ms w)
| StepAverage (w : World num) (req : AverageRequest) :
    Step w (snd (stockAverage upstream latency StringToNumber req w))
| StepCorrelation (w : World num) (req : Request) :
    Step w (snd (stockCorrelation upstream latency StringToNumber req w)).

(** The worlds the service can be in, started with an empty cache. *)
Inductive Reachable : World num -> Prop :=
| ReachStart (start : Z) :
    Reachable {| clock := start; cache := ∅; upstreamCalls := [] |}
| ReachStep (w w' : World num) :
    Reachable w -> Step w w' -> Reachable w'.

(** Every entry of the cache expires no later than 300 seconds from now,
    and holds what the feed replied to a request, issued earlier, with the
    key of the entry. *)
Definition cacheSound (w : World num) : Prop :=
  forall key entry, cache w !! key = Some entry ->
    t entry <= clock w + stdTTL * 1000
    /\ exists k ticker minutes,
         upstreamCalls w !! k = Some (ticker, minutes)
         /\ key = ticker +:+ ":" +:+ minutes
         /\ normalised (upstream k ticker minutes) = Some (v entry).

(** The history was the feed's reply to a request of the log for [key]. *)
Definition repliedFor (w : World num) (key : string) (history : PriceHistory num)
    : Prop :=
  exists k ticker minutes,
    upstreamCalls w !! k = Some (ticker, minutes)
    /\ key = ticker +:+ ":" +:+ minutes
    /\ normalised (upstream k ticker minutes) = Some history.

End Runs.

(** * Properties *)

(** ** CorrelationEngine, for every arithmetic *)

Section EngineFacts.
Context {num : Type} {N : JSNumber num}.

Lemma fold_prices_sumFrom (history : PriceHistory num) (acc : num) :
  fold_left (fun a curr => nadd a (price curr)) history acc
  = sumFrom acc (map price history).
Proof.
  revert acc. induction history as [|p rest IH]; intros acc; simpl.
  - reflexivity.
  - apply IH.
Qed.

(** C9. [calculateAveragePrice] is 0 for an empty (or missing) history and
    otherwise the arithmetic mean of the prices: their sum, taken in order,
    divided by the length of the history. *)
Theorem calculateAveragePrice_mean (history : PriceHistory num) :
  calculateAveragePrice None = nzero
  /\ (history = [] -> calculateAveragePrice (Some history) = nzero)
  /\ (history <> [] ->
      calculateAveragePrice (Some history) = arithmeticMean (map price history)).
Proof.
  split; [reflexivity|]. split.
  - intros ->. reflexivity.
  - intros Hne. unfold calculateAveragePrice, arithmeticMean.
    destruct history as [|p rest]; [congruence|].
    cbn [length Nat.eqb]. rewrite fold_prices_sumFrom, length_map.
    reflexivity.
Qed.

Lemma correlationExit_short (prices1 prices2 : list num) :
  (length prices1 < 2 \/ length prices2 < 2)%nat ->
  correlationExit prices1 prices2 = TooShort.
Proof.
  intros H. unfold correlationExit.
  assert (((length prices1 <? 2)%nat || (length prices2 <? 2)%nat) = true) as ->.
  { apply orb_true_iff. destruct H; [left|right]; apply Nat.ltb_lt; lia. }
  reflexivity.
Qed.

(** C6. With fewer than 2 points in either series [calculateCorrelation]
    returns 0 (the function is total: it never fails). *)
Theorem calculateCorrelation_short (prices1 prices2 : list num) :
  (length prices1 < 2 \/ length prices2 < 2)%nat ->
  calculateCorrelation prices1 prices2 = nzero.
Proof.
  intros H. unfold calculateCorrelation.
  rewrite correlationExit_short by exact H. reflexivity.
Qed.

Lemma correlationExit_long (prices1 prices2 : list num) :
  (2 <= length prices1)%nat -> (2 <= length prices2)%nat ->
  correlationExit prices1 prices2
  = let '(cov, stdDev1, stdDev2) := correlationMoments prices1 prices2 in
    if nis0 stdDev1 || nis0 stdDev2 then ZeroStdDev
    else Quotient cov (nmul stdDev1 stdDev2).
Proof.
  intros H1 H2. unfold correlationExit.
  assert (((length prices1 <? 2)%nat || (length prices2 <? 2)%nat) = false) as ->.
  { apply orb_false_iff. split; apply Nat.ltb_ge; lia. }
  reflexivity.
Qed.

(** The guard of line 118: a computed deviation that compares equal to 0
    ends the function with 0, before the division. *)
Lemma zero_stdDev_guard (prices1 prices2 : list num) :
  (2 <= length prices1)%nat -> (2 <= length prices2)%nat ->
  nis0 (computedStdDev1 prices1 prices2) = true
  \/ nis0 (computedStdDev2 prices1 prices2) = true ->
  correlationExit prices1 prices2 = ZeroStdDev
  /\ calculateCorrelation prices1 prices2 = nzero.
Proof.
  intros H1 H2 Hz. unfold calculateCorrelation.
  rewrite (correlationExit_long _ _ H1 H2).
  unfold computedStdDev1, computedStdDev2 in Hz.
  destruct (correlationMoments prices1 prices2) as [[cov sd1] sd2]. simpl in Hz.
  assert (nis0 sd1 || nis0 sd2 = true) as ->.
  { apply orb_true_iff. exact Hz. }
  split; reflexivity.
Qed.

(** When the division of line 119 is reached, its divisor is the product of
    two deviations neither of which compares equal to 0. *)
Lemma quotient_divisor (prices1 prices2 : list num) (cov divisor : num) :
  correlationExit prices1 prices2 = Quotient cov divisor ->
  divisor = nmul (computedStdDev1 prices1 prices2) (computedStdDev2 prices1 prices2)
  /\ nis0 (computedStdDev1 prices1 prices2) = false
  /\ nis0 (computedStdDev2 prices1 prices2) = false.
Proof.
  unfold correlationExit, computedStdDev1, computedStdDev2.
  destruct ((length prices1 <? 2)%nat || (length prices2 <? 2)%nat); [discriminate|].
  destruct (correlationMoments prices1 prices2) as [[c sd1] sd2]. simpl.
  destruct (nis0 sd1) eqn:E1, (nis0 sd2) eqn:E2; simpl; try discriminate.
  intros [= _ <-]. auto.
Qed.

End EngineFacts.

(** ** CorrelationEngine, in exact arithmetic *)

Section ExactFacts.
Local Open Scope R_scope.

Lemma sumFrom_exact (values : list R) (acc : R) :
  sumFrom acc values = acc + fold_right Rplus 0 values.
Proof.
  revert acc. induction values as [|x rest IH]; intros acc; simpl.
  - lra.
  - rewrite IH. lra.
Qed.

Lemma fold_sum_exact (values : list R) (acc : R) :
  fold_left (fun sum x => nadd sum x) values acc = acc + fold_right Rplus 0 values.
Proof.
  revert acc. induction values as [|x rest IH]; intros acc; simpl.
  - lra.
  - rewrite IH. lra.
Qed.

(** The loop of lines 106-112 adds up the products of the deviations. *)
Lemma correlation_loop_exact (prices1 prices2 : list R) (mean1 mean2 : R)
    (indices : list nat) (cov s1 s2 : R) :
  fold_left (correlationStep prices1 prices2 mean1 mean2) indices (cov, s1, s2)
  = (cov + sumOver (fun i => deviation prices1 i mean1 * deviation prices2 i mean2) indices,
     s1 + sumOver (fun i => deviation prices1 i mean1 * deviation prices1 i mean1) indices,
     s2 + sumOver (fun i => deviation prices2 i mean2 * deviation prices2 i mean2) indices).
Proof.
  revert cov s1 s2. induction indices as [|i rest IH]; intros cov s1 s2; simpl.
  - f_equal; [f_equal|]; lra.
  - rewrite IH. f_equal; [f_equal|]; lra.
Qed.

Lemma sumOver_nonneg (f : nat -> R) (indices : list nat) :
  (forall i, 0 <= f i) -> 0 <= sumOver f indices.
Proof.
  intros Hf. induction indices as [|i rest IH]; simpl.
  - lra.
  - specialize (Hf i). lra.
Qed.

Lemma sumOver_pos (f : nat -> R) (indices : list nat) (k : nat) :
  (forall i, 0 <= f i) -> In k indices -> 0 < f k -> 0 < sumOver f indices.
Proof.
  intros Hf Hin Hk. induction indices as [|i rest IH]; simpl.
  - destruct Hin.
  - destruct Hin as [->|Hin].
    + pose proof (sumOver_nonneg f rest Hf). lra.
    + specialize (IH Hin). specialize (Hf i). lra.
Qed.

Lemma INR_ge_2 (n : nat) : (2 <= n)%nat -> 2 <= INR n.
Proof. intros H. apply le_INR in H. simpl in H. lra. Qed.

Lemma nis0_exact_false (x : R) : nis0 x = false <-> x <> 0.
Proof. simpl. destruct (Req_dec_T x 0); split; intros; congruence. Qed.

(** The moments computed for two series in exact arithmetic. *)
Lemma correlationMoments_exact (prices1 prices2 : list R) :
  let n := length prices1 in
  let mean1 := fold_right Rplus 0 prices1 / INR n in
  let mean2 := fold_right Rplus 0 prices2 / INR n in
  let ss f := sumOver f (seq 0 n) / (INR n - 1) in
  correlationMoments prices1 prices2
  = (ss (fun i => deviation prices1 i mean1 * deviation prices2 i mean2),
     sqrt (ss (fun i => deviation prices1 i mean1 * deviation prices1 i mean1)),
     sqrt (ss (fun i => deviation prices2 i mean2 * deviation prices2 i mean2))).
Proof.
  intros n mean1 mean2 ss. unfold correlationMoments.
  rewrite !fold_sum_exact. fold n.
  change (@nzero R exactR) with 0. change (@nlen R exactR) with INR.
  change (@ndiv R exactR) with Rdiv. change (@nsub R exactR) with Rminus.
  change (@nsqrt R exactR) with sqrt.
  rewrite !Rplus_0_l. fold mean1 mean2.
  rewrite correlation_loop_exact. rewrite !Rplus_0_l.
  change (INR 1) with 1. reflexivity.
Qed.

(** A series that is not constant has a point off its mean. *)
Lemma off_mean_exact (values : list R) (m : R) :
  ~ constantSeries values ->
  exists i x, values !! i = Some x /\ x <> m.
Proof.
  intros Hnc.
  destruct (Forall_Exists_dec (fun x => x = m) (fun x => x <> m)
              (fun x => Req_dec_T x m) values)
    as [Hall|Hex].
  - exfalso. apply Hnc. exists m. exact Hall.
  - apply Exists_exists in Hex as (x & Hin & Hx).
    apply list_elem_of_lookup in Hin as [i Hi]. eauto.
Qed.

Lemma self_moments_exact (series : list R) :
  (2 <= length series)%nat -> ~ constantSeries series ->
  exists variance, 0 < variance
    /\ correlationMoments series series = (variance, sqrt variance, sqrt variance).
Proof.
  intros Hn Hnc. rewrite correlationMoments_exact. cbv zeta.
  set (mean := fold_right Rplus 0 series / INR (length series)).
  set (f := fun i => deviation series i mean * deviation series i mean).
  exists (sumOver f (seq 0 (length series)) / (INR (length series) - 1)).
  split; [|reflexivity].
  pose proof (INR_ge_2 _ Hn).
  destruct (off_mean_exact series mean Hnc) as (k & x & Hk & Hx).
  assert (0 < sumOver f (seq 0 (length series))) as Hpos.
  { apply (sumOver_pos f _ k).
    - intros i. unfold f. nra.
    - apply in_seq. apply lookup_lt_Some in Hk. lia.
    - unfold f, deviation. rewrite Hk. simpl. nra. }
  apply Rdiv_lt_0_compat; lra.
Qed.

End ExactFacts.

(** ** Symmetry of the correlation *)

Section Symmetry.
Context {num : Type} {N : JSNumber num}.
Hypothesis nmul_comm : forall x y : num, nmul x y = nmul y x.

Lemma correlation_loop_swap (prices1 prices2 : list num) (mean1 mean2 : num)
    (indices : list nat) (cov s1 s2 : num) :
  fold_left (correlationStep prices2 prices1 mean2 mean1) indices (cov, s2, s1)
  = let '(c, t1, t2) :=
      fold_left (correlationStep prices1 prices2 mean1 mean2) indices (cov, s1, s2) in
    (c, t2, t1).
Proof.
  revert cov s1 s2. induction indices as [|i rest IH]; intros cov s1 s2.
  - reflexivity.
  - cbn [fold_left]. unfold correlationStep at 2 4.
    rewrite (nmul_comm (deviation prices2 i mean2) (deviation prices1 i mean1)).
    apply IH.
Qed.

Lemma correlationMoments_swap (prices1 prices2 : list num) :
  length prices1 = length prices2 ->
  correlationMoments prices2 prices1
  = let '(c, t1, t2) := correlationMoments prices1 prices2 in (c, t2, t1).
Proof.
  intros Hlen. unfold correlationMoments. rewrite <- Hlen.
  rewrite correlation_loop_swap.
  destruct (fold_left _ _ _) as [[c t1] t2]. reflexivity.
Qed.

End Symmetry.

(** ** CorrelationEngine, in binary64 *)

Section Float64Facts.
Local Open Scope float_scope.

(** IEEE multiplication is commutative. *)
Lemma float64_mul_comm (x y : float) : x * y = y * x.
Proof.
  apply Prim2SF_inj. rewrite !mul_spec.
  destruct (Prim2SF x) as [sx|sx| |sx mx ex], (Prim2SF y) as [sy|sy| |sy my ey];
    simpl; try reflexivity; try (rewrite xorb_comm; reflexivity).
  unfold SF64mul, SpecFloat.SFmul.
  rewrite xorb_comm, Pos.mul_comm, Z.add_comm. reflexivity.
Qed.

(** C10. On the program's numbers the correlation of two series of equal
    length does not depend on their order. *)
Theorem calculateCorrelation_symmetric (a b : list float) :
  length a = length b ->
  calculateCorrelation a b = calculateCorrelation b a.
Proof.
  intros Hlen. unfold calculateCorrelation, correlationExit.
  rewrite (correlationMoments_swap (N:=float64) float64_mul_comm a b Hlen).
  rewrite (orb_comm (length b <? 2)%nat).
  destruct ((length a <? 2)%nat || (length b <? 2)%nat); [reflexivity|].
  destruct (correlationMoments a b) as [[cov sdA] sdB].
  rewrite (orb_comm (nis0 sdB)).
  change (@nmul float float64) with PrimFloat.mul.
  rewrite (float64_mul_comm sdB sdA).
  reflexivity.
Qed.

Lemma calculateCorrelation_symmetric_witness :
  calculateCorrelation [1; 2; 4] [3; 1; 2] = calculateCorrelation [3; 1; 2] [1; 2; 4].
Proof. apply (calculateCorrelation_symmetric [1; 2; 4] [3; 1; 2]). reflexivity. Defined.

End Float64Facts.

(** ** Rounding in binary64: what stays away from zero *)

Section Float64Rounding.

(** A positive number of [d] binary digits lies between [2^(d-1)] and [2^d]. *)
Lemma digits2_pos_bounds (m : positive) :
  2 ^ (Z.pos (digits2_pos m) - 1) <= Z.pos m < 2 ^ Z.pos (digits2_pos m).
Proof.
  induction m as [p IH|p IH|]; cbn [digits2_pos].
  - rewrite Pos2Z.inj_succ.
    replace (Z.succ (Z.pos (digits2_pos p)) - 1) with (Z.succ (Z.pos (digits2_pos p) - 1)) by lia.
    rewrite !Z.pow_succ_r by lia. lia.
  - rewrite Pos2Z.inj_succ.
    replace (Z.succ (Z.pos (digits2_pos p)) - 1) with (Z.succ (Z.pos (digits2_pos p) - 1)) by lia.
    rewrite !Z.pow_succ_r by lia. lia.
  - cbn. lia.
Qed.

(** Shifting right: [iter_pos] is iteration, and each step of [shr_1] halves
    the mantissa. *)
Lemma iter_pos_nat {A : Type} (f : A -> A) (p : positive) (x : A) :
  SpecFloat.iter_pos f p x = Nat.iter (Pos.to_nat p) f x.
Proof.
  revert x. induction p as [p IH|p IH|]; intros x; cbn [SpecFloat.iter_pos].
  - rewrite !IH, Pos2Nat.inj_xI.
    replace (S (2 * Pos.to_nat p)) with (Pos.to_nat p + (Pos.to_nat p + 1))%nat by lia.
    rewrite !Nat.iter_add. reflexivity.
  - rewrite !IH, Pos2Nat.inj_xO.
    replace (2 * Pos.to_nat p)%nat with (Pos.to_nat p + Pos.to_nat p)%nat by lia.
    rewrite Nat.iter_add. reflexivity.
  - reflexivity.
Qed.

Lemma shr_1_m (r : shr_record) : 0 <= shr_m r -> shr_m (shr_1 r) = shr_m r / 2.
Proof.
  destruct r as [m r s]. cbn [shr_m]. intros Hm.
  rewrite <- Z.div2_div.
  destruct m as [|[p|p|]|p]; try reflexivity; lia.
Qed.

Lemma iter_shr_m (n : nat) (r : shr_record) :
  0 <= shr_m r -> shr_m (Nat.iter n shr_1 r) = shr_m r / 2 ^ Z.of_nat n.
Proof.
  intros Hm. induction n as [|n IH].
  - cbn. rewrite Z.div_1_r. reflexivity.
  - rewrite Nat.iter_succ, shr_1_m, IH.
    + rewrite Nat2Z.inj_succ, Z.pow_succ_r by lia.
      rewrite Z.div_div by lia. f_equal. lia.
    + rewrite IH. apply Z.div_pos; lia.
Qed.

Lemma shr_value (r : shr_record) (e n : Z) :
  0 <= shr_m r ->
  shr_m (fst (shr r e n)) = shr_m r / 2 ^ Z.max 0 n
  /\ snd (shr r e n) = e + Z.max 0 n.
Proof.
  intros Hm. destruct n as [|p|p]; cbn [shr fst snd].
  - cbn. rewrite Z.div_1_r. lia.
  - rewrite iter_pos_nat, iter_shr_m, positive_nat_Z by exact Hm.
    rewrite Z.max_r by lia. split; reflexivity.
  - rewrite Z.max_l by lia. cbn. rewrite Z.div_1_r. lia.
Qed.

Lemma shr_record_of_loc_m (m : Z) (l : location) : shr_m (shr_record_of_loc m l) = m.
Proof. destruct l as [|[]]; reflexivity. Qed.

Lemma atLeastPow_le (j m m' e : Z) : atLeastPow j m e -> m <= m' -> atLeastPow j m' e.
Proof. intros [H0 H] Hle. split; [lia|]. intros He. specialize (H He). lia. Qed.

(** The shift to the exponent of the format keeps a number at or above a
    power of 2 that the format holds. *)
Lemma shr_fexp_lower (j m e : Z) (l : location) :
  emin <= j -> atLeastPow j m e ->
  atLeastPow j (shr_m (fst (shr_fexp prec emax m e l))) (snd (shr_fexp prec emax m e l)).
Proof.
  intros Hj [Hpos Hlow]. unfold shr_fexp.
  set (n := fexp prec emax (Zdigits2 m + e) - e).
  destruct (shr_value (shr_record_of_loc m l) e n) as [-> ->];
    [rewrite shr_record_of_loc_m; lia|].
  rewrite shr_record_of_loc_m.
  destruct m as [|p|p]; try lia. cbn [Zdigits2] in n.
  pose proof (digits2_pos_bounds p) as [Hd1 Hd2].
  set (d := Z.pos (digits2_pos p)) in *.
  assert (Z.max 0 n <= d - 1) as Hn.
  { unfold n, fexp, SpecFloat.emin, prec, emax in *.
    destruct (Z.max_spec 0 (Z.max (d + e - 53) (3 - 1024 - 53) - e)) as [[_ ->]|[_ ->]];
      [|lia].
    destruct (Z.max_spec (d + e - 53) (3 - 1024 - 53)) as [[_ ->]|[_ ->]]; [|lia].
    destruct (Z_lt_le_dec e j) as [He|He].
    - specialize (Hlow He).
      assert (2 ^ (j - e) < 2 ^ d) as Hlt by lia.
      apply Z.pow_lt_mono_r_iff in Hlt; lia.
    - lia. }
  assert (0 <= Z.max 0 n) as Hn0 by lia.
  set (k := Z.max 0 n) in *.
  assert (2 ^ k <= Z.pos p) as Hk.
  { transitivity (2 ^ (d - 1)); [|exact Hd1]. apply Z.pow_le_mono_r; lia. }
  split.
  - apply Z.div_str_pos. split; [|exact Hk]. apply Z.pow_pos_nonneg; lia.
  - intros He. assert (e < j) as He' by lia. specialize (Hlow He').
    apply Z.div_le_lower_bound; [apply Z.pow_pos_nonneg; lia|].
    rewrite <- Z.pow_add_r by lia. replace (k + (j - (e + k))) with (j - e) by lia.
    exact Hlow.
Qed.

Lemma round_nearest_even_ge (m : Z) (l : location) : m <= round_nearest_even m l.
Proof.
  destruct l as [|[]]; cbn; try lia. destruct (Z.even m); lia.
Qed.

(** Rounding does not go below a power of 2 that the format holds. *)
Lemma binary_round_aux_lower (j : Z) (s : bool) (m e : Z) (l : location) :
  emin <= j -> atLeastPow j m e ->
  (exists m' e', binary_round_aux prec emax s m e l = S754_finite s m' e'
                 /\ atLeastPow j (Z.pos m') e')
  \/ binary_round_aux prec emax s m e l = S754_infinity s.
Proof.
  intros Hj Hm. unfold binary_round_aux.
  pose proof (shr_fexp_lower j m e l Hj Hm) as H1.
  destruct (shr_fexp prec emax m e l) as [r1 e1]. cbn [fst snd] in H1.
  pose proof (atLeastPow_le _ _ _ _ H1
                (round_nearest_even_ge (shr_m r1) (loc_of_shr_record r1))) as H2.
  pose proof (shr_fexp_lower j _ e1 loc_Exact Hj H2) as H3.
  destruct (shr_fexp prec emax _ e1 loc_Exact) as [r2 e2]. cbn [fst snd] in H3.
  destruct (shr_m r2) as [|m'|m'] eqn:Em; [destruct H3; lia| |destruct H3; lia].
  destruct (e2 <=? emax - prec); [left; eauto|right; reflexivity].
Qed.

(** No binary64 value has an exponent below -1074. *)
Lemma valid_exponent (s : bool) (m : positive) (e : Z) :
  valid_binary (S754_finite s m e) = true -> -1074 <= e.
Proof.
  cbn [SpecFloat.valid_binary]. unfold bounded, canonical_mantissa.
  intros H. apply andb_true_iff in H as [H _]. apply Z.eqb_eq in H.
  unfold fexp, SpecFloat.emin, prec, emax in H. lia.
Qed.

(** The integer square root that [SFsqrt] rounds is at least [2^-537]. *)
Lemma sqrt_core_lower (m : positive) (e : Z) :
  -1074 <= e ->
  let '(q, e', l) := SFsqrt_core_binary prec emax (Z.pos m) e in
  atLeastPow (-537) q e'.
Proof.
  intros He. unfold SFsqrt_core_binary.
  set (e' := Z.min _ (Z.div2 e)).
  assert (2 * e' <= e) as He'.
  { assert (e' <= Z.div2 e) as H by apply Z.le_min_r.
    rewrite Z.div2_div in H. pose proof (Z.mul_div_le e 2). lia. }
  set (s := e - 2 * e') in *.
  assert (0 <= s) as Hs by (unfold s; lia).
  set (m' := match s with Z.pos _ => Z.shiftl (Z.pos m) s | 0 => Z.pos m | Z.neg _ => 0 end).
  assert (m' = Z.pos m * 2 ^ s) as Hm'.
  { unfold m'. destruct s as [|p|p]; [cbn; lia| |lia].
    rewrite Z.shiftl_mul_pow2 by lia. reflexivity. }
  assert (2 ^ s <= m') as Hlow.
  { rewrite Hm'. assert (0 < 2 ^ s) by (apply Z.pow_pos_nonneg; lia). nia. }
  assert (0 < m') as Hpos.
  { assert (0 < 2 ^ s) by (apply Z.pow_pos_nonneg; lia). lia. }
  pose proof (Z.sqrtrem_sqrt m') as Hq.
  destruct (Z.sqrtrem m') as [q r]. cbn [fst] in Hq. subst q.
  split.
  - apply Z.sqrt_pos. exact Hpos.
  - intros Hlt. set (k := -537 - e').
    assert (0 <= k) as Hk by (unfold k; lia).
    rewrite <- (Z.sqrt_square (2 ^ k)) by (apply Z.pow_nonneg; lia).
    apply Z.sqrt_le_mono. rewrite <- Z.pow_add_r by lia.
    transitivity (2 ^ s); [|exact Hlow].
    apply Z.pow_le_mono_r; [lia|]. unfold k, s. lia.
Qed.

(** A square root is zero, or away from zero by [2^-537]. *)
Lemma SFsqrt_lower (x : spec_float) :
  valid_binary x = true ->
  (exists s, SFsqrt prec emax x = S754_zero s)
  \/ awayFromZero (-537) (SFsqrt prec emax x).
Proof.
  intros Hvalid. destruct x as [s|[|]| |[|] m e]; cbn [SFsqrt awayFromZero]; eauto.
  right. apply valid_exponent in Hvalid.
  pose proof (sqrt_core_lower m e Hvalid) as Hcore.
  destruct (SFsqrt_core_binary prec emax (Z.pos m) e) as [[q e'] l].
  destruct (binary_round_aux_lower (-537) false q e' l) as [(m' & e'' & -> & H)| ->];
    [unfold SpecFloat.emin, prec, emax; lia|exact Hcore|exact H|exact I].
Qed.

(** The product of two values away from zero by [2^-537] is not zero. *)
Lemma SFmul_away (x y : spec_float) :
  awayFromZero (-537) x -> awayFromZero (-537) y ->
  awayFromZero (-1074) (SFmul prec emax x y).
Proof.
  destruct x as [sx|sx| |sx mx ex], y as [sy|sy| |sy my ey];
    cbn [awayFromZero SFmul]; try tauto.
  intros [_ Hx] [_ Hy].
  destruct (binary_round_aux_lower (-1074) (xorb sx sy) (Z.pos (mx * my)) (ex + ey)
              loc_Exact) as [(m' & e' & -> & H)| ->];
    [unfold SpecFloat.emin, prec, emax; lia| |exact H|exact I].
  split; [lia|]. intros Hlt. rewrite Pos2Z.inj_mul.
  destruct (Z_lt_le_dec ex (-537)) as [Hex|Hex], (Z_lt_le_dec ey (-537)) as [Hey|Hey].
  - specialize (Hx Hex). specialize (Hy Hey).
    replace (-1074 - (ex + ey)) with ((-537 - ex) + (-537 - ey)) by lia.
    rewrite Z.pow_add_r by lia.
    apply Z.mul_le_mono_nonneg; try assumption; apply Z.pow_nonneg; lia.
  - specialize (Hx Hex).
    assert (2 ^ (-1074 - (ex + ey)) <= 2 ^ (-537 - ex)) by (apply Z.pow_le_mono_r; lia).
    nia.
  - specialize (Hy Hey).
    assert (2 ^ (-1074 - (ex + ey)) <= 2 ^ (-537 - ey)) by (apply Z.pow_le_mono_r; lia).
    nia.
  - lia.
Qed.

(** A value away from zero does not compare equal to 0. *)
Lemma away_not_zero (j : Z) (x : float) :
  awayFromZero j (Prim2SF x) -> PrimFloat.eqb x 0 = false.
Proof.
  rewrite FloatAxioms.eqb_spec. change (Prim2SF 0) with (S754_zero false).
  destruct (Prim2SF x) as [s|[|]| |[|] m e]; cbn; tauto.
Qed.

Lemma not_zero_sqrt_away (x : float) :
  PrimFloat.eqb (PrimFloat.sqrt x) 0 = false ->
  awayFromZero (-537) (Prim2SF (PrimFloat.sqrt x)).
Proof.
  rewrite FloatAxioms.eqb_spec, sqrt_spec. change (Prim2SF 0) with (S754_zero false).
  destruct (SFsqrt_lower (Prim2SF x) (Prim2SF_valid x)) as [[s Hs]|H]; [|intros _; exact H].
  unfold SF64sqrt. rewrite Hs. cbn. discriminate.
Qed.

(** In binary64 the product of two square roots that are not zero is not
    zero. *)
Lemma float64_sqrt_product_not_zero (x y : float) :
  PrimFloat.eqb (PrimFloat.sqrt x) 0 = false ->
  PrimFloat.eqb (PrimFloat.sqrt y) 0 = false ->
  PrimFloat.eqb (PrimFloat.mul (PrimFloat.sqrt x) (PrimFloat.sqrt y)) 0 = false.
Proof.
  intros Hx Hy. apply (away_not_zero (-1074)). rewrite mul_spec.
  apply SFmul_away; apply not_zero_sqrt_away; assumption.
Qed.

(** A finite number is a zero or of the form [m * 2^e]. *)
Lemma is_finite_cases (c : float) :
  is_finite c = true ->
  (exists s, Prim2SF c = S754_zero s) \/ (exists s m e, Prim2SF c = S754_finite s m e).
Proof.
  unfold is_finite, is_nan, is_infinity. rewrite !FloatAxioms.eqb_spec, abs_spec.
  change (Prim2SF infinity) with (S754_infinity false).
  destruct (Prim2SF c) as [s|[|]| |s m e]; cbn; eauto; discriminate.
Qed.

(** A finite number minus itself is 0. *)
Lemma float64_sub_diag (c : float) : is_finite c = true -> PrimFloat.sub c c = 0%float.
Proof.
  intros Hc. apply Prim2SF_inj. rewrite sub_spec.
  change (Prim2SF 0) with (S754_zero false).
  destruct (is_finite_cases c Hc) as [[s ->]|(s & m & e & ->)].
  - destruct s; reflexivity.
  - unfold SF64sub, SFsub. rewrite Z.sub_diag. reflexivity.
Qed.

(** Aligning a mantissa on a smaller exponent keeps the value. *)
Lemma iter_xO (d m : positive) : Z.pos (Pos.iter xO m d) = Z.pos m * 2 ^ Z.pos d.
Proof.
  induction d as [|d IH] using Pos.peano_ind.
  - cbn. lia.
  - rewrite Pos.iter_succ, Pos2Z.pos_xO, IH, Pos2Z.inj_succ, Z.pow_succ_r by lia. lia.
Qed.

Lemma shl_align_value (m : positive) (e e' : Z) :
  snd (shl_align m e e') <= e
  /\ Z.pos (fst (shl_align m e e')) = Z.pos m * 2 ^ (e - snd (shl_align m e e')).
Proof.
  unfold shl_align. destruct (e' - e) as [|d|d] eqn:Ed; cbn [fst snd].
  - rewrite Z.sub_diag. cbn. lia.
  - rewrite Z.sub_diag. cbn. lia.
  - rewrite iter_xO. split; [lia|]. f_equal. f_equal. lia.
Qed.

(** Rounding from any exponent does not go below a power of 2 that the
    format holds. *)
Lemma binary_round_lower (j : Z) (s : bool) (m : positive) (e : Z) :
  emin <= j -> atLeastPow j (Z.pos m) e ->
  (exists m' e', binary_round prec emax s m e = S754_finite s m' e'
                 /\ atLeastPow j (Z.pos m') e')
  \/ binary_round prec emax s m e = S754_infinity s.
Proof.
  intros Hj [_ Hm]. unfold binary_round.
  pose proof (shl_align_value m e (fexp prec emax (Z.pos (digits2_pos m) + e)))
    as [Hle Hval].
  destruct (shl_align m e _) as [mz ez]. cbn [fst snd] in *.
  apply binary_round_aux_lower; [exact Hj|].
  split; [lia|]. intros Hlt. rewrite Hval.
  assert (0 < 2 ^ (e - ez)) by (apply Z.pow_pos_nonneg; lia).
  destruct (Z_lt_le_dec e j) as [He|He].
  - specialize (Hm He). replace (j - ez) with ((j - e) + (e - ez)) by lia.
    rewrite Z.pow_add_r by lia. nia.
  - assert (2 ^ (j - ez) <= 2 ^ (e - ez)) by (apply Z.pow_le_mono_r; lia). nia.
Qed.

(** The number of points of a series of 2 points or more is at least 2 as
    a binary64 number. *)
Lemma nlen_lower (n : nat) :
  (2 <= n)%nat -> Z.of_nat n < 2 ^ 63 ->
  (exists m e, Prim2SF (nlen n) = S754_finite false m e /\ atLeastPow 1 (Z.pos m) e)
  \/ Prim2SF (nlen n) = S754_infinity false.
Proof.
  intros Hn Hmax. cbn [nlen float64]. rewrite of_uint63_spec, Uint63.of_Z_spec.
  rewrite Z.mod_small by (change Uint63.wB with (2 ^ 63); lia).
  destruct (Z.of_nat n) as [|p|p] eqn:Ep; try lia.
  cbn [binary_normalize].
  apply binary_round_lower; [unfold SpecFloat.emin, prec, emax; lia|].
  split; [lia|]. intros _. cbn. lia.
Qed.

(** [n - 1] is then positive, finite or not. *)
Lemma nlen_minus_one (n : nat) :
  (2 <= n)%nat -> Z.of_nat n < 2 ^ 63 ->
  (exists m e, Prim2SF (nsub (nlen n) (nlen 1%nat)) = S754_finite false m e)
  \/ Prim2SF (nsub (nlen n) (nlen 1%nat)) = S754_infinity false.
Proof.
  intros Hn Hmax. cbn [nsub float64]. rewrite sub_spec.
  change (Prim2SF (nlen 1%nat)) with (S754_finite false 4503599627370496 (-52)).
  pose proof (Prim2SF_valid (nlen n)) as Hvalid.
  destruct (nlen_lower n Hn Hmax) as [(m & e & Hm & _ & Hlow)|Hinf];
    [|right; rewrite Hinf; reflexivity].
  rewrite Hm in *. apply valid_exponent in Hvalid.
  unfold SF64sub, SFsub. cbn [cond_Zopp].
  set (ez := Z.min e (-52)).
  pose proof (shl_align_value m e ez) as [Hle1 Hv1].
  pose proof (shl_align_value 4503599627370496 (-52) ez) as [Hle2 Hv2].
  assert (snd (shl_align m e ez) = ez) as Hs1.
  { unfold shl_align. destruct (ez - e) eqn:E; cbn [snd]; lia. }
  assert (snd (shl_align 4503599627370496 (-52) ez) = ez) as Hs2.
  { unfold shl_align. destruct (ez - -52) eqn:E; cbn [snd]; lia. }
  rewrite Hs1 in Hv1. rewrite Hs2 in Hv2. rewrite Hv1, Hv2.
  assert (Z.pos 4503599627370496 * 2 ^ (-52 - ez) = 2 ^ (- ez)) as ->.
  { change (Z.pos 4503599627370496) with (2 ^ 52). rewrite <- Z.pow_add_r by lia.
    f_equal. lia. }
  assert (2 ^ (- ez) < Z.pos m * 2 ^ (e - ez)) as Hgt.
  { assert (2 ^ (- ez) < 2 ^ (1 - ez)) by (apply Z.pow_lt_mono_r; lia).
    destruct (Z_lt_le_dec e 1) as [He|He].
    - specialize (Hlow He).
      assert (2 ^ (1 - ez) = 2 ^ (1 - e) * 2 ^ (e - ez)) as Hsplit
        by (rewrite <- Z.pow_add_r by lia; f_equal; lia).
      assert (0 < 2 ^ (e - ez)) by (apply Z.pow_pos_nonneg; lia). nia.
    - assert (2 ^ (1 - ez) <= 2 ^ (e - ez)) by (apply Z.pow_le_mono_r; lia). nia. }
  destruct (Z.pos m * 2 ^ (e - ez) - 2 ^ (- ez)) as [|d|d] eqn:Ed; try lia.
  cbn [binary_normalize].
  destruct (binary_round_lower (-1074) false d ez) as [(m' & e' & -> & _)| ->];
    [unfold SpecFloat.emin, prec, emax; lia|split; lia|eauto|eauto].
Qed.

Lemma fold_sum_sumFrom (values : list float) (acc : float) :
  fold_left (fun sum x => nadd sum x) values acc = sumFrom acc values.
Proof.
  revert acc. induction values as [|x rest IH]; intros acc; [reflexivity|apply IH].
Qed.

(** While every deviation of a series is 0, its sum of squares stays 0. *)
Lemma loop_zero_deviation1 (prices1 prices2 : list float) (mean1 mean2 : float)
    (indices : list nat) (cov s2 : float) :
  (forall i, In i indices -> deviation prices1 i mean1 = 0%float) ->
  snd (fst (fold_left (correlationStep prices1 prices2 mean1 mean2) indices
              (cov, 0%float, s2))) = 0%float.
Proof.
  revert cov s2. induction indices as [|i rest IH]; intros cov s2 Hz; [reflexivity|].
  cbn [fold_left]. unfold correlationStep at 2.
  rewrite (Hz i) by (left; reflexivity).
  apply IH. intros k Hk. apply Hz. right. exact Hk.
Qed.

Lemma loop_zero_deviation2 (prices1 prices2 : list float) (mean1 mean2 : float)
    (indices : list nat) (cov s1 : float) :
  (forall i, In i indices -> deviation prices2 i mean2 = 0%float) ->
  snd (fold_left (correlationStep prices1 prices2 mean1 mean2) indices
         (cov, s1, 0%float)) = 0%float.
Proof.
  revert cov s1. induction indices as [|i rest IH]; intros cov s1 Hz; [reflexivity|].
  cbn [fold_left]. unfold correlationStep at 2.
  rewrite (Hz i) by (left; reflexivity).
  apply IH. intros k Hk. apply Hz. right. exact Hk.
Qed.

(** About the value of a constant series of finite value no point deviates. *)
Lemma deviation_constant (c : float) (values : list float) (i : nat) :
  is_finite c = true -> Forall (fun x => x = c) values -> (i < length values)%nat ->
  deviation values i c = 0%float.
Proof.
  intros Hc Hall Hi. unfold deviation.
  destruct (lookup_lt_is_Some_2 values i Hi) as [x Hx]. rewrite Hx.
  rewrite Forall_forall in Hall.
  rewrite (Hall x) by (apply list_elem_of_lookup; eauto).
  apply float64_sub_diag, Hc.
Qed.

(** 0 divided by the number of points less one, and its square root, are 0. *)
Lemma zero_variance (n : nat) :
  (2 <= n)%nat -> Z.of_nat n < 2 ^ 63 ->
  nsqrt (ndiv 0%float (nsub (nlen n) (nlen 1%nat))) = 0%float.
Proof.
  intros Hn Hmax.
  assert (ndiv 0%float (nsub (nlen n) (nlen 1%nat)) = 0%float) as ->; [|reflexivity].
  apply Prim2SF_inj. cbn [ndiv float64]. rewrite div_spec.
  change (Prim2SF 0) with (S754_zero false).
  destruct (nlen_minus_one n Hn Hmax) as [(m & e & ->)| ->]; reflexivity.
Qed.

(** The deviation computed for a constant series of finite value whose
    computed mean is that value is 0, on either side. *)
Lemma constant_stdDev1_float64 (c : float) (prices1 prices2 : list float) :
  is_finite c = true -> Forall (fun x => x = c) prices1 ->
  (2 <= length prices1)%nat -> Z.of_nat (length prices1) < 2 ^ 63 ->
  arithmeticMean prices1 = c ->
  computedStdDev1 prices1 prices2 = 0%float.
Proof.
  intros Hc Hall Hn Hmax Hmean. unfold computedStdDev1, correlationMoments.
  rewrite !fold_sum_sumFrom. fold (arithmeticMean prices1). rewrite Hmean.
  pose proof (loop_zero_deviation1 prices1 prices2 c
                (ndiv (sumFrom nzero prices2) (nlen (length prices1)))
                (seq 0 (length prices1)) nzero nzero) as Hloop.
  destruct (fold_left _ _ _) as [[cov s1] s2]. cbn [fst snd] in *.
  rewrite Hloop.
  - apply zero_variance; assumption.
  - intros i Hi. apply in_seq in Hi. apply deviation_constant; [assumption..|lia].
Qed.

Lemma constant_stdDev2_float64 (c : float) (prices1 prices2 : list float) :
  is_finite c = true -> Forall (fun x => x = c) prices2 ->
  length prices1 = length prices2 ->
  (2 <= length prices2)%nat -> Z.of_nat (length prices2) < 2 ^ 63 ->
  arithmeticMean prices2 = c ->
  computedStdDev2 prices1 prices2 = 0%float.
Proof.
  intros Hc Hall Hlen Hn Hmax Hmean. unfold computedStdDev2, correlationMoments.
  rewrite !fold_sum_sumFrom. rewrite Hlen. fold (arithmeticMean prices2). rewrite Hmean.
  pose proof (loop_zero_deviation2 prices1 prices2
                (ndiv (sumFrom nzero prices1) (nlen (length prices2))) c
                (seq 0 (length prices2)) nzero nzero) as Hloop.
  destruct (fold_left _ _ _) as [[cov s1] s2]. cbn [fst snd] in *.
  rewrite Hloop.
  - apply zero_variance; assumption.
  - intros i Hi. apply in_seq in Hi. apply deviation_constant; [assumption..|lia].
Qed.

End Float64Rounding.

(** ** Rounding in binary64: one unit in the last place *)

Section Float64Faithful.

(** Powers of 2 with integer exponents. *)
Lemma bpow_pos (e : Z) : (0 < bpow e)%R.
Proof. apply powerRZ_lt. lra. Qed.

Lemma bpow_add (a b : Z) : bpow (a + b) = (bpow a * bpow b)%R.
Proof. apply powerRZ_add. lra. Qed.

Lemma bpow_IZR (k : Z) : 0 <= k -> IZR (2 ^ k) = bpow k.
Proof.
  intros Hk. unfold bpow. rewrite <- (Z2Nat.id k Hk) at 1 2.
  rewrite <- pow_IZR, <- pow_powerRZ. reflexivity.
Qed.

Lemma bpow_le (a b : Z) : a <= b -> (bpow a <= bpow b)%R.
Proof.
  intros Hab. replace b with (a + (b - a)) by lia. rewrite bpow_add.
  rewrite <- (bpow_IZR (b - a)) by lia.
  assert (1 <= 2 ^ (b - a)) as H by (pose proof (Z.pow_pos_nonneg 2 (b - a)); lia).
  apply IZR_le in H. pose proof (bpow_pos a). nra.
Qed.

(** The number of binary digits of a number between [2^(k-1)] and [2^k]. *)
Lemma digits_unique (m : positive) (k : Z) :
  2 ^ (k - 1) <= Z.pos m < 2 ^ k -> Z.pos (digits2_pos m) = k.
Proof.
  intros [Hlo Hhi]. pose proof (digits2_pos_bounds m) as [Hd1 Hd2].
  set (d := Z.pos (digits2_pos m)) in *.
  assert (0 <= k) as Hk.
  { destruct (Z_lt_le_dec k 0) as [Hneg|]; [|assumption].
    rewrite (Z.pow_neg_r 2 k Hneg) in Hhi. lia. }
  assert (2 ^ (k - 1) < 2 ^ d) as H1 by lia.
  assert (2 ^ (d - 1) < 2 ^ k) as H2 by lia.
  destruct (Z_lt_le_dec (k - 1) 0) as [Hk0|Hk0].
  - assert (k = 0) as -> by lia. cbn in Hhi. lia.
  - apply Z.pow_lt_mono_r_iff in H1; [|lia|unfold d; lia].
    apply Z.pow_lt_mono_r_iff in H2; [|lia|lia]. lia.
Qed.

Lemma round_nearest_even_cases (m : Z) (l : location) :
  round_nearest_even m l = m \/ round_nearest_even m l = m + 1.
Proof.
  destruct l as [|[]]; cbn; auto. destruct (Z.even m); auto.
Qed.

(** Rounding a number that has 53 bits or more, within the range of the
    normal numbers: the result is a normal number, one unit in the last
    place away from the number at most. *)
Lemma round_faithful (s : bool) (m : positive) (e d : Z) (l : location) (x : R) :
  Z.pos (digits2_pos m) = d -> 53 <= d -> -1074 <= d + e - 53 <= 970 ->
  (IZR (Z.pos m) * bpow e <= x < (IZR (Z.pos m) + 1) * bpow e)%R ->
  exists m' e',
    binary_round_aux prec emax s (Z.pos m) e l = S754_finite s m' e'
    /\ 2 ^ 52 <= Z.pos m' < 2 ^ 53
    /\ d + e - 53 <= e' <= d + e - 52
    /\ (Rabs (IZR (Z.pos m') * bpow e' - x) <= bpow (d + e - 53))%R.
Proof.
  intros Hd Hd53 Hrange [Hx1 Hx2].
  pose proof (digits2_pos_bounds m) as [Hm1 Hm2]. rewrite Hd in Hm1, Hm2.
  set (n := d - 53). set (e1 := d + e - 53) in *.
  assert (0 <= n) as Hn by (unfold n; lia).
  assert (0 < 2 ^ n) as Hpn by (apply Z.pow_pos_nonneg; lia).
  set (m1 := Z.pos m / 2 ^ n).
  assert (2 ^ 52 <= m1 < 2 ^ 53) as [Hm1lo Hm1hi].
  { unfold m1. split.
    - apply Z.div_le_lower_bound; [exact Hpn|].
      rewrite <- Z.pow_add_r by lia. replace (n + 52) with (d - 1) by (unfold n; lia).
      exact Hm1.
    - apply Z.div_lt_upper_bound; [exact Hpn|].
      rewrite <- Z.pow_add_r by lia. replace (n + 53) with d by (unfold n; lia).
      exact Hm2. }
  assert (2 ^ n * m1 <= Z.pos m < 2 ^ n * (m1 + 1)) as [Hfl1 Hfl2].
  { unfold m1. split; [apply Z.mul_div_le; exact Hpn|].
    apply Z.mul_succ_div_gt. exact Hpn. }
  assert (bpow e1 = IZR (2 ^ n) * bpow e)%R as He1.
  { rewrite bpow_IZR by exact Hn. rewrite <- bpow_add. f_equal. unfold e1, n. lia. }
  pose proof (bpow_pos e) as Hbe. pose proof (bpow_pos e1) as Hbe1.
  assert (IZR m1 * bpow e1 <= x < (IZR m1 + 1) * bpow e1)%R as [Hb1 Hb2].
  { rewrite He1. apply IZR_le in Hfl1.
    assert (Z.pos m + 1 <= 2 ^ n * (m1 + 1)) as Hfl3 by lia.
    apply IZR_le in Hfl3. clear Hfl2.
    rewrite mult_IZR in Hfl1, Hfl3. rewrite !plus_IZR in Hfl3.
    assert (0 < IZR (2 ^ n))%R as HA by (apply IZR_lt; exact Hpn).
    set (A := IZR (2 ^ n)) in *. set (B := bpow e) in *.
    set (M := IZR (Z.pos m)) in *. set (M1 := IZR m1) in *.
    assert (M1 * (A * B) = A * M1 * B)%R as -> by ring.
    assert ((M1 + 1) * (A * B) = A * (M1 + 1) * B)%R as -> by ring.
    split.
    - apply Rle_trans with (M * B)%R; [|exact Hx1].
      apply Rmult_le_compat_r; lra.
    - apply Rlt_le_trans with ((M + 1) * B)%R; [exact Hx2|].
      apply Rmult_le_compat_r; lra. }
  (* first shift *)
  unfold binary_round_aux.
  assert (fexp prec emax (Zdigits2 (Z.pos m) + e) - e = n) as Hsh1.
  { cbn [Zdigits2]. rewrite Hd. unfold fexp, SpecFloat.emin, prec, emax, n. lia. }
  pose proof (shr_value (shr_record_of_loc (Z.pos m) l) e n) as [Hv1 Hs1];
    [rewrite shr_record_of_loc_m; lia|].
  rewrite shr_record_of_loc_m, Z.max_r in Hv1 by lia. rewrite Z.max_r in Hs1 by lia.
  unfold shr_fexp at 1. rewrite Hsh1.
  destruct (shr (shr_record_of_loc (Z.pos m) l) e n) as [r1 e1'].
  cbn [fst snd] in Hv1, Hs1. fold m1 in Hv1.
  replace (e + n) with e1 in Hs1 by (unfold e1, n; lia). subst e1'.
  rewrite Hv1.
  set (m2 := round_nearest_even m1 (loc_of_shr_record r1)).
  assert (m2 = m1 \/ m2 = m1 + 1) as Hcase by apply round_nearest_even_cases.
  assert (Rabs (IZR m2 * bpow e1 - x) <= bpow e1)%R as Herr.
  { apply Rabs_le. destruct Hcase as [-> | ->]; [|rewrite plus_IZR]; split; lra. }
  (* second shift *)
  destruct (Z_lt_le_dec m2 (2 ^ 53)) as [Hsmall|Hbig].
  - assert (exists p2, m2 = Z.pos p2) as [p2 Hp2]
      by (destruct m2 as [|p2|p2]; [lia|eauto|lia]).
    assert (Z.pos (digits2_pos p2) = 53) as Hd2
      by (apply digits_unique; change (53 - 1) with 52; lia).
    assert (fexp prec emax (Zdigits2 m2 + e1) - e1 = 0) as Hsh2.
    { rewrite Hp2. cbn [Zdigits2]. rewrite Hd2.
      unfold fexp, SpecFloat.emin, prec, emax. lia. }
    unfold shr_fexp. rewrite Hsh2. cbn [shr shr_record_of_loc shr_m].
    rewrite Hp2.
    assert ((e1 <=? emax - prec) = true) as ->
      by (apply Z.leb_le; unfold emax, prec; lia).
    exists p2, e1. rewrite <- Hp2. repeat split; try lia. exact Herr.
  - assert (m2 = 2 ^ 53) as Hm2eq by lia.
    assert (fexp prec emax (Zdigits2 m2 + e1) - e1 = 1) as Hsh2.
    { rewrite Hm2eq. change (Zdigits2 (2 ^ 53)) with 54.
      unfold fexp, SpecFloat.emin, prec, emax. lia. }
    unfold shr_fexp. rewrite Hsh2, Hm2eq.
    cbn [shr shr_record_of_loc].
    change (shr_m (SpecFloat.iter_pos shr_1 1 {| shr_m := 2 ^ 53; shr_r := false; shr_s := false |}))
      with (Z.pos 4503599627370496).
    assert ((e1 + 1 <=? emax - prec) = true) as ->
      by (apply Z.leb_le; unfold emax, prec; lia).
    exists 4503599627370496%positive, (e1 + 1). repeat split; try lia.
    replace (IZR (Z.pos 4503599627370496) * bpow (e1 + 1))%R
      with (IZR m2 * bpow e1)%R; [exact Herr|].
    rewrite Hm2eq, bpow_add.
    assert (bpow 1 = 2)%R as -> by (unfold bpow; simpl; lra).
    change (2 ^ 53) with 9007199254740992. lra.
Qed.

(** The exponent of the format for a number of magnitude [2^k]. *)
Lemma fexp_eq (k : Z) : fexp prec emax k = Z.max (k - 53) (-1074).
Proof. reflexivity. Qed.

(** The same, as a relative error: one unit in the last place is at most
    2^-52 of the number. *)
Lemma round_relative (s : bool) (m : positive) (e d : Z) (l : location) (x : R) :
  Z.pos (digits2_pos m) = d -> 53 <= d -> -1074 <= d + e - 53 <= 970 ->
  (IZR (Z.pos m) * bpow e <= x < (IZR (Z.pos m) + 1) * bpow e)%R ->
  exists m' e',
    binary_round_aux prec emax s (Z.pos m) e l = S754_finite s m' e'
    /\ 2 ^ 52 <= Z.pos m' < 2 ^ 53
    /\ d + e - 53 <= e' <= d + e - 52
    /\ (Rabs (IZR (Z.pos m') * bpow e' - x) <= bpow (-52) * x)%R.
Proof.
  intros Hd Hd53 Hrange Hx.
  destruct (round_faithful s m e d l x Hd Hd53 Hrange Hx)
    as (m' & e' & Heq & Hm' & He' & Herr).
  exists m', e'. repeat split; try assumption; try lia.
  eapply Rle_trans; [exact Herr|].
  pose proof (digits2_pos_bounds m) as [Hlo _]. rewrite Hd in Hlo.
  apply IZR_le in Hlo. rewrite bpow_IZR in Hlo by lia.
  replace (d + e - 53) with (-52 + ((d - 1) + e)) by lia.
  rewrite bpow_add. apply Rmult_le_compat_l; [left; apply bpow_pos|].
  eapply Rle_trans; [|exact (proj1 Hx)].
  rewrite bpow_add. apply Rmult_le_compat_r; [left; apply bpow_pos|exact Hlo].
Qed.

(** The square root of a normal number between 2^-1000 and 2^1000 is a
    normal number, within one unit in the last place of the exact root. *)
Lemma sqrt_faithful (m : positive) (e : Z) :
  2 ^ 52 <= Z.pos m < 2 ^ 53 -> -1052 <= e <= 948 ->
  exists m' e',
    SFsqrt prec emax (S754_finite false m e) = S754_finite false m' e'
    /\ 2 ^ 52 <= Z.pos m' < 2 ^ 53
    /\ e / 2 - 26 <= e' <= e / 2 - 25
    /\ (Rabs (IZR (Z.pos m') * bpow e' - sqrt (IZR (Z.pos m) * bpow e))
        <= bpow (-52) * sqrt (IZR (Z.pos m) * bpow e))%R.
Proof.
  intros Hm He. cbn [SFsqrt]. unfold SFsqrt_core_binary.
  assert (Z.pos (digits2_pos m) = 53) as Hd
    by (apply digits_unique; change (53 - 1) with 52; exact Hm).
  cbn [Zdigits2]. rewrite Hd.
  set (e' := Z.min (fexp prec emax (Z.div2 (53 + e + 1))) (Z.div2 e)).
  assert (e' = e / 2 - 26) as He'.
  { unfold e'. rewrite fexp_eq, !Z.div2_div. Z.div_mod_to_equations. lia. }
  set (s := e - 2 * e').
  assert (52 <= s <= 53) as Hs by (unfold s; Z.div_mod_to_equations; lia).
  set (m1 := match s with Z.pos _ => Z.shiftl (Z.pos m) s | 0 => Z.pos m | Z.neg _ => 0 end).
  assert (m1 = Z.pos m * 2 ^ s) as Hm1.
  { unfold m1. destruct s as [|p|p]; try lia. apply Z.shiftl_mul_pow2. lia. }
  assert (2 ^ 52 <= 2 ^ s <= 2 ^ 53) as Hps
    by (split; apply Z.pow_le_mono_r; lia).
  assert (2 ^ 52 * 2 ^ 52 <= m1 < 2 ^ 53 * 2 ^ 53) as Hm1b by (rewrite Hm1; nia).
  pose proof (Z.sqrtrem_spec m1) as Hspec.
  destruct (Z.sqrtrem m1) as [q r]. destruct Hspec as [Hq Hr]; [lia|].
  assert (2 ^ 52 <= q < 2 ^ 53) as Hqb by nia.
  destruct q as [|pq|pq]; try lia.
  assert (Z.pos (digits2_pos pq) = 53) as Hdq
    by (apply digits_unique; change (53 - 1) with 52; exact Hqb).
  set (x := sqrt (IZR (Z.pos m) * bpow e)).
  assert (IZR (Z.pos m) * bpow e = IZR m1 * (bpow e' * bpow e'))%R as Hval.
  { rewrite Hm1, mult_IZR, bpow_IZR by lia. rewrite <- !bpow_add, Rmult_assoc, <- bpow_add.
    f_equal. f_equal. unfold s. lia. }
  assert (x = sqrt (IZR m1) * bpow e')%R as Hx.
  { unfold x. rewrite Hval. pose proof (bpow_pos e').
    rewrite sqrt_mult by (try apply IZR_le; try nra; lia).
    rewrite sqrt_square by lra. reflexivity. }
  assert (IZR (Z.pos pq) <= sqrt (IZR m1) < IZR (Z.pos pq) + 1)%R as Hbr.
  { assert (0 <= IZR (Z.pos pq))%R as Hq0 by (apply IZR_le; lia).
    split.
    - rewrite <- (sqrt_square (IZR (Z.pos pq))) at 1 by exact Hq0.
      apply sqrt_le_1_alt. rewrite <- mult_IZR. apply IZR_le. lia.
    - rewrite <- (sqrt_square (IZR (Z.pos pq) + 1)) by lra.
      apply sqrt_lt_1_alt. split; [apply IZR_le; lia|].
      rewrite <- plus_IZR, <- mult_IZR. apply IZR_lt. nia. }
  destruct (round_relative false pq e' 53
              (if (r =? 0) then loc_Exact
               else loc_Inexact (if (r <=? Z.pos pq) then Lt else Gt)) x Hdq)
    as (m' & e'' & Heq & Hm' & He'' & Herr); try lia.
  { rewrite Hx. pose proof (bpow_pos e'). split.
    - apply Rmult_le_compat_r; lra.
    - apply Rmult_lt_compat_r; lra. }
  exists m', e''. rewrite Heq. repeat split; try lia. exact Herr.
Qed.

(** The product of two normal numbers, when it neither underflows nor
    overflows, is a normal number within one unit in the last place of the
    exact product. *)
Lemma mul_faithful (s1 s2 : bool) (m1 m2 : positive) (e1 e2 : Z) :
  2 ^ 52 <= Z.pos m1 < 2 ^ 53 -> 2 ^ 52 <= Z.pos m2 < 2 ^ 53 ->
  -1126 <= e1 + e2 <= 917 ->
  exists m' e',
    SFmul prec emax (S754_finite s1 m1 e1) (S754_finite s2 m2 e2)
    = S754_finite (xorb s1 s2) m' e'
    /\ 2 ^ 52 <= Z.pos m' < 2 ^ 53
    /\ e1 + e2 + 52 <= e' <= e1 + e2 + 54
    /\ (Rabs (IZR (Z.pos m') * bpow e'
              - (IZR (Z.pos m1) * bpow e1) * (IZR (Z.pos m2) * bpow e2))
        <= bpow (-52) * ((IZR (Z.pos m1) * bpow e1) * (IZR (Z.pos m2) * bpow e2)))%R.
Proof.
  intros Hm1 Hm2 He. cbn [SFmul].
  assert (2 ^ 104 <= Z.pos (m1 * m2) < 2 ^ 106) as Hm.
  { rewrite Pos2Z.inj_mul.
    change (2 ^ 104) with (2 ^ 52 * 2 ^ 52). change (2 ^ 106) with (2 ^ 53 * 2 ^ 53).
    nia. }
  set (d := Z.pos (digits2_pos (m1 * m2))).
  assert (d = 105 \/ d = 106) as Hd.
  { destruct (Z_lt_le_dec (Z.pos (m1 * m2)) (2 ^ 105)) as [Hlt|Hge].
    - left. apply digits_unique. change (105 - 1) with 104. lia.
    - right. apply digits_unique. change (106 - 1) with 105. lia. }
  set (x := ((IZR (Z.pos m1) * bpow e1) * (IZR (Z.pos m2) * bpow e2))%R).
  assert (x = IZR (Z.pos (m1 * m2)) * bpow (e1 + e2))%R as Hx.
  { unfold x. rewrite Pos2Z.inj_mul, mult_IZR, bpow_add. ring. }
  destruct (round_relative (xorb s1 s2) (m1 * m2) (e1 + e2) d loc_Exact x eq_refl)
    as (m' & e' & Heq & Hm' & He' & Herr); try lia.
  { rewrite Hx. pose proof (bpow_pos (e1 + e2)). split; [lra|nra]. }
  exists m', e'. repeat split; try assumption; lia.
Qed.

(** The quotient of two normal numbers whose exponents are less than 900
    apart is a normal number within one unit in the last place of the exact
    quotient. *)
Lemma div_faithful (m1 m2 : positive) (e1 e2 : Z) :
  2 ^ 52 <= Z.pos m1 < 2 ^ 53 -> 2 ^ 52 <= Z.pos m2 < 2 ^ 53 ->
  -900 <= e1 - e2 <= 900 ->
  exists m' e',
    SFdiv prec emax (S754_finite false m1 e1) (S754_finite false m2 e2)
    = S754_finite false m' e'
    /\ 2 ^ 52 <= Z.pos m' < 2 ^ 53
    /\ (Rabs (IZR (Z.pos m') * bpow e'
              - (IZR (Z.pos m1) * bpow e1) / (IZR (Z.pos m2) * bpow e2))
        <= bpow (-52) * ((IZR (Z.pos m1) * bpow e1) / (IZR (Z.pos m2) * bpow e2)))%R.
Proof.
  intros Hm1 Hm2 He. cbn [SFdiv xorb]. unfold SFdiv_core_binary.
  assert (Z.pos (digits2_pos m1) = 53) as Hd1
    by (apply digits_unique; change (53 - 1) with 52; exact Hm1).
  assert (Z.pos (digits2_pos m2) = 53) as Hd2
    by (apply digits_unique; change (53 - 1) with 52; exact Hm2).
  cbn [Zdigits2]. rewrite Hd1, Hd2.
  set (e' := Z.min (fexp prec emax (53 + e1 - (53 + e2))) (e1 - e2)).
  assert (e' = e1 - e2 - 53) as He' by (unfold e'; rewrite fexp_eq; lia).
  set (s := e1 - e2 - e').
  assert (s = 53) as Hs by (unfold s; lia).
  set (n := match s with Z.pos _ => Z.shiftl (Z.pos m1) s | 0 => Z.pos m1 | Z.neg _ => 0 end).
  assert (n = Z.pos m1 * 2 ^ 53) as Hn.
  { unfold n. rewrite Hs. apply Z.shiftl_mul_pow2. lia. }
  pose proof (Z_div_mod n (Z.pos m2) eq_refl) as Hdiv.
  destruct (Z.div_eucl n (Z.pos m2)) as [q r]. destruct Hdiv as [Hq Hr].
  assert (2 ^ 52 <= q < 2 ^ 54) as Hqb.
  { change (2 ^ 54) with (2 * 2 ^ 53). change (2 ^ 53) with (2 * 2 ^ 52) in *.
    set (P := 2 ^ 52) in *. assert (0 < P) by (unfold P; lia). nia. }
  destruct q as [|pq|pq]; try lia.
  set (d := Z.pos (digits2_pos pq)).
  assert (d = 53 \/ d = 54) as Hd.
  { destruct (Z_lt_le_dec (Z.pos pq) (2 ^ 53)) as [Hlt|Hge].
    - left. apply digits_unique. change (53 - 1) with 52. lia.
    - right. apply digits_unique. change (54 - 1) with 53. lia. }
  set (x := ((IZR (Z.pos m1) * bpow e1) / (IZR (Z.pos m2) * bpow e2))%R).
  assert (0 < IZR (Z.pos m2))%R as Hm2pos by (apply IZR_lt; lia).
  assert (x = IZR n / IZR (Z.pos m2) * bpow e')%R as Hx.
  { unfold x. rewrite Hn, mult_IZR, bpow_IZR by lia.
    replace e1 with (53 + e' + e2) by lia. rewrite !bpow_add.
    pose proof (bpow_pos e2). field. split; lra. }
  assert (IZR (Z.pos pq) <= IZR n / IZR (Z.pos m2) < IZR (Z.pos pq) + 1)%R as Hbr.
  { rewrite Hq, plus_IZR, mult_IZR.
    destruct Hr as [Hr1 Hr2]. apply IZR_le in Hr1. apply IZR_lt in Hr2.
    set (M := IZR (Z.pos m2)) in *. set (Q := IZR (Z.pos pq)). set (Rr := IZR r) in *.
    replace ((M * Q + Rr) / M)%R with (Q + Rr / M)%R by (field; lra).
    assert (0 <= Rr / M < 1)%R as [H0 H1].
    { split.
      - apply Rmult_le_pos; [exact Hr1|left; apply Rinv_0_lt_compat; exact Hm2pos].
      - apply (Rmult_lt_reg_r M); [exact Hm2pos|].
        unfold Rdiv. rewrite Rmult_assoc, Rinv_l by lra. lra. }
    lra. }
  destruct (round_relative false pq e' d
              (new_location (Z.pos m2) r) x eq_refl)
    as (m' & e'' & Heq & Hm' & He'' & Herr); try lia.
  { rewrite Hx. pose proof (bpow_pos e'). split.
    - apply Rmult_le_compat_r; lra.
    - apply Rmult_lt_compat_r; lra. }
  exists m', e''. repeat split; try assumption; lia.
Qed.

(** An absolute value below [b] encloses the number between [-b] and [b]. *)
Lemma Rabs_bounds (a b : R) : (Rabs a <= b -> - b <= a <= b)%R.
Proof. unfold Rabs. destruct (Rcase_abs a); lra. Qed.

(** Three roundings of relative error [u] each leave the quotient of a
    number by the square of its root within [8 u] of 1. *)
Lemma quotient_near_one (u V X S P Q : R) :
  (0 < u <= / 1000 -> 0 < X -> X * X = V ->
   Rabs (S - X) <= u * X -> Rabs (P - S * S) <= u * (S * S) ->
   Rabs (Q - V / P) <= u * (V / P) ->
   Rabs (Q - 1) <= 8 * u)%R.
Proof.
  intros [Hu0 Hu1] HX HV HS HP HQ.
  assert (u <= 1 / 1000)%R as Hu by lra. clear Hu1.
  apply Rabs_bounds in HS, HP, HQ.
  assert (0 < S)%R as HSpos by nra.
  assert ((1 - u) * (1 - u) * V <= S * S <= (1 + u) * (1 + u) * V)%R as [HS1 HS2].
  { subst V. assert (0 <= (1 - u) * X)%R as Ha by nra. split.
    - replace ((1 - u) * (1 - u) * (X * X))%R
        with (((1 - u) * X) * ((1 - u) * X))%R by ring.
      apply Rmult_le_compat; lra.
    - replace ((1 + u) * (1 + u) * (X * X))%R
        with (((1 + u) * X) * ((1 + u) * X))%R by ring.
      apply Rmult_le_compat; lra. }
  assert (0 < V)%R as HVpos by nra.
  assert (0 < S * S)%R as HSS by nra.
  assert (1 - 3 * u <= (1 - u) * ((1 - u) * (1 - u)))%R as Hlow.
  { assert (0 <= u * u * (3 - u))%R by (apply Rmult_le_pos; nra). nra. }
  assert ((1 + u) * ((1 + u) * (1 + u)) <= 1 + 4 * u)%R as Hhigh.
  { assert (u * (3 * u + u * u) <= u * 1)%R by (apply Rmult_le_compat_l; nra). nra. }
  assert ((1 - 3 * u) * V <= P <= (1 + 4 * u) * V)%R as [HP1 HP2].
  { split.
    - apply Rle_trans with ((1 - u) * (S * S))%R; [|lra].
      apply Rle_trans with ((1 - u) * ((1 - u) * (1 - u) * V))%R;
        [|apply Rmult_le_compat_l; lra].
      replace ((1 - u) * ((1 - u) * (1 - u) * V))%R
        with ((1 - u) * ((1 - u) * (1 - u)) * V)%R by ring.
      apply Rmult_le_compat_r; lra.
    - apply Rle_trans with ((1 + u) * (S * S))%R; [lra|].
      apply Rle_trans with ((1 + u) * ((1 + u) * (1 + u) * V))%R;
        [apply Rmult_le_compat_l; lra|].
      replace ((1 + u) * ((1 + u) * (1 + u) * V))%R
        with ((1 + u) * ((1 + u) * (1 + u)) * V)%R by ring.
      apply Rmult_le_compat_r; lra. }
  assert (0 < P)%R as HPpos by nra.
  set (T := (V / P)%R) in *.
  assert (T * P = V)%R as HT by (unfold T; field; lra).
  assert (0 < T)%R as HTpos by (unfold T; apply Rdiv_lt_0_compat; assumption).
  assert (T * (1 - 3 * u) <= 1 /\ 1 <= T * (1 + 4 * u))%R as [HT1 HT2].
  { split.
    - apply (Rmult_le_reg_r V); [exact HVpos|]. nra.
    - apply (Rmult_le_reg_r V); [exact HVpos|]. nra. }
  apply Rabs_le. split.
  - assert ((1 - u) <= Q * (1 + 4 * u))%R by nra. nra.
  - assert (Q * (1 - 3 * u) <= 1 + u)%R by nra. nra.
Qed.

(** A number between 2^-1000 and 2^1000 is a normal number. *)
Lemma normal_range (v : float) :
  PrimFloat.leb 0x1p-1000%float v = true -> PrimFloat.ltb v 0x1p1000%float = true ->
  exists m e, Prim2SF v = S754_finite false m e
              /\ 2 ^ 52 <= Z.pos m < 2 ^ 53 /\ -1052 <= e <= 948.
Proof.
  rewrite FloatAxioms.leb_spec, FloatAxioms.ltb_spec.
  assert (Prim2SF 0x1p-1000%float = S754_finite false 4503599627370496 (-1052)) as ->
    by (vm_compute; reflexivity).
  assert (Prim2SF 0x1p1000%float = S754_finite false 4503599627370496 948) as ->
    by (vm_compute; reflexivity).
  pose proof (Prim2SF_valid v) as Hvalid.
  unfold SFleb, SFltb, SFcompare.
  destruct (Prim2SF v) as [s|s| |s m e]; try discriminate.
  - destruct s; discriminate.
  - destruct s; [discriminate|].
    intros Hlo Hhi.
    assert (-1052 <= e <= 948) as He.
    { destruct (Z.compare_spec (-1052) e), (Z.compare_spec e 948);
        try discriminate; lia. }
    exists m, e. split; [reflexivity|]. split; [|exact He].
    cbn [SpecFloat.valid_binary] in Hvalid. unfold bounded, canonical_mantissa in Hvalid.
    apply andb_true_iff in Hvalid as [Hc _]. apply Z.eqb_eq in Hc.
    rewrite fexp_eq in Hc.
    pose proof (digits2_pos_bounds m) as Hd.
    assert (Z.pos (digits2_pos m) = 53) as Hd53 by lia.
    rewrite Hd53 in Hd. change (53 - 1) with 52 in Hd. exact Hd.
Qed.

(** In binary64 the quotient of a normal number between 2^-1000 and 2^1000
    by the square of its root is within 2^-49 of 1. *)
Lemma self_quotient_float64 (v : float) :
  PrimFloat.leb 0x1p-1000%float v = true -> PrimFloat.ltb v 0x1p1000%float = true ->
  PrimFloat.eqb (PrimFloat.sqrt v) 0 = false
  /\ (Rabs (float64Value
              (PrimFloat.div v (PrimFloat.mul (PrimFloat.sqrt v) (PrimFloat.sqrt v)))
            - 1) <= bpow (-49))%R.
Proof.
  intros Hlo Hhi.
  destruct (normal_range v Hlo Hhi) as (mv & ev & Hv & Hmv & Hev).
  destruct (sqrt_faithful mv ev Hmv Hev) as (ms & es & Hs & Hms & Hes & HerrS).
  assert (Prim2SF (PrimFloat.sqrt v) = S754_finite false ms es) as Hsd
    by (rewrite sqrt_spec, Hv; exact Hs).
  destruct (mul_faithful false false ms ms es es Hms Hms) as (mp & ep & Hp & Hmp & Hep & HerrP);
    [Z.div_mod_to_equations; lia|].
  assert (Prim2SF (PrimFloat.mul (PrimFloat.sqrt v) (PrimFloat.sqrt v))
          = S754_finite false mp ep) as Hprod
    by (rewrite mul_spec, Hsd; exact Hp).
  destruct (div_faithful mv mp ev ep Hmv Hmp) as (mr & er & Hr & Hmr & HerrQ);
    [Z.div_mod_to_equations; lia|].
  split.
  - rewrite FloatAxioms.eqb_spec, Hsd. reflexivity.
  - unfold float64Value. rewrite div_spec, Hv, Hprod. unfold SF64div. rewrite Hr.
    cbn [realOf].
    set (V := (IZR (Z.pos mv) * bpow ev)%R) in *.
    set (S := (IZR (Z.pos ms) * bpow es)%R) in *.
    set (P := (IZR (Z.pos mp) * bpow ep)%R) in *.
    set (Q := (IZR (Z.pos mr) * bpow er)%R) in *.
    assert (0 < V)%R as HV.
    { unfold V. apply Rmult_lt_0_compat; [apply IZR_lt; lia|apply bpow_pos]. }
    replace (bpow (-49)) with (8 * bpow (-52))%R.
    + apply (quotient_near_one (bpow (-52)) V (sqrt V) S P Q).
      * split; [apply bpow_pos|].
        apply Rle_trans with (bpow (-10)); [apply bpow_le; lia|].
        unfold bpow. simpl. lra.
      * apply sqrt_lt_R0. exact HV.
      * apply sqrt_sqrt. lra.
      * exact HerrS.
      * exact HerrP.
      * exact HerrQ.
    + change (-49) with (3 + -52). rewrite bpow_add. f_equal.
      unfold bpow. simpl. lra.
Qed.

End Float64Faithful.

(** ** The claims on the statistics *)

Section StatisticsClaims.

Lemma calculateCorrelation_short_witness :
  (length [5%float] < 2)%nat
  /\ calculateCorrelation [5%float] [1%float; 2%float; 4%float] = 0%float.
Proof.
  split; [simpl; lia|].
  refine (calculateCorrelation_short [5%float] [1%float; 2%float; 4%float] _).
  left. simpl. lia.
Defined.

(** [averagePrice([{price:10},{price:20}])] is 15 in binary64. *)
Example calculateAveragePrice_10_20 :
  calculateAveragePrice
    (Some [ {| price := 10%float; lastUpdatedAt := Some 0 |};
            {| price := 20%float; lastUpdatedAt := Some 60000 |} ]) = 15%float.
Proof. reflexivity. Qed.

(** In exact arithmetic the mean does not depend on the order of summation. *)
Lemma arithmeticMean_exact (values : list R) :
  arithmeticMean values = (fold_right Rplus 0 values / INR (length values))%R.
Proof.
  unfold arithmeticMean. rewrite sumFrom_exact. simpl.
  rewrite Rplus_0_l. reflexivity.
Qed.

(** Each computed deviation is a square root. *)
Lemma computedStdDev_sqrt {num : Type} {N : JSNumber num} (prices1 prices2 : list num) :
  exists x y, computedStdDev1 prices1 prices2 = nsqrt x
              /\ computedStdDev2 prices1 prices2 = nsqrt y.
Proof.
  unfold computedStdDev1, computedStdDev2, correlationMoments.
  destruct (fold_left _ _ _) as [[cov s1] s2]. cbn [fst snd]. eauto.
Qed.

(** C7, as amended. For two series of equal length with at least 2 points:
    if the standard deviation computed for either of them compares equal to
    0, [calculateCorrelation] returns 0 by the guard of line 118, without
    dividing. In binary64 the division of line 119 is never performed with
    a divisor that is 0: the product of two square roots that are not 0 is
    not 0. And in binary64 the deviation computed for a constant series of
    finite value is 0 whenever the mean computed for it is that value, so
    that the function returns 0 for such a series on either side. *)
Theorem calculateCorrelation_zero_stdDev :
  (forall (num : Type) (N : JSNumber num) (prices1 prices2 : list num),
      length prices1 = length prices2 -> (2 <= length prices1)%nat ->
      nis0 (computedStdDev1 prices1 prices2) = true
      \/ nis0 (computedStdDev2 prices1 prices2) = true ->
      correlationExit prices1 prices2 = ZeroStdDev
      /\ calculateCorrelation prices1 prices2 = nzero)
  /\ (forall (prices1 prices2 : list float) (cov divisor : float),
      correlationExit prices1 prices2 = Quotient cov divisor ->
      divisor = PrimFloat.mul (computedStdDev1 prices1 prices2)
                              (computedStdDev2 prices1 prices2)
      /\ PrimFloat.eqb divisor 0%float = false)
  /\ (forall (c : float) (series other : list float),
      is_finite c = true -> Forall (fun x => x = c) series ->
      length other = length series -> (2 <= length series)%nat ->
      Z.of_nat (length series) < 2 ^ 63 ->
      arithmeticMean series = c ->
      calculateCorrelation series other = 0%float
      /\ calculateCorrelation other series = 0%float).
Proof.
  split; [|split].
  - intros num N prices1 prices2 Hlen Hn Hz.
    apply zero_stdDev_guard; [exact Hn|lia|exact Hz].
  - intros prices1 prices2 cov divisor Hexit.
    apply quotient_divisor in Hexit as (-> & H1 & H2).
    split; [reflexivity|].
    destruct (computedStdDev_sqrt prices1 prices2) as (x & y & Hx & Hy).
    rewrite Hx, Hy in *.
    apply (float64_sqrt_product_not_zero x y H1 H2).
  - intros c series other Hc Hall Hlen Hn Hmax Hmean.
    assert (2 <= length other)%nat as Hn' by lia.
    split.
    + refine (proj2 (zero_stdDev_guard series other Hn Hn' _)). left.
      rewrite (constant_stdDev1_float64 c series other Hc Hall Hn Hmax Hmean).
      reflexivity.
    + refine (proj2 (zero_stdDev_guard other series Hn' Hn _)). right.
      rewrite (constant_stdDev2_float64 c other series Hc Hall Hlen Hn Hmax Hmean).
      reflexivity.
Qed.

(** The series [5,5,5] is such a constant series: its mean is computed as
    5. *)
Example mean_5_5_5 :
  arithmeticMean [5%float; 5%float; 5%float] = 5%float.
Proof. reflexivity. Qed.

(** In binary64 the constant series [5,5,5] has an exact mean, and the
    guard returns 0 against any series. *)
Example calculateCorrelation_5_5_5 :
  calculateCorrelation [5%float; 5%float; 5%float] [1%float; 2%float; 4%float]
  = 0%float.
Proof. reflexivity. Qed.

(** In binary64 the sum 0.1 + 0.1 + 0.1 is 0.30000000000000004 and the mean
    0.10000000000000002, one unit in the last place above 0.1 (the float
    0x1.999999999999ap-4): every deviation is -2^-56 and the standard
    deviation computed for this constant series is not 0. *)
Example tenths_moments :
  arithmeticMean [0x1.999999999999ap-4%float; 0x1.999999999999ap-4%float;
                  0x1.999999999999ap-4%float] = 0x1.999999999999bp-4%float
  /\ correlationMoments
       [0x1.999999999999ap-4%float; 0x1.999999999999ap-4%float;
        0x1.999999999999ap-4%float]
       [0x1.999999999999ap-4%float; 0x1.999999999999ap-4%float;
        0x1.999999999999ap-4%float]
     = (0x1.8p-112%float, 0x1.3988e1409212ep-56%float, 0x1.3988e1409212ep-56%float).
Proof. split; reflexivity. Qed.

(** C7, counterexample. In binary64 the mean computed for the constant
    series [0.1, 0.1, 0.1] (each point the float 0x1.999999999999ap-4) is
    rounded to 0.10000000000000002: the computed deviations are not 0, the
    guard does not fire and the function returns 1.0000000000000002 for the
    series against itself. *)
Lemma constant_series_float64_counterexample :
  constantSeries [0x1.999999999999ap-4%float; 0x1.999999999999ap-4%float;
                  0x1.999999999999ap-4%float]
  /\ calculateCorrelation
       [0x1.999999999999ap-4%float; 0x1.999999999999ap-4%float;
        0x1.999999999999ap-4%float]
       [0x1.999999999999ap-4%float; 0x1.999999999999ap-4%float;
        0x1.999999999999ap-4%float]
     = 0x1.0000000000001p+0%float
  /\ calculateCorrelation
       [0x1.999999999999ap-4%float; 0x1.999999999999ap-4%float;
        0x1.999999999999ap-4%float]
       [0x1.999999999999ap-4%float; 0x1.999999999999ap-4%float;
        0x1.999999999999ap-4%float]
     <> 0%float.
Proof.
  split; [|split].
  - exists 0x1.999999999999ap-4%float. repeat constructor.
  - vm_compute. reflexivity.
  - intros H. apply (f_equal (fun x => PrimFloat.eqb x 0%float)) in H.
    vm_compute in H. discriminate H.
Qed.

(** Set against itself, a series has one sum of squares: the three
    accumulators of the loop stay equal. *)
Lemma self_loop {num : Type} {N : JSNumber num} (series : list num) (mean : num)
    (indices : list nat) (a : num) :
  exists b,
    fold_left (correlationStep series series mean mean) indices (a, a, a) = (b, b, b).
Proof.
  revert a. induction indices as [|i rest IH]; intros a.
  - exists a. reflexivity.
  - cbn [fold_left]. unfold correlationStep at 2. apply IH.
Qed.

Lemma self_moments {num : Type} {N : JSNumber num} (series : list num) :
  correlationMoments series series
  = (computedVariance series, nsqrt (computedVariance series),
     nsqrt (computedVariance series)).
Proof.
  unfold computedVariance, correlationMoments.
  destruct (self_loop series
              (ndiv (fold_left (fun sum x => nadd sum x) series nzero)
                    (nlen (length series)))
              (seq 0 (length series)) nzero) as [b ->].
  reflexivity.
Qed.

(** In every arithmetic the correlation of a series with itself is the
    quotient of its computed variance by the square of the root of that
    variance, unless the root compares equal to 0. *)
Lemma self_correlation_quotient {num : Type} {N : JSNumber num} (series : list num) :
  (2 <= length series)%nat ->
  calculateCorrelation series series
  = if nis0 (nsqrt (computedVariance series)) then nzero
    else ndiv (computedVariance series)
              (nmul (nsqrt (computedVariance series))
                    (nsqrt (computedVariance series))).
Proof.
  intros Hn. unfold calculateCorrelation.
  rewrite (correlationExit_long _ _ Hn Hn), self_moments.
  destruct (nis0 (nsqrt (computedVariance series))); reflexivity.
Qed.

Lemma self_correlation_exactR (series : list R) :
  (2 <= length series)%nat -> ~ constantSeries series ->
  calculateCorrelation series series = 1%R.
Proof.
  intros Hn Hnc.
  destruct (self_moments_exact series Hn Hnc) as (variance & Hpos & Hm).
  unfold calculateCorrelation. rewrite (correlationExit_long _ _ Hn Hn), Hm.
  pose proof (sqrt_lt_R0 variance Hpos) as Hsd.
  assert (nis0 (sqrt variance) = false) as ->
    by (apply nis0_exact_false; lra).
  simpl. rewrite sqrt_sqrt by lra. field. lra.
Qed.

(** In binary64 the correlation of a series with itself is within 2^-49 of
    1 when the variance computed for it is a normal number between 2^-1000
    and 2^1000. *)
Lemma self_correlation_float64 (series : list float) :
  (2 <= length series)%nat ->
  PrimFloat.leb 0x1p-1000%float (computedVariance series) = true ->
  PrimFloat.ltb (computedVariance series) 0x1p1000%float = true ->
  (Rabs (float64Value (calculateCorrelation series series) - 1) <= / 2 ^ 49)%R.
Proof.
  intros Hn Hlo Hhi.
  destruct (self_quotient_float64 _ Hlo Hhi) as [Hnz Hnear].
  rewrite (self_correlation_quotient series Hn).
  cbn [nis0 nsqrt ndiv nmul float64]. rewrite Hnz. exact Hnear.
Qed.

(** C8, as amended. The correlation of a series of at least 2 points with
    itself is exactly 1 in exact arithmetic when the series is not constant.
    In binary64 it is within 2^-49 of 1 whenever the variance computed for
    the series is a normal number between 2^-1000 and 2^1000: it has
    neither underflowed nor overflowed. In every arithmetic it is the
    quotient of the computed variance by the square of the root of that
    variance, and 0 when that root compares equal to 0. *)
Theorem self_correlation :
  (forall series : list R,
      (2 <= length series)%nat -> ~ constantSeries series ->
      calculateCorrelation series series = 1%R)
  /\ (forall series : list float,
      (2 <= length series)%nat ->
      PrimFloat.leb 0x1p-1000%float (computedVariance series) = true ->
      PrimFloat.ltb (computedVariance series) 0x1p1000%float = true ->
      (Rabs (float64Value (calculateCorrelation series series) - 1) <= / 2 ^ 49)%R)
  /\ (forall (num : Type) (N : JSNumber num) (series : list num),
      (2 <= length series)%nat ->
      calculateCorrelation series series
      = if nis0 (nsqrt (computedVariance series)) then nzero
        else ndiv (computedVariance series)
                  (nmul (nsqrt (computedVariance series))
                        (nsqrt (computedVariance series)))).
Proof.
  split; [|split].
  - apply self_correlation_exactR.
  - apply self_correlation_float64.
  - intros num N series. apply self_correlation_quotient.
Qed.

(** The series [1,2,3,4] is one the binary64 bound applies to: its computed
    variance is 5/3, as near as binary64 holds it. *)
Example self_correlation_1_2_3_4_near_one :
  computedVariance [1%float; 2%float; 3%float; 4%float] = 0x1.aaaaaaaaaaaabp+0%float
  /\ (Rabs (float64Value
              (calculateCorrelation [1%float; 2%float; 3%float; 4%float]
                                    [1%float; 2%float; 3%float; 4%float]) - 1)
      <= / 2 ^ 49)%R.
Proof.
  split; [vm_compute; reflexivity|].
  apply self_correlation_float64; [cbn; lia|vm_compute; reflexivity..].
Qed.

(** In binary64 the same series gives 1 up to the last bit. *)
Example self_correlation_1_2_3_4 :
  calculateCorrelation [1%float; 2%float; 3%float; 4%float]
                       [1%float; 2%float; 3%float; 4%float]
  = 0x1.0000000000001p+0%float.
Proof. reflexivity. Qed.

(** C8, counterexample. In binary64 the series [0, 2^-600] is not constant,
    yet its squared deviations (2^-1202) underflow to 0: both computed
    deviations are 0 and the function returns 0, not 1. *)
Lemma self_correlation_float64_counterexample :
  (2 <= length [0%float; 0x1p-600%float])%nat
  /\ ~ constantSeries [0%float; 0x1p-600%float]
  /\ calculateCorrelation [0%float; 0x1p-600%float] [0%float; 0x1p-600%float]
     = 0%float.
Proof.
  split; [simpl; lia|]. split.
  - intros [c Hc]. inversion Hc as [|x l H1 Hrest]; subst.
    inversion Hrest as [|y l' H2 _]; subst.
    apply (f_equal (fun x => PrimFloat.eqb x 0%float)) in H2.
    vm_compute in H2. discriminate H2.
  - vm_compute. reflexivity.
Qed.

End StatisticsClaims.

(** ** SeriesAligner *)

Section AlignerFacts.
Context {num : Type}.
Implicit Types (history series : PriceHistory num) (p a b : PricePoint num).

Lemma filterByTime_restrict (startTime endTime : Z) history :
  filterByTime (Some startTime) (Some endTime) history
  = restrictToWindow startTime endTime history.
Proof.
  unfold filterByTime, restrictToWindow.
  induction history as [|p rest IH]; [reflexivity|].
  cbn [List.filter]. rewrite filter_cons, IH.
  destruct (decide (inWindow startTime endTime p)) as [Hin|Hout];
    unfold inWindow in *; destruct (lastUpdatedAt p) as [ts|]; simpl.
  - assert ((startTime <=? ts) && (ts <=? endTime) = true) as ->; [|reflexivity].
    apply andb_true_iff. split; apply Z.leb_le; lia.
  - destruct Hin.
  - assert ((startTime <=? ts) && (ts <=? endTime) = false) as ->; [|reflexivity].
    apply andb_false_iff.
    destruct (Z.leb_spec startTime ts); [right|left; reflexivity].
    apply Z.leb_gt. lia.
  - reflexivity.
Qed.

(** With an invalid start of the window nothing passes the filter. *)
Lemma filterByTime_invalid (endTime : JSDate) history :
  filterByTime None endTime history = [].
Proof.
  unfold filterByTime. induction history as [|p rest IH]; [reflexivity|].
  cbn [List.filter]. rewrite IH.
  unfold dateGe. destruct (lastUpdatedAt p); reflexivity.
Qed.

Lemma restrictToWindow_valid (startTime endTime : Z) history :
  Forall (fun p => exists ts, lastUpdatedAt p = Some ts)
         (restrictToWindow startTime endTime history).
Proof.
  apply Forall_forall. intros p Hp. unfold restrictToWindow in Hp.
  apply list_elem_of_filter in Hp as [Hin _]. unfold inWindow in Hin.
  destruct (lastUpdatedAt p) as [ts|]; [eauto|destruct Hin].
Qed.

Lemma closestStep_invariant (ta : Z) series
    (st : option (PricePoint num) * TimeNumber) (e : PricePoint num) :
  closestInvariant ta series st ->
  closestInvariant ta (series ++ [e]) (closestStep (TFinite ta) st e).
Proof.
  destruct st as [closest minDiff]. unfold closestStep.
  destruct (lastUpdatedAt e) as [te|] eqn:Ee; cbn [getTime absDiff].
  - intros [(Hc & Hm & Hnone)|(j & b & tb & (Hj & Hb & Hmin & Hfirst) & Hc & Hm)];
      cbn [fst snd] in *; subst.
    + cbn [timeLt]. right. exists (length series), e, te.
      split; [|split; reflexivity].
      rewrite Forall_forall in Hnone. repeat split.
      * apply lookup_snoc_Some. right. split; reflexivity.
      * exact Ee.
      * intros j' b' tb' Hl Ht. apply lookup_snoc_Some in Hl as [[_ Hl]|[_ <-]].
        -- rewrite (Hnone b') in Ht by (apply list_elem_of_lookup; eauto).
           discriminate.
        -- rewrite Ee in Ht. injection Ht as <-. lia.
      * intros j' b' tb' Hlt Hl Ht. rewrite lookup_app_l in Hl by exact Hlt.
        rewrite (Hnone b') in Ht by (apply list_elem_of_lookup; eauto).
        discriminate.
    + cbn [timeLt]. pose proof (lookup_lt_Some _ _ _ Hj) as Hjlt.
      destruct (Z.ltb_spec (Z.abs (ta - te)) (Z.abs (ta - tb))) as [Hlt|Hge].
      * right. exists (length series), e, te. split; [|split; reflexivity].
        repeat split.
        -- apply lookup_snoc_Some. right. split; reflexivity.
        -- exact Ee.
        -- intros j' b' tb' Hl Ht.
           apply lookup_snoc_Some in Hl as [[_ Hl]|[_ <-]].
           ++ specialize (Hmin j' b' tb' Hl Ht). lia.
           ++ rewrite Ee in Ht. injection Ht as <-. lia.
        -- intros j' b' tb' Hlt' Hl Ht. rewrite lookup_app_l in Hl by exact Hlt'.
           specialize (Hmin j' b' tb' Hl Ht). lia.
      * right. exists j, b, tb. split; [|split; reflexivity].
        repeat split.
        -- rewrite lookup_app_l by exact Hjlt. exact Hj.
        -- exact Hb.
        -- intros j' b' tb' Hl Ht.
           apply lookup_snoc_Some in Hl as [[_ Hl]|[_ <-]].
           ++ exact (Hmin j' b' tb' Hl Ht).
           ++ rewrite Ee in Ht. injection Ht as <-. lia.
        -- intros j' b' tb' Hlt' Hl Ht.
           rewrite lookup_app_l in Hl by lia.
           exact (Hfirst j' b' tb' Hlt' Hl Ht).
  - assert (timeLt TNaN minDiff = false) as -> by reflexivity.
    intros [(Hc & Hm & Hnone)|(j & b & tb & (Hj & Hb & Hmin & Hfirst) & Hc & Hm)].
    + left. repeat split; try assumption.
      apply Forall_app. split; [exact Hnone|]. constructor; [exact Ee|constructor].
    + right. exists j, b, tb. split; [|split; assumption].
      pose proof (lookup_lt_Some _ _ _ Hj) as Hjlt. repeat split.
      * rewrite lookup_app_l by exact Hjlt. exact Hj.
      * exact Hb.
      * intros j' b' tb' Hl Ht.
        apply lookup_snoc_Some in Hl as [[_ Hl]|[_ <-]].
        -- exact (Hmin j' b' tb' Hl Ht).
        -- rewrite Ee in Ht. discriminate.
      * intros j' b' tb' Hlt' Hl Ht.
        rewrite lookup_app_l in Hl by lia.
        exact (Hfirst j' b' tb' Hlt' Hl Ht).
Qed.

Lemma closest_loop_invariant (ta : Z) (rest seen : PriceHistory num)
    (st : option (PricePoint num) * TimeNumber) :
  closestInvariant ta seen st ->
  closestInvariant ta (seen ++ rest) (fold_left (closestStep (TFinite ta)) rest st).
Proof.
  revert seen st. induction rest as [|e rest IH]; intros seen st Hinv.
  - rewrite app_nil_r. exact Hinv.
  - cbn [fold_left]. rewrite (cons_middle e seen rest), app_assoc.
    apply IH, closestStep_invariant, Hinv.
Qed.

Lemma findClosest_invariant (ta : Z) series :
  closestInvariant ta series (findClosest (TFinite ta) series).
Proof.
  apply (closest_loop_invariant ta series []).
  left. repeat split. constructor.
Qed.

(** Among points with valid timestamps the inner loop finds the nearest,
    the first of them when several are equally near. *)
Lemma pairedWith_nearest (ta : Z) (a : PricePoint num) series :
  lastUpdatedAt a = Some ta -> series <> [] ->
  Forall (fun p => exists ts, lastUpdatedAt p = Some ts) series ->
  exists j b tb, nearestFirst ta series j b tb /\ pairedWith series a = Some b.
Proof.
  intros Ha Hne Hvalid. unfold pairedWith. rewrite Ha. cbn [getTime].
  destruct (findClosest_invariant ta series)
    as [(_ & _ & Hnone)|(j & b & tb & Hn & Hc & _)].
  - destruct series as [|p rest]; [congruence|].
    apply Forall_cons in Hvalid as [[ts Hts] _].
    apply Forall_cons in Hnone as [Hp _]. congruence.
  - eauto.
Qed.

Lemma pairedWith_nil (a : PricePoint num) : pairedWith [] a = None.
Proof. reflexivity. Qed.

(** The nearest point is determined by the instant and the series. *)
Lemma nearestFirst_unique (ta : Z) series (j j' : nat) b b' (tb tb' : Z) :
  nearestFirst ta series j b tb -> nearestFirst ta series j' b' tb' ->
  j = j' /\ b = b'.
Proof.
  intros (Hj & Hb & Hmin & Hfirst) (Hj' & Hb' & Hmin' & Hfirst').
  assert (j = j') as <-.
  { destruct (Nat.lt_total j j') as [Hlt|[Heq|Hlt]]; [|exact Heq|].
    - specialize (Hfirst' j b tb Hlt Hj Hb). specialize (Hmin j' b' tb' Hj' Hb'). lia.
    - specialize (Hfirst j' b' tb' Hlt Hj' Hb'). specialize (Hmin' j b tb Hj Hb). lia. }
  split; [reflexivity|congruence].
Qed.

(** The outer loop appends, for each point in turn, what [pushed1] and
    [pushed2] say. *)
Lemma align_loop (filtered2 filtered1 : PriceHistory num) (aligned1 aligned2 : list num) :
  fold_left (alignStep filtered2) filtered1 (aligned1, aligned2)
  = (aligned1 ++ flat_map (pushed1 filtered2) filtered1,
     aligned2 ++ flat_map (pushed2 filtered2) filtered1).
Proof.
  revert aligned1 aligned2.
  induction filtered1 as [|a rest IH]; intros aligned1 aligned2.
  - cbn. rewrite !app_nil_r. reflexivity.
  - cbn [fold_left flat_map]. unfold alignStep at 2.
    unfold pushed1 at 1, pushed2 at 1, pairedWith.
    destruct (fst (findClosest (getTime (lastUpdatedAt a)) filtered2)) as [c|].
    + rewrite IH, <- !app_assoc. reflexivity.
    + rewrite IH. reflexivity.
Qed.

Lemma pushed_lengths (filtered2 filtered1 : PriceHistory num) :
  length (flat_map (pushed1 filtered2) filtered1)
  = length (flat_map (pushed2 filtered2) filtered1).
Proof.
  induction filtered1 as [|a rest IH]; [reflexivity|].
  cbn [flat_map]. rewrite !length_app, IH. f_equal.
  unfold pushed1, pushed2. destruct (pairedWith filtered2 a); reflexivity.
Qed.

Lemma pushed_none (filtered1 : PriceHistory num) :
  flat_map (pushed1 []) filtered1 = [] /\ flat_map (pushed2 []) filtered1 = [].
Proof.
  induction filtered1 as [|a rest [IH1 IH2]]; [split; reflexivity|].
  cbn [flat_map]. rewrite IH1, IH2. split; reflexivity.
Qed.

Lemma pushed_all (filtered2 filtered1 : PriceHistory num) :
  (forall a, a ∈ filtered1 -> exists b, pairedWith filtered2 a = Some b) ->
  flat_map (pushed1 filtered2) filtered1 = map price filtered1
  /\ (forall i a, filtered1 !! i = Some a ->
       exists b, pairedWith filtered2 a = Some b
         /\ flat_map (pushed2 filtered2) filtered1 !! i = Some (price b)).
Proof.
  induction filtered1 as [|a rest IH]; intros Hall.
  - split; [reflexivity|]. intros i a Hi. rewrite lookup_nil in Hi. discriminate.
  - destruct IH as [IH1 IH2].
    { intros a' Ha'. apply Hall. right. exact Ha'. }
    destruct (Hall a) as [b Hb]; [left|].
    cbn [flat_map map]. unfold pushed1 at 1, pushed2 at 1. rewrite Hb, IH1.
    split; [reflexivity|].
    intros [|i] a' Hi; cbn in Hi.
    + injection Hi as <-. exists b. split; [exact Hb|reflexivity].
    + exact (IH2 i a' Hi).
Qed.

(** The two sequences returned by [alignPriceHistories] have the same
    length, whatever the histories, the clock and the window. *)
Lemma alignPriceHistories_same_length (now : Z) (history1 history2 : PriceHistory num)
    (minutes : NumberValue) :
  length (fst (alignPriceHistories now history1 history2 minutes))
  = length (snd (alignPriceHistories now history1 history2 minutes)).
Proof.
  unfold alignPriceHistories. rewrite align_loop. cbn [fst snd app].
  apply pushed_lengths.
Qed.

Lemma filter_agree (P Q : PricePoint num -> Prop)
    `{!forall p, Decision (P p)} `{!forall p, Decision (Q p)}
    (history : PriceHistory num) :
  (forall p, p ∈ history -> P p <-> Q p) -> filter P history = filter Q history.
Proof.
  induction history as [|p rest IH]; intros Hpq; [reflexivity|].
  rewrite !filter_cons, IH by (intros q Hq; apply Hpq; right; exact Hq).
  destruct (decide (P p)) as [Hp|Hp], (decide (Q p)) as [Hq|Hq];
    try reflexivity; exfalso.
  - apply Hq, (Hpq p); [left|exact Hp].
  - apply Hp, (Hpq p); [left|exact Hq].
Qed.

(** The window of a whole number of minutes starts at [now - minutes], as
    long as that instant is within the range of [Date]. *)
Lemma windowStart_integral (now m : Z) :
  windowStart now (Integral m)
  = if Z.abs (now - m * 60 * 1000) <=? maxTime then Some (now - m * 60 * 1000)
    else None.
Proof. reflexivity. Qed.

Lemma pointsInWindow_valid (now startTime : Z) (minutes : NumberValue) history :
  windowStart now minutes = Some startTime ->
  pointsInWindow now minutes history = restrictToWindow startTime now history.
Proof.
  intros Hs. unfold pointsInWindow, restrictToWindow. apply filter_agree.
  intros p _. unfold inWindowAt. rewrite Hs. reflexivity.
Qed.

Lemma pointsInWindow_invalid (now : Z) (minutes : NumberValue) history :
  windowStart now minutes = None -> pointsInWindow now minutes history = [].
Proof.
  intros Hs. unfold pointsInWindow.
  induction history as [|p rest IH]; [reflexivity|].
  rewrite filter_cons, IH.
  destruct (decide (inWindowAt now minutes p)) as [Hin|_]; [|reflexivity].
  unfold inWindowAt in Hin. rewrite Hs in Hin. destruct Hin.
Qed.

(** What line 56 keeps of a history. *)
Lemma filterByTime_points (now : Z) (minutes : NumberValue) history :
  filterByTime (windowStart now minutes) (Some now) history
  = pointsInWindow now minutes history.
Proof.
  destruct (windowStart now minutes) as [startTime|] eqn:Hs.
  - rewrite filterByTime_restrict. symmetry. apply pointsInWindow_valid, Hs.
  - rewrite filterByTime_invalid. symmetry. apply pointsInWindow_invalid, Hs.
Qed.

Lemma align_as_pushed (now : Z) history1 history2 (minutes : NumberValue) :
  alignPriceHistories now history1 history2 minutes
  = (flat_map (pushed1 (pointsInWindow now minutes history2))
              (pointsInWindow now minutes history1),
     flat_map (pushed2 (pointsInWindow now minutes history2))
              (pointsInWindow now minutes history1)).
Proof.
  unfold alignPriceHistories. rewrite !filterByTime_points, align_loop.
  reflexivity.
Qed.

Lemma align_invalid_start (now : Z) history1 history2 (minutes : NumberValue) :
  windowStart now minutes = None ->
  alignPriceHistories now history1 history2 minutes = ([], []).
Proof.
  intros Hs. rewrite align_as_pushed, !(pointsInWindow_invalid _ _ _ Hs).
  reflexivity.
Qed.

Lemma align_valid_start (now startTime : Z) history1 history2 (minutes : NumberValue) :
  windowStart now minutes = Some startTime ->
  alignPriceHistories now history1 history2 minutes
  = (flat_map (pushed1 (restrictToWindow startTime now history2))
              (restrictToWindow startTime now history1),
     flat_map (pushed2 (restrictToWindow startTime now history2))
              (restrictToWindow startTime now history1)).
Proof.
  intros Hs. rewrite align_as_pushed, !(pointsInWindow_valid _ _ _ _ Hs).
  reflexivity.
Qed.

(** The result for a whole number of minutes. *)
Lemma align_integral (now : Z) history1 history2 (m : Z) :
  alignPriceHistories now history1 history2 (Integral m)
  = if Z.abs (now - m * 60 * 1000) <=? maxTime then
      (flat_map (pushed1 (restrictToWindow (now - m * 60 * 1000) now history2))
                (restrictToWindow (now - m * 60 * 1000) now history1),
       flat_map (pushed2 (restrictToWindow (now - m * 60 * 1000) now history2))
                (restrictToWindow (now - m * 60 * 1000) now history1))
    else ([], []).
Proof.
  pose proof (windowStart_integral now m) as Hs.
  destruct (Z.abs (now - m * 60 * 1000) <=? maxTime).
  - apply align_valid_start, Hs.
  - apply align_invalid_start, Hs.
Qed.

(** C2, as amended. [alignPriceHistories] works on the restrictions of the
    two histories to the window from [startTime] to [now], both ends
    included, where [startTime] is the [Date] of line 53: for a window of a
    whole number of minutes the instant [now - minutes] when it lies within
    [maxTime] of the epoch, for any other window the binary64 value of
    [now - minutes * 60 * 1000] cut to an integer, and an Invalid Date
    beyond [maxTime]. With an Invalid Date no point is kept and no pair is
    returned. Otherwise: when the restriction of the second history is
    empty no pair is returned; when it is not, one pair is returned for each
    point of the restricted first history, in order: the price of the point,
    and the price of the point of the restricted second history nearest in
    time to it, the first such point when several are equally near. *)
Theorem alignPriceHistories_nearest (now : Z) (history1 history2 : PriceHistory num)
    (minutes : NumberValue) :
  let aligned := alignPriceHistories now history1 history2 minutes in
  (forall m : Z,
     windowStart now (Integral m)
     = if Z.abs (now - m * 60 * 1000) <=? maxTime then Some (now - m * 60 * 1000)
       else None)
  /\ (forall x : float,
        windowStart now (Double x)
        = newDate (Double (PrimFloat.sub (toDouble (Integral now))
                             (PrimFloat.mul (PrimFloat.mul x 60%float) 1000%float))))
  /\ (windowStart now minutes = None -> aligned = ([], []))
  /\ (forall startTime : Z, windowStart now minutes = Some startTime ->
      let filteredA := restrictToWindow startTime now history1 in
      let filteredB := restrictToWindow startTime now history2 in
      (filteredB = [] -> aligned = ([], []))
      /\ (filteredB <> [] ->
          fst aligned = map price filteredA
          /\ length (snd aligned) = length filteredA
          /\ forall i a, filteredA !! i = Some a ->
               exists ta j b tb,
                 lastUpdatedAt a = Some ta
                 /\ nearestFirst ta filteredB j b tb
                 /\ snd aligned !! i = Some (price b))).
Proof.
  intros aligned.
  split; [intros m; apply windowStart_integral|].
  split; [intros x; reflexivity|].
  split; [apply align_invalid_start|].
  intros startTime Hs filteredA filteredB.
  assert (aligned = (flat_map (pushed1 filteredB) filteredA,
                     flat_map (pushed2 filteredB) filteredA)) as ->
    by (apply align_valid_start, Hs).
  split.
  - intros ->. destruct (pushed_none filteredA) as [-> ->]. reflexivity.
  - intros Hne. cbn [fst snd].
    pose proof (restrictToWindow_valid startTime now history1) as HvalidA.
    pose proof (restrictToWindow_valid startTime now history2) as HvalidB.
    fold filteredA in HvalidA. fold filteredB in HvalidB.
    rewrite Forall_forall in HvalidA.
    destruct (pushed_all filteredB filteredA) as [H1 H2].
    { intros a Ha. destruct (HvalidA a Ha) as [ta Hta].
      destruct (pairedWith_nearest ta a filteredB Hta Hne HvalidB)
        as (j & b & tb & _ & Hb).
      eauto. }
    split; [exact H1|]. split.
    + rewrite <- pushed_lengths, H1, length_map. reflexivity.
    + intros i a Hi. destruct (H2 i a Hi) as (b & Hb & Hl).
      destruct (HvalidA a) as [ta Hta]; [apply list_elem_of_lookup; eauto|].
      destruct (pairedWith_nearest ta a filteredB Hta Hne HvalidB)
        as (j & b' & tb & Hn & Hb').
      assert (b' = b) as -> by congruence.
      exists ta, j, b, tb. auto.
Qed.

End AlignerFacts.

(** Points of A at minutes 0, 10 and 20, points of B at minutes 1, 9 and 21,
    a window of 30 minutes read at minute 21: each point of A is paired with
    the point of B nearest to it. *)
Example align_0_10_20_with_1_9_21 :
  alignPriceHistories 1260000
    [ {| price := 1%float; lastUpdatedAt := Some 0 |};
      {| price := 2%float; lastUpdatedAt := Some 600000 |};
      {| price := 3%float; lastUpdatedAt := Some 1200000 |} ]
    [ {| price := 10%float; lastUpdatedAt := Some 60000 |};
      {| price := 20%float; lastUpdatedAt := Some 540000 |};
      {| price := 30%float; lastUpdatedAt := Some 1260000 |} ]
    (Integral 30)
  = ([1%float; 2%float; 3%float], [10%float; 20%float; 30%float]).
Proof. reflexivity. Qed.

(** Two points of B equally near: the first in the order of B is taken,
    and a point of B may be taken more than once. *)
Example align_tie_takes_first :
  alignPriceHistories 1260000
    [ {| price := 1%float; lastUpdatedAt := Some 600000 |};
      {| price := 2%float; lastUpdatedAt := Some 610000 |} ]
    [ {| price := 10%float; lastUpdatedAt := Some 900000 |};
      {| price := 20%float; lastUpdatedAt := Some 300000 |} ]
    (Integral 30)
  = ([1%float; 2%float], [10%float; 10%float]).
Proof. reflexivity. Qed.

(** A point with an invalid timestamp, or outside the window, is dropped
    before the pairing. *)
Example align_drops_invalid :
  alignPriceHistories 1260000
    [ {| price := 1%float; lastUpdatedAt := None |};
      {| price := 2%float; lastUpdatedAt := Some 610000 |};
      {| price := 3%float; lastUpdatedAt := Some 1260001 |} ]
    [ {| price := 10%float; lastUpdatedAt := Some 900000 |} ]
    (Integral 30)
  = ([2%float], [10%float]).
Proof. reflexivity. Qed.

(** The window of half a minute, and the windows that the range of [Date]
    cuts off: 200000000000 minutes before the sample clock lies outside it,
    and so does the start of an infinite window or of one that is NaN. *)
Example windowStart_samples :
  windowStart 1700000050000 (Integral 1) = Some 1699999990000
  /\ windowStart 1700000050000 (Double 1) = Some 1699999990000
  /\ windowStart 1700000050000 (Double 0.5) = Some 1700000020000
  /\ windowStart 1700000050000 (Integral 200000000000) = None
  /\ windowStart 1700000050000 (Double 200000000000) = None
  /\ windowStart 1700000050000 (Double infinity) = None
  /\ windowStart 1700000050000 (Double nan) = None.
Proof. repeat split; vm_compute; reflexivity. Qed.

(** Written as an integer or as the binary64 value, a whole number of
    minutes gives the same start of the window: checked for clock readings
    over the range of [Date] and windows up to 10^20 minutes, among them
    those whose product by 60000 lies next to 2^53 and to the range of
    [Date]. *)
Example windowStart_whole_minutes :
  forallb
    (fun '(now, m) =>
       bool_decide (windowStart now (Double (toDouble (Integral m)))
                    = windowStart now (Integral m)))
    (list_prod
       [0; 1; 1700000050000; 1700000099999; 1700000100000; 4503599627370497;
        8640000000000000; -1; -1700000050000; -8640000000000000]
       [0; 1; 2; 59; 60; 1440; 525600; 4294967296; 144028333335; 144028333336;
        150119987579; 150119987580; 287999999999; 288000000000; 288000000001;
        316361666667; 9007199254740992; 100000000000000000000;
        -1; -60; -144000000000; -144028333336; -288000000001])
  = true.
Proof. vm_compute. reflexivity. Qed.

(** At the edge of the range: a window of 144028333335 minutes starts on the
    first instant a [Date] can hold when the clock reads 1700000100000, and
    one millisecond before it, on an Invalid Date, when the clock reads
    1700000099999. *)
Example windowStart_edge :
  windowStart 1700000100000 (Integral 144028333335) = Some (-8640000000000000)
  /\ windowStart 1700000100000 (Double 144028333335) = Some (-8640000000000000)
  /\ windowStart 1700000099999 (Integral 144028333335) = None
  /\ windowStart 1700000099999 (Double 144028333335) = None.
Proof. repeat split; vm_compute; reflexivity. Qed.

(** A window of 0.00001 minute is 0.6 ms long: the start of the window is
    cut to the millisecond before, and a point 1 ms old is kept. *)
Example align_fraction_of_millisecond :
  windowStart 1700000050000 (Double 0x1.4f8b588e368f1p-17) = Some 1700000049999
  /\ alignPriceHistories 1700000050000
       [ {| price := 1%float; lastUpdatedAt := Some 1700000049999 |} ]
       [ {| price := 2%float; lastUpdatedAt := Some 1700000050000 |} ]
       (Double 0x1.4f8b588e368f1p-17)
     = ([1%float], [2%float]).
Proof. split; vm_compute; reflexivity. Qed.

(** C2, counterexample. With a window of 200000000000 minutes every point of
    the two sample histories lies between [now - minutes] and [now], yet
    [alignPriceHistories] returns no pair: the start of the window is an
    Invalid Date, and no point passes the comparison of line 59. *)
Lemma align_out_of_range_counterexample :
  restrictToWindow (1700000050000 - 200000000000 * 60 * 1000) 1700000050000 sampleA
  = sampleA
  /\ restrictToWindow (1700000050000 - 200000000000 * 60 * 1000) 1700000050000 sampleB
     = sampleB
  /\ alignPriceHistories 1700000050000 sampleA sampleB (Integral 200000000000)
     = ([], [])
  /\ alignPriceHistories 1700000050000 sampleA sampleB (Double 200000000000)
     = ([], []).
Proof. repeat split; vm_compute; reflexivity. Qed.

(** ** Repeating align and correlate *)

Section Repetition.
Context {num : Type} {N : JSNumber num}.

(** C4, as amended. Two runs of [alignPriceHistories] and
    [calculateCorrelation] on the same histories and window return the same
    aligned series and the same coefficient when the same points of the
    histories lie in the window at the two instants the clock is read at
    (between the start that line 53 computes from the reading and the
    reading itself); in particular when it is read at the same instant. *)
Theorem align_correlate_repeatable (now1 now2 : Z)
    (history1 history2 : PriceHistory num) (minutes : NumberValue) :
  (forall p, p ∈ history1 ++ history2 ->
     inWindowAt now1 minutes p <-> inWindowAt now2 minutes p) ->
  alignPriceHistories now1 history1 history2 minutes
  = alignPriceHistories now2 history1 history2 minutes
  /\ calculateCorrelation
       (fst (alignPriceHistories now1 history1 history2 minutes))
       (snd (alignPriceHistories now1 history1 history2 minutes))
     = calculateCorrelation
         (fst (alignPriceHistories now2 history1 history2 minutes))
         (snd (alignPriceHistories now2 history1 history2 minutes)).
Proof.
  intros Hsame.
  assert (alignPriceHistories now1 history1 history2 minutes
          = alignPriceHistories now2 history1 history2 minutes) as Heq.
  { rewrite !align_as_pushed. unfold pointsInWindow.
    rewrite (filter_agree _ (inWindowAt now2 minutes) history1)
      by (intros p Hp; apply Hsame, elem_of_app; left; exact Hp).
    rewrite (filter_agree _ (inWindowAt now2 minutes) history2)
      by (intros p Hp; apply Hsame, elem_of_app; right; exact Hp).
    reflexivity. }
  split; [exact Heq|]. rewrite Heq. reflexivity.
Qed.

End Repetition.

Lemma align_correlate_repeatable_witness :
  alignPriceHistories 1700000050000 sampleA sampleB (Integral 1)
  = alignPriceHistories 1700000055000 sampleA sampleB (Integral 1)
  /\ calculateCorrelation
       (fst (alignPriceHistories 1700000050000 sampleA sampleB (Integral 1)))
       (snd (alignPriceHistories 1700000050000 sampleA sampleB (Integral 1)))
     = calculateCorrelation
         (fst (alignPriceHistories 1700000055000 sampleA sampleB (Integral 1)))
         (snd (alignPriceHistories 1700000055000 sampleA sampleB (Integral 1))).
Proof.
  apply (align_correlate_repeatable 1700000050000 1700000055000 sampleA sampleB
           (Integral 1)).
  intros p Hp. unfold sampleA, sampleB in Hp. cbn [app] in Hp.
  repeat (apply elem_of_cons in Hp as [->|Hp]);
    [unfold inWindowAt;
     change (windowStart 1700000050000 (Integral 1)) with (Some 1699999990000);
     change (windowStart 1700000055000 (Integral 1)) with (Some 1699999995000);
     unfold inWindow; cbn [lastUpdatedAt]; lia ..|].
  apply elem_of_nil in Hp. destruct Hp.
Defined.

(** C4, counterexample. The same two histories and the same window of one
    minute, aligned and correlated with the clock at 1700000050000 and again
    25 seconds later: the first point of each history has left the window,
    and both the aligned series and the coefficient differ. *)
Lemma align_correlate_clock_counterexample :
  alignPriceHistories 1700000050000 sampleA sampleB (Integral 1)
  = ([1%float; 2%float; 4%float], [3%float; 1%float; 2%float])
  /\ alignPriceHistories 1700000075000 sampleA sampleB (Integral 1)
     = ([2%float; 4%float], [1%float; 2%float])
  /\ calculateCorrelation
       (fst (alignPriceHistories 1700000050000 sampleA sampleB (Integral 1)))
       (snd (alignPriceHistories 1700000050000 sampleA sampleB (Integral 1)))
     = (-0x1.4f2ec413cb52bp-2)%float
  /\ calculateCorrelation
       (fst (alignPriceHistories 1700000075000 sampleA sampleB (Integral 1)))
       (snd (alignPriceHistories 1700000075000 sampleA sampleB (Integral 1)))
     = 0x1.ffffffffffffep-1%float
  /\ alignPriceHistories 1700000050000 sampleA sampleB (Integral 1)
     <> alignPriceHistories 1700000075000 sampleA sampleB (Integral 1)
  /\ calculateCorrelation
       (fst (alignPriceHistories 1700000050000 sampleA sampleB (Integral 1)))
       (snd (alignPriceHistories 1700000050000 sampleA sampleB (Integral 1)))
     <> calculateCorrelation
          (fst (alignPriceHistories 1700000075000 sampleA sampleB (Integral 1)))
          (snd (alignPriceHistories 1700000075000 sampleA sampleB (Integral 1))).
Proof.
  repeat split; try (vm_compute; reflexivity).
  - intros H. vm_compute in H. discriminate H.
  - intros H.
    apply (f_equal (fun x => PrimFloat.eqb x 0x1.ffffffffffffep-1%float)) in H.
    vm_compute in H. discriminate H.
Qed.

(** The same window read at the edge of the range of [Date]: one
    millisecond apart, the first run pairs every point and the second
    none. *)
Example align_edge_of_range :
  alignPriceHistories 1700000100000 sampleA sampleB (Integral 144028333335)
  = ([1%float; 2%float; 4%float], [3%float; 1%float; 2%float])
  /\ alignPriceHistories 1700000099999 sampleA sampleB (Integral 144028333335)
     = ([], []).
Proof. split; vm_compute; reflexivity. Qed.

(** ** PriceHistoryFetcher and its cache *)

Section FetcherFacts.
Context {num : Type}.
Variable upstream : nat -> string -> string -> UpstreamReply num.
Variable latency : nat -> nat.

Lemma cacheGet_set (data : gmap string (CacheEntry num)) (inserted now : Z)
    (key : string) (value : PriceHistory num) :
  cacheGet (cacheSet data inserted key value) now key
  = if inserted + stdTTL * 1000 <? now then None else Some value.
Proof.
  unfold cacheGet, cacheSet. rewrite lookup_insert_eq. reflexivity.
Qed.

Lemma cacheGet_set_other (data : gmap string (CacheEntry num)) (inserted now : Z)
    (key other : string) (value : PriceHistory num) :
  key <> other ->
  cacheGet (cacheSet data inserted key value) now other = cacheGet data now other.
Proof.
  intros Hne. unfold cacheGet, cacheSet. rewrite lookup_insert_ne by exact Hne.
  reflexivity.
Qed.

(** A hit returns the cached value and leaves the world as it is. *)
Lemma fetch_hit (ticker minutes : string) (w : World num) (cached : PriceHistory num) :
  cacheGet (cache w) (clock w) (ticker +:+ ":" +:+ minutes) = Some cached ->
  fetchStockPriceHistory upstream latency ticker minutes w = (Returned cached, w).
Proof.
  intros Hhit. unfold fetchStockPriceHistory, fetchBegin. rewrite Hhit. reflexivity.
Qed.

(** A miss issues one request; a successful reply is stored under the key
    at the instant it arrives. *)
Lemma fetch_miss (ticker minutes : string) (w : World num) :
  cacheGet (cache w) (clock w) (ticker +:+ ":" +:+ minutes) = None ->
  let k := length (upstreamCalls w) in
  let arrival := clock w + Z.of_nat (latency k) in
  let calls := upstreamCalls w ++ [(ticker, minutes)] in
  let stored data :=
    {| clock := arrival;
       cache := cacheSet (cache w) arrival (ticker +:+ ":" +:+ minutes) data;
       upstreamCalls := calls |} in
  fetchStockPriceHistory upstream latency ticker minutes w
  = match upstream k ticker minutes with
    | ReplyArray data => (Returned data, stored data)
    | ReplyStock stock => (Returned [stock], stored [stock])
    | ReplyFailure message =>
        (Thrown ("Failed to fetch data for " +:+ ticker +:+ ": " +:+ message),
         {| clock := arrival; cache := cache w; upstreamCalls := calls |})
    end.
Proof.
  intros Hmiss. unfold fetchStockPriceHistory, fetchBegin. rewrite Hmiss.
  unfold settle, fetchResume. cbn [cache upstreamCalls clock].
  destruct (upstream _ ticker minutes); reflexivity.
Qed.

Lemma fetch_miss_calls (ticker minutes : string) (w : World num) :
  cacheGet (cache w) (clock w) (ticker +:+ ":" +:+ minutes) = None ->
  upstreamCalls (snd (fetchStockPriceHistory upstream latency ticker minutes w))
  = upstreamCalls w ++ [(ticker, minutes)].
Proof.
  intros Hmiss. rewrite (fetch_miss ticker minutes w Hmiss).
  destruct (upstream _ ticker minutes); reflexivity.
Qed.

(** C3. Let a fetch for [(ticker, minutes)] miss the cache and succeed, so
    that it issues one upstream request and stores its result at the instant
    [clock w1]. In every later world that still holds that entry, a fetch for
    the same key made no more than 300 seconds after the insertion returns
    the stored value and leaves the world, hence the list of upstream
    requests, unchanged; made more than 300 seconds after it, the lookup is
    a miss and the fetch issues a further upstream request. *)
Theorem fetch_cache_ttl (ticker minutes : string) (w w1 : World num)
    (data : PriceHistory num) :
  cacheGet (cache w) (clock w) (ticker +:+ ":" +:+ minutes) = None ->
  fetchStockPriceHistory upstream latency ticker minutes w = (Returned data, w1) ->
  upstreamCalls w1 = upstreamCalls w ++ [(ticker, minutes)]
  /\ (forall w2 : World num,
        cache w2 !! (ticker +:+ ":" +:+ minutes)
        = cache w1 !! (ticker +:+ ":" +:+ minutes) ->
        clock w1 <= clock w2 <= clock w1 + 300 * 1000 ->
        fetchStockPriceHistory upstream latency ticker minutes w2 = (Returned data, w2))
  /\ (forall w2 : World num,
        cache w2 !! (ticker +:+ ":" +:+ minutes)
        = cache w1 !! (ticker +:+ ":" +:+ minutes) ->
        clock w1 + 300 * 1000 < clock w2 ->
        cacheGet (cache w2) (clock w2) (ticker +:+ ":" +:+ minutes) = None
        /\ upstreamCalls
             (snd (fetchStockPriceHistory upstream latency ticker minutes w2))
           = upstreamCalls w2 ++ [(ticker, minutes)]).
Proof.
  intros Hmiss Hfetch.
  set (key := ticker +:+ ":" +:+ minutes) in *.
  assert (upstreamCalls w1 = upstreamCalls w ++ [(ticker, minutes)]
          /\ cache w1 !! key = Some {| v := data; t := clock w1 + stdTTL * 1000 |})
    as [Hcalls Hentry].
  { rewrite (fetch_miss ticker minutes w Hmiss) in Hfetch. fold key in Hfetch.
    destruct (upstream _ ticker minutes) as [d|stock|msg];
      inversion Hfetch; subst; cbn [upstreamCalls cache clock];
      (split; [reflexivity|]); unfold cacheSet; apply lookup_insert_eq. }
  split; [exact Hcalls|]. split.
  - intros w2 Hsame Hclock. apply fetch_hit. fold key.
    unfold cacheGet. rewrite Hsame, Hentry. cbn [t v].
    assert ((clock w1 + stdTTL * 1000 <? clock w2) = false) as ->
      by (apply Z.ltb_ge; unfold stdTTL; lia).
    reflexivity.
  - intros w2 Hsame Hclock.
    assert (cacheGet (cache w2) (clock w2) key = None) as Hexpired.
    { unfold cacheGet. rewrite Hsame, Hentry. cbn [t v].
      assert ((clock w1 + stdTTL * 1000 <? clock w2) = true) as ->
        by (apply Z.ltb_lt; unfold stdTTL; lia).
      reflexivity. }
    split; [exact Hexpired|]. apply fetch_miss_calls. exact Hexpired.
Qed.

End FetcherFacts.

Lemma fetch_cache_ttl_witness :
  upstreamCalls cachedWorld = upstreamCalls freshWorld ++ [("AAPL", "60")]
  /\ (forall w2 : World float,
        cache w2 !! ("AAPL" +:+ ":" +:+ "60") = cache cachedWorld !! ("AAPL" +:+ ":" +:+ "60") ->
        clock cachedWorld <= clock w2 <= clock cachedWorld + 300 * 1000 ->
        fetchStockPriceHistory sampleUpstream sampleLatency "AAPL" "60" w2
        = (Returned sampleA, w2))
  /\ (forall w2 : World float,
        cache w2 !! ("AAPL" +:+ ":" +:+ "60") = cache cachedWorld !! ("AAPL" +:+ ":" +:+ "60") ->
        clock cachedWorld + 300 * 1000 < clock w2 ->
        cacheGet (cache w2) (clock w2) ("AAPL" +:+ ":" +:+ "60") = None
        /\ upstreamCalls
             (snd (fetchStockPriceHistory sampleUpstream sampleLatency "AAPL" "60" w2))
           = upstreamCalls w2 ++ [("AAPL", "60")]).
Proof.
  apply (fetch_cache_ttl sampleUpstream sampleLatency "AAPL" "60"
           freshWorld cachedWorld sampleA).
  - vm_compute. reflexivity.
  - vm_compute. reflexivity.
Defined.

(** 300 seconds after the insertion the entry is still served, without a
    request; one millisecond later it is not, and a second request goes out. *)
Example fetch_at_ttl :
  fetchStockPriceHistory sampleUpstream sampleLatency "AAPL" "60"
    (elapse 300000 cachedWorld)
  = (Returned sampleA, elapse 300000 cachedWorld).
Proof. vm_compute. reflexivity. Qed.

Example fetch_after_ttl :
  upstreamCalls
    (snd (fetchStockPriceHistory sampleUpstream sampleLatency "AAPL" "60"
            (elapse 300001 cachedWorld)))
  = [("AAPL", "60"); ("AAPL", "60")].
Proof. vm_compute. reflexivity. Qed.

(** ** The correlation operation *)

Section ServiceFacts.
Context {num : Type} {N : JSNumber num}.
Variable upstream : nat -> string -> string -> UpstreamReply num.
Variable latency : nat -> nat.
Variable StringToNumber : string -> NumberValue.

Local Abbreviation handler := (stockCorrelation upstream latency StringToNumber).

(** The check of line 156 lets through the arrays of two items, and nothing
    else. *)
Lemma invalidTicker_false (ticker : QueryValue) :
  invalidTicker ticker = false <-> twoTickers ticker.
Proof.
  unfold invalidTicker, twoTickers. split.
  - destruct ticker as [|s|items|]; cbn; try discriminate.
    + destruct s; discriminate.
    + destruct items as [|t1 [|t2 [|t3 rest]]]; cbn; try discriminate. eauto.
  - intros (t1 & t2 & ->). reflexivity.
Qed.

Lemma invalidTicker_true (ticker : QueryValue) :
  invalidTicker ticker = true <-> ~ twoTickers ticker.
Proof.
  rewrite <- invalidTicker_false. destruct (invalidTicker ticker); split;
    intros; congruence.
Qed.

(** A request that fails either check is answered 400 with the world
    untouched; any other request is answered 200 or 500. *)
Lemma handler_status (req : Request) (w : World num) :
  (invalidMinutes StringToNumber (q_minutes req) || invalidTicker (q_ticker req) = true
   /\ status (fst (handler req w)) = 400%nat /\ snd (handler req w) = w)
  \/ (invalidMinutes StringToNumber (q_minutes req) || invalidTicker (q_ticker req) = false
      /\ (status (fst (handler req w)) = 200%nat
          \/ status (fst (handler req w)) = 500%nat)).
Proof.
  unfold stockCorrelation.
  destruct (invalidMinutes StringToNumber (q_minutes req)); [left; auto|].
  destruct (invalidTicker (q_ticker req)); [left; auto|].
  right. split; [reflexivity|].
  destruct (fetchBoth _ _ _ _ _ _) as [[[h1 h2]|msg] w'].
  - destruct (alignPriceHistories _ _ _ _) as [a1 a2]. left. reflexivity.
  - right. reflexivity.
Qed.

(** C1, as amended. The correlation operation answers 400, and neither
    calls the feed nor touches the cache, unless the ticker parameter is an
    array of exactly two symbols (which may be equal): every request whose
    ticker list is not made of two symbols is answered 400 with the world
    unchanged; the answer is 400 exactly when the minutes are invalid or the
    ticker list is not made of two symbols; and no 400 answer changes the
    world. *)
Theorem stockCorrelation_two_tickers (req : Request) (w : World num) :
  (~ twoTickers (q_ticker req) ->
   status (fst (handler req w)) = 400%nat /\ snd (handler req w) = w)
  /\ (status (fst (handler req w)) = 400%nat
      <-> invalidMinutes StringToNumber (q_minutes req) = true
          \/ ~ twoTickers (q_ticker req))
  /\ (status (fst (handler req w)) = 400%nat -> snd (handler req w) = w).
Proof.
  destruct (handler_status req w) as [(Hbad & Hst & Hw)|(Hok & Hst)].
  - apply orb_true_iff in Hbad. rewrite invalidTicker_true in Hbad.
    split; [|split].
    + intros _. split; assumption.
    + split; intros _; assumption.
    + intros _. exact Hw.
  - apply orb_false_iff in Hok as [Hm Ht]. apply invalidTicker_false in Ht.
    assert (status (fst (handler req w)) <> 400%nat) as Hne
      by (destruct Hst as [Hst|Hst]; rewrite Hst; discriminate).
    split; [|split].
    + intros Hno. contradiction.
    + split; [intros H400; contradiction|].
      intros [Hbad|Hbad]; [congruence|contradiction].
    + intros H400. contradiction.
Qed.

(** The coefficient of a 200 answer is the correlation of the two series
    that [alignPriceHistories] returned for the fetched histories. *)
Lemma handler_correlates_aligned (req : Request) (w : World num)
    (c : num) (stocks : gmap string (StockSummary num)) :
  body (fst (handler req w)) = CorrelationBody c stocks ->
  exists (history1 history2 : PriceHistory num),
    c = calculateCorrelation
          (fst (alignPriceHistories (clock (snd (handler req w))) history1 history2
                  (ToNumber StringToNumber (q_minutes req))))
          (snd (alignPriceHistories (clock (snd (handler req w))) history1 history2
                  (ToNumber StringToNumber (q_minutes req)))).
Proof.
  unfold stockCorrelation.
  destruct (invalidMinutes StringToNumber (q_minutes req)); [discriminate|].
  destruct (invalidTicker (q_ticker req)); [discriminate|].
  destruct (fetchBoth _ _ _ _ _ _) as [[[h1 h2]|msg] w']; [|discriminate].
  destruct (alignPriceHistories _ _ _ _) as [a1 a2] eqn:Ea. cbn.
  intros [= <- _]. exists h1, h2. rewrite Ea. reflexivity.
Qed.

End ServiceFacts.

(** C5. For every pair of histories, every reading of the clock and every
    window, the two sequences returned by [alignPriceHistories] have the same
    length (possibly 0); the coefficient of every 200 answer of the
    correlation operation is [calculateCorrelation] applied to two such
    sequences. *)
Theorem aligned_series_equal_length :
  (forall (num : Type) (now : Z) (history1 history2 : PriceHistory num)
          (minutes : NumberValue),
      length (fst (alignPriceHistories now history1 history2 minutes))
      = length (snd (alignPriceHistories now history1 history2 minutes)))
  /\ (forall (num : Type) (N : JSNumber num)
             (upstream : nat -> string -> string -> UpstreamReply num)
             (latency : nat -> nat) (StringToNumber : string -> NumberValue)
             (req : Request) (w : World num) (c : num)
             (stocks : gmap string (StockSummary num)),
      body (fst (stockCorrelation upstream latency StringToNumber req w))
      = CorrelationBody c stocks ->
      exists (now : Z) (history1 history2 : PriceHistory num),
        let aligned :=
          alignPriceHistories now history1 history2
            (ToNumber StringToNumber (q_minutes req)) in
        c = calculateCorrelation (fst aligned) (snd aligned)
        /\ length (fst aligned) = length (snd aligned)).
Proof.
  split.
  - intros. apply alignPriceHistories_same_length.
  - intros num N upstream latency StringToNumber req w c stocks Hbody.
    destruct (handler_correlates_aligned _ _ _ req w c stocks Hbody)
      as (h1 & h2 & ->).
    eexists _, h1, h2. cbv zeta. split; [reflexivity|].
    apply alignPriceHistories_same_length.
Qed.

(** C1, counterexample. The ticker list [AAPL, AAPL] is not made of two
    distinct symbols, yet the request is answered 200, both fetches miss the
    empty cache and call the feed, and the reply is stored in the cache. *)
Lemma stockCorrelation_same_ticker_counterexample :
  ~ twoDistinctTickers (q_ticker sameTickerRequest)
  /\ status (fst (stockCorrelation sampleUpstream sampleLatency (digitsToNumber 0)
                   sameTickerRequest freshWorld)) = 200%nat
  /\ upstreamCalls (snd (stockCorrelation sampleUpstream sampleLatency
                           (digitsToNumber 0) sameTickerRequest freshWorld))
     = [("AAPL", "60"); ("AAPL", "60")]
  /\ cache (snd (stockCorrelation sampleUpstream sampleLatency
                   (digitsToNumber 0) sameTickerRequest freshWorld)) !! "AAPL:60"
     = Some {| v := sampleA; t := 1700000350120 |}.
Proof.
  split; [|split; [|split]].
  - intros (t1 & t2 & Heq & Hne). cbn in Heq. congruence.
  - vm_compute. reflexivity.
  - vm_compute. reflexivity.
  - vm_compute. reflexivity.
Qed.

(** Line 152 lets a fraction and an infinity through. Half a minute after
    the replies have come in, at 1700000050120, the last two points of each
    sample history are in the window; no point is in a window whose start
    is an Invalid Date, and the coefficient is then 0. *)
Example stockCorrelation_windows :
  invalidMinutes decimalToNumber (QString "0.5") = false
  /\ invalidMinutes decimalToNumber (QString "Infinity") = false
  /\ invalidMinutes decimalToNumber (QString "0") = true
  /\ invalidMinutes decimalToNumber (QString "abc") = true
  /\ status (fst (stockCorrelation sampleUpstream sampleLatency decimalToNumber
                    halfMinuteRequest freshWorld)) = 200%nat
  /\ coefficientOf (fst (stockCorrelation sampleUpstream sampleLatency decimalToNumber
                           halfMinuteRequest freshWorld))
     = 0x1.ffffffffffffep-1%float
  /\ status (fst (stockCorrelation sampleUpstream sampleLatency decimalToNumber
                    infiniteRequest freshWorld)) = 200%nat
  /\ coefficientOf (fst (stockCorrelation sampleUpstream sampleLatency decimalToNumber
                           infiniteRequest freshWorld))
     = 0%float
  /\ status (fst (stockCorrelation sampleUpstream sampleLatency decimalToNumber
                    hugeWindowRequest freshWorld)) = 200%nat
  /\ coefficientOf (fst (stockCorrelation sampleUpstream sampleLatency decimalToNumber
                           hugeWindowRequest freshWorld))
     = 0%float.
Proof. repeat split; vm_compute; reflexivity. Qed.

(** * Further properties of the code *)

(** ** alignPriceHistories *)

Section AlignerMore.
Context {num : Type}.
Implicit Types (history series : PriceHistory num) (p a b : PricePoint num).

Lemma lookup_map {A B : Type} (f : A -> B) (l : list A) (i : nat) :
  map f l !! i = option_map f (l !! i).
Proof.
  revert i. induction l as [|x rest IH]; intros [|i]; cbn; auto.
Qed.







Lemma float64_mul_nan_l (x : float) : PrimFloat.mul nan x = nan.
Proof.
  apply Prim2SF_inj. rewrite mul_spec. reflexivity.
Qed.

Lemma float64_sub_nan_r (x : float) : PrimFloat.sub x nan = nan.
Proof.
  apply Prim2SF_inj. rewrite sub_spec.
  change (Prim2SF nan) with SpecFloat.S754_nan.
  destruct (Prim2SF x); reflexivity.
Qed.

(** The window that is NaN starts on an Invalid Date. *)
Lemma windowStart_nan (now : Z) : windowStart now (Double nan) = None.
Proof.
  unfold windowStart, numberMul, numberSub. cbn [toDouble].
  rewrite !float64_mul_nan_l, float64_sub_nan_r. reflexivity.
Qed.

(** X2. A window that is not a number, or a negative one, selects nothing:
    [alignPriceHistories] returns two empty arrays whatever the histories. *)
Theorem align_degenerate_window (now : Z) history1 history2 :
  alignPriceHistories now history1 history2 (Double nan) = ([], [])
  /\ (forall minutes : Z, minutes < 0 ->
      alignPriceHistories now history1 history2 (Integral minutes) = ([], [])).
Proof.
  split.
  - apply align_invalid_start, windowStart_nan.
  - intros minutes Hneg. rewrite align_integral.
    destruct (Z.abs (now - minutes * 60 * 1000) <=? maxTime); [|reflexivity].
    assert (restrictToWindow (now - minutes * 60 * 1000) now history1 = []) as ->;
      [|reflexivity].
    unfold restrictToWindow. induction history1 as [|p rest IH]; [reflexivity|].
    rewrite filter_cons, IH.
    destruct (decide (inWindow (now - minutes * 60 * 1000) now p)) as [Hin|_];
      [|reflexivity].
    unfold inWindow in Hin. destruct (lastUpdatedAt p); [lia|destruct Hin].
Qed.

Lemma pointsInWindow_timestamps (now : Z) (minutes : NumberValue) history :
  Forall (fun p => exists ts, lastUpdatedAt p = Some ts)
         (pointsInWindow now minutes history).
Proof.
  destruct (windowStart now minutes) as [startTime|] eqn:Hs.
  - rewrite (pointsInWindow_valid _ _ _ _ Hs). apply restrictToWindow_valid.
  - rewrite (pointsInWindow_invalid _ _ _ Hs). constructor.
Qed.

Lemma paired_at (now : Z) (minutes : NumberValue) history1 history2 a :
  pointsInWindow now minutes history2 <> [] ->
  a ∈ pointsInWindow now minutes history1 ->
  exists b, pairedWith (pointsInWindow now minutes history2) a = Some b.
Proof.
  intros Hne Ha.
  pose proof (pointsInWindow_timestamps now minutes history1) as HvalidA.
  rewrite Forall_forall in HvalidA. destruct (HvalidA a Ha) as [ta Hta].
  destruct (pairedWith_nearest ta a _ Hta Hne
              (pointsInWindow_timestamps now minutes history2))
    as (j & b & tb & _ & Hb).
  eauto.
Qed.

(** X3. [alignPriceHistories] returns no pair exactly when one of the two
    histories has no point in the window: none with a valid timestamp
    between the start that line 53 computes and the reading of the clock
    (none at all when that start is an Invalid Date). *)
Theorem align_empty_iff (now : Z) history1 history2 (minutes : NumberValue) :
  alignPriceHistories now history1 history2 minutes = ([], [])
  <-> pointsInWindow now minutes history1 = []
      \/ pointsInWindow now minutes history2 = [].
Proof.
  rewrite align_as_pushed.
  set (fA := pointsInWindow now minutes history1).
  set (fB := pointsInWindow now minutes history2).
  split.
  - intros Hempty.
    destruct fA as [|a restA] eqn:EA; [left; reflexivity|].
    destruct fB as [|b restB] eqn:EB; [right; reflexivity|].
    exfalso.
    destruct (pushed_all fB fA) as [H1 _].
    { intros a' Ha'. apply (paired_at now minutes history1 history2).
      - fold fB. rewrite EB. discriminate.
      - exact Ha'. }
    rewrite <- EA, <- EB in Hempty. injection Hempty as Hfst _.
    rewrite H1, EA in Hfst. discriminate.
  - intros [->| ->]; [reflexivity|].
    destruct (pushed_none fA) as [-> ->]. reflexivity.
Qed.



(** With pairwise distinct timestamps every point is its own nearest point. *)
Lemma nearestFirst_self (series : PriceHistory num) (i : nat) a (ta : Z) :
  NoDup (map lastUpdatedAt series) ->
  series !! i = Some a -> lastUpdatedAt a = Some ta ->
  nearestFirst ta series i a ta.
Proof.
  intros Hnd Hi Hta. repeat split; try assumption.
  - intros j' b' tb' _ _. lia.
  - intros j' b' tb' Hlt Hj' Htb'.
    assert (tb' <> ta) as Hne; [|lia].
    intros ->. 
    assert (j' = i) as Heq; [|lia].
    apply (NoDup_lookup (map lastUpdatedAt series) j' i (Some ta) Hnd).
    + rewrite lookup_map, Hj'. cbn. rewrite Htb'. reflexivity.
    + rewrite lookup_map, Hi. cbn. rewrite Hta. reflexivity.
Qed.

(** With pairwise distinct timestamps, aligning the points of a window with
    themselves pairs each with itself. *)
Lemma self_pairing (f : PriceHistory num) :
  NoDup (map lastUpdatedAt f) ->
  Forall (fun p => exists ts, lastUpdatedAt p = Some ts) f ->
  flat_map (pushed1 f) f = map price f /\ flat_map (pushed2 f) f = map price f.
Proof.
  intros Hndf Hvalid.
  destruct f as [|a0 rest] eqn:Ef; [split; reflexivity|]. rewrite <- Ef in *.
  assert (f <> []) as Hne by (rewrite Ef; discriminate).
  pose proof (proj1 (Forall_forall _ _) Hvalid) as Hts.
  destruct (pushed_all f f) as [H1 H2].
  { intros a Ha. destruct (Hts a Ha) as [ta Hta].
    destruct (pairedWith_nearest ta a f Hta Hne Hvalid) as (j & b & tb & _ & Hb).
    eauto. }
  split; [exact H1|].
  apply list_eq. intros i. rewrite lookup_map.
  destruct (f !! i) as [a|] eqn:Hi; cbn.
  - destruct (H2 i a Hi) as (b & Hb & Hl). rewrite Hl.
    destruct (Hts a) as [ta Hta]; [apply list_elem_of_lookup; eauto|].
    destruct (pairedWith_nearest ta a f Hta Hne Hvalid)
      as (j & b' & tb & Hn & Hb').
    assert (b' = b) as -> by congruence.
    destruct (nearestFirst_unique ta f j i b a tb ta Hn
                (nearestFirst_self f i a ta Hndf Hi Hta)) as [_ ->].
    reflexivity.
  - apply lookup_ge_None. apply lookup_ge_None in Hi.
    rewrite <- pushed_lengths, H1, length_map. exact Hi.
Qed.

Lemma points_timestamps_sublist (now : Z) (minutes : NumberValue) history :
  map lastUpdatedAt (pointsInWindow now minutes history)
    `sublist_of` map lastUpdatedAt history.
Proof.
  unfold pointsInWindow. induction history as [|p rest IH]; [constructor|].
  rewrite filter_cons. destruct (decide (inWindowAt now minutes p)); cbn [map].
  - apply sublist_skip. exact IH.
  - apply sublist_cons. exact IH.
Qed.

(** X5. Aligning a history whose points carry pairwise distinct timestamps
    with itself pairs every point of the window with itself: both arrays are
    the prices of the points in the window (those with a valid timestamp
    between the start that line 53 computes and the reading of the clock),
    in order. *)
Theorem align_with_itself (now : Z) history (minutes : NumberValue) :
  NoDup (map lastUpdatedAt history) ->
  alignPriceHistories now history history minutes
  = (map price (pointsInWindow now minutes history),
     map price (pointsInWindow now minutes history)).
Proof.
  intros Hnd. rewrite align_as_pushed.
  destruct (self_pairing (pointsInWindow now minutes history)) as [-> ->].
  - exact (sublist_NoDup _ _ Hnd (points_timestamps_sublist _ _ _)).
  - apply pointsInWindow_timestamps.
  - reflexivity.
Qed.

End AlignerMore.


Lemma align_with_itself_witness :
  alignPriceHistories 1700000075000 sampleA sampleA (Double 0.5)
  = (map price (pointsInWindow 1700000075000 (Double 0.5) sampleA),
     map price (pointsInWindow 1700000075000 (Double 0.5) sampleA)).
Proof.
  apply (align_with_itself 1700000075000 sampleA (Double 0.5)).
  apply (bool_decide_unpack _). vm_compute. reflexivity.
Defined.

(** Half a minute before 1700000075000 only the last point of the sample
    is in the window; with a window of 200000000000 minutes none is. *)
Example align_with_itself_samples :
  alignPriceHistories 1700000075000 sampleA sampleA (Double 0.5)
  = ([4%float], [4%float])
  /\ alignPriceHistories 1700000075000 sampleA sampleA (Integral 200000000000)
     = ([], [])
  /\ pointsInWindow 1700000075000 (Integral 200000000000) sampleA = [].
Proof. repeat split; vm_compute; reflexivity. Qed.

(** ** calculateCorrelation in binary64: series of unequal length *)

Section Float64More.
Local Open Scope float_scope.

Lemma Prim2SF_nan : Prim2SF nan = SpecFloat.S754_nan.
Proof. reflexivity. Qed.

Lemma float64_add_nan_l (x : float) : nan + x = nan.
Proof.
  apply Prim2SF_inj. rewrite add_spec, Prim2SF_nan. reflexivity.
Qed.

Lemma float64_add_nan_r (x : float) : x + nan = nan.
Proof.
  apply Prim2SF_inj. rewrite add_spec, Prim2SF_nan.
  destruct (Prim2SF x); reflexivity.
Qed.

Lemma float64_mul_nan_r (x : float) : x * nan = nan.
Proof.
  apply Prim2SF_inj. rewrite mul_spec, Prim2SF_nan.
  destruct (Prim2SF x); reflexivity.
Qed.

Lemma float64_div_nan_l (x : float) : nan / x = nan.
Proof.
  apply Prim2SF_inj. rewrite div_spec, Prim2SF_nan. reflexivity.
Qed.

Lemma float64_div_nan_r (x : float) : x / nan = nan.
Proof.
  apply Prim2SF_inj. rewrite div_spec, Prim2SF_nan.
  destruct (Prim2SF x); reflexivity.
Qed.

Lemma float64_sqrt_nan : PrimFloat.sqrt nan = nan.
Proof. reflexivity. Qed.

(** Past the end of the second series every turn of the loop makes the
    covariance and the second sum of squares NaN, and they stay NaN. *)
Lemma correlation_loop_nan (prices1 prices2 : list float) (mean1 mean2 : float)
    (indices : list nat) (cov s1 s2 : float) :
  (cov = nan /\ s2 = nan)
  \/ (exists i, In i indices /\ (length prices2 <= i)%nat) ->
  exists t1,
    fold_left (correlationStep prices1 prices2 mean1 mean2) indices (cov, s1, s2)
    = (nan, t1, nan).
Proof.
  revert cov s1 s2. induction indices as [|i rest IH]; intros cov s1 s2 H.
  - destruct H as [[-> ->]|(i & [] & _)]. exists s1. reflexivity.
  - cbn [fold_left]. unfold correlationStep at 2. apply IH.
    change (@nadd float float64) with PrimFloat.add.
    change (@nmul float float64) with PrimFloat.mul.
    destruct H as [[-> ->]|(j & [<-|Hin] & Hj)].
    + left. rewrite !float64_add_nan_l. split; reflexivity.
    + left. unfold deviation at 2 3 4.
      rewrite (proj2 (lookup_ge_None prices2 i) Hj).
      change (@nnan float float64) with nan.
      rewrite !float64_mul_nan_r, !float64_add_nan_r. split; reflexivity.
    + right. exists j. split; assumption.
Qed.

(** X8. In binary64, when the second series is shorter than the first (and
    has at least 2 points) the function does not fail: the deviations of the
    missing points are NaN, and the result is NaN, unless the deviation
    computed for the first series is 0, in which case the guard returns 0. *)
Theorem correlation_shorter_second_series (prices1 prices2 : list float) :
  (2 <= length prices2)%nat -> (length prices2 < length prices1)%nat ->
  calculateCorrelation prices1 prices2
  = if nis0 (computedStdDev1 prices1 prices2) then 0 else nan.
Proof.
  intros H2 Hlt. unfold calculateCorrelation, computedStdDev1.
  rewrite correlationExit_long by lia.
  unfold correlationMoments.
  destruct (correlation_loop_nan prices1 prices2
              (ndiv (fold_left (fun sum x => nadd sum x) prices1 nzero)
                    (nlen (length prices1)))
              (ndiv (fold_left (fun sum y => nadd sum y) prices2 nzero)
                    (nlen (length prices1)))
              (seq 0 (length prices1)) nzero nzero nzero) as [t1 ->].
  { right. exists (length prices2). split; [|lia]. apply in_seq. lia. }
  cbn [fst snd].
  change (@ndiv float float64) with PrimFloat.div.
  change (@nsqrt float float64) with PrimFloat.sqrt.
  change (@nmul float float64) with PrimFloat.mul.
  rewrite !float64_div_nan_l, float64_sqrt_nan.
  assert (nis0 nan = false) as -> by reflexivity.
  rewrite orb_false_r.
  destruct (nis0 _); [reflexivity|].
  rewrite float64_mul_nan_r, float64_div_nan_l. reflexivity.
Qed.

Lemma correlation_shorter_second_series_witness :
  calculateCorrelation [1; 2; 4] [3; 1]
  = if nis0 (computedStdDev1 [1; 2; 4] [3; 1]) then 0 else nan.
Proof.
  apply (correlation_shorter_second_series [1; 2; 4] [3; 1]); cbn; lia.
Defined.

End Float64More.

(** ** fetchStockPriceHistory: keys, failures, isolation *)

Section KeyFacts.

Lemma append_empty (s : string) : EmptyString +:+ s = s.
Proof. reflexivity. Qed.

Lemma append_String (c : Ascii.ascii) (s r : string) :
  String c s +:+ r = String c (s +:+ r).
Proof. reflexivity. Qed.

Lemma containsColon_after (prefix suffix : string) :
  containsColon (prefix +:+ String (Ascii.ascii_of_nat 58) suffix) = true.
Proof.
  induction prefix as [|c rest IH].
  - reflexivity.
  - rewrite append_String. cbn [containsColon]. rewrite IH. apply orb_true_r.
Qed.

Lemma colon_split (ticker1 minutes1 ticker2 minutes2 : string) :
  containsColon minutes1 = false -> containsColon minutes2 = false ->
  ticker1 +:+ String (Ascii.ascii_of_nat 58) minutes1
  = ticker2 +:+ String (Ascii.ascii_of_nat 58) minutes2 ->
  ticker1 = ticker2 /\ minutes1 = minutes2.
Proof.
  intros H1 H2. revert ticker2.
  induction ticker1 as [|c rest IH]; intros [|c2 rest2] Heq;
    rewrite ?append_String, ?append_empty in Heq.
  - injection Heq as ->. split; reflexivity.
  - injection Heq as _ ->. rewrite containsColon_after in H1. discriminate.
  - injection Heq as _ <-. rewrite containsColon_after in H2. discriminate.
  - injection Heq as -> Heq. destruct (IH rest2 Heq) as [-> ->].
    split; reflexivity.
Qed.

(** X9. The cache key separates requests: when neither minutes string holds
    a colon, two requests have the same key only if they have the same
    ticker and the same minutes. *)
Theorem cache_key_injective (ticker1 minutes1 ticker2 minutes2 : string) :
  containsColon minutes1 = false -> containsColon minutes2 = false ->
  ticker1 +:+ ":" +:+ minutes1 = ticker2 +:+ ":" +:+ minutes2 ->
  ticker1 = ticker2 /\ minutes1 = minutes2.
Proof.
  intros H1 H2 Heq. apply colon_split; [exact H1|exact H2|exact Heq].
Qed.

Lemma cache_key_injective_witness :
  "AAPL" = "AAPL" /\ "60" = "60".
Proof.
  apply (cache_key_injective "AAPL" "60" "AAPL" "60"); reflexivity.
Defined.

Lemma length_append (s r : string) :
  String.length (s +:+ r) = (String.length s + String.length r)%nat.
Proof.
  induction s as [|c rest IH]; [reflexivity|].
  rewrite append_String. cbn [String.length]. rewrite IH. reflexivity.
Qed.

(** Two tickers give different keys for the same minutes. *)
Lemma cache_key_ticker (ticker1 ticker2 minutes : string) :
  ticker1 +:+ ":" +:+ minutes = ticker2 +:+ ":" +:+ minutes -> ticker1 = ticker2.
Proof.
  revert ticker2. induction ticker1 as [|c rest IH]; intros [|c2 rest2] Heq;
    rewrite ?append_String, ?append_empty in Heq.
  - reflexivity.
  - exfalso. injection Heq as _ Heq.
    apply (f_equal String.length) in Heq.
    rewrite !length_append in Heq. cbn [String.length] in Heq. lia.
  - exfalso. injection Heq as _ Heq.
    apply (f_equal String.length) in Heq.
    rewrite !length_append in Heq. cbn [String.length] in Heq. lia.
  - injection Heq as -> Heq. f_equal. apply IH. exact Heq.
Qed.

End KeyFacts.

Section FetcherMore.
Context {num : Type}.
Variable upstream : nat -> string -> string -> UpstreamReply num.
Variable latency : nat -> nat.

(** A lookup that misses keeps missing as time goes by. *)
Lemma cacheGet_None_later (data : gmap string (CacheEntry num)) (now later : Z)
    (key : string) :
  cacheGet data now key = None -> now <= later -> cacheGet data later key = None.
Proof.
  unfold cacheGet. destruct (data !! key) as [entry|]; [|reflexivity].
  destruct (Z.ltb_spec (t entry) now) as [Hlt|Hge]; [|discriminate].
  intros _ Hlater.
  assert ((t entry <? later) = true) as -> by (apply Z.ltb_lt; lia).
  reflexivity.
Qed.

Lemma cacheGet_same_entry (data1 data2 : gmap string (CacheEntry num)) (now : Z)
    (key : string) :
  data1 !! key = data2 !! key -> cacheGet data1 now key = cacheGet data2 now key.
Proof. unfold cacheGet. intros ->. reflexivity. Qed.

(** A fetch that throws went to the feed and was refused. *)
Lemma fetch_thrown (ticker minutes : string) (w w' : World num) (message : string) :
  fetchStockPriceHistory upstream latency ticker minutes w = (Thrown message, w') ->
  cacheGet (cache w) (clock w) (ticker +:+ ":" +:+ minutes) = None
  /\ exists reason,
       upstream (length (upstreamCalls w)) ticker minutes = ReplyFailure reason
       /\ message = "Failed to fetch data for " +:+ ticker +:+ ": " +:+ reason
       /\ w' = {| clock := clock w + Z.of_nat (latency (length (upstreamCalls w)));
                  cache := cache w;
                  upstreamCalls := upstreamCalls w ++ [(ticker, minutes)] |}.
Proof.
  intros Hfetch.
  destruct (cacheGet (cache w) (clock w) (ticker +:+ ":" +:+ minutes))
    as [cached|] eqn:Hget.
  - rewrite (fetch_hit upstream latency ticker minutes w cached Hget) in Hfetch.
    discriminate.
  - split; [reflexivity|].
    rewrite (fetch_miss upstream latency ticker minutes w Hget) in Hfetch.
    destruct (upstream _ ticker minutes) as [d|stock|reason]; try discriminate.
    injection Hfetch as <- <-. exists reason. auto.
Qed.

(** X10. A failed fetch is not cached. When [fetchStockPriceHistory] throws,
    the feed rejected the one request it issued, the message is
    [Failed to fetch data for <ticker>: <reason>], and the cache is left as
    it was; so every later fetch of the same key, while the cache holds the
    same entry for it, goes to the feed again. *)
Theorem failed_fetch_not_cached (ticker minutes : string) (w w' : World num)
    (message : string) :
  fetchStockPriceHistory upstream latency ticker minutes w = (Thrown message, w') ->
  cache w' = cache w
  /\ upstreamCalls w' = upstreamCalls w ++ [(ticker, minutes)]
  /\ (exists reason,
        upstream (length (upstreamCalls w)) ticker minutes = ReplyFailure reason
        /\ message = "Failed to fetch data for " +:+ ticker +:+ ": " +:+ reason)
  /\ (forall w2 : World num,
        cache w2 !! (ticker +:+ ":" +:+ minutes)
        = cache w' !! (ticker +:+ ":" +:+ minutes) ->
        clock w <= clock w2 ->
        upstreamCalls (snd (fetchStockPriceHistory upstream latency ticker minutes w2))
        = upstreamCalls w2 ++ [(ticker, minutes)]).
Proof.
  intros Hfetch.
  destruct (fetch_thrown ticker minutes w w' message Hfetch)
    as (Hmiss & reason & Hreply & Hmsg & ->).
  cbn [cache upstreamCalls]. repeat split.
  - exists reason. split; assumption.
  - intros w2 Hsame Hlater. apply fetch_miss_calls.
    rewrite (cacheGet_same_entry _ (cache w) _ _ Hsame).
    exact (cacheGet_None_later _ _ _ _ Hmiss Hlater).
Qed.

(** X11. A fetch changes the cache under its own key only: with minutes
    that hold no colon, what the cache answers for any other pair of ticker
    and minutes, at any instant, is the same before and after the fetch. *)
Theorem fetch_leaves_other_requests (ticker minutes ticker' minutes' : string)
    (w : World num) (now : Z) :
  containsColon minutes = false -> containsColon minutes' = false ->
  (ticker', minutes') <> (ticker, minutes) ->
  cacheGet (cache (snd (fetchStockPriceHistory upstream latency ticker minutes w)))
           now (ticker' +:+ ":" +:+ minutes')
  = cacheGet (cache w) now (ticker' +:+ ":" +:+ minutes').
Proof.
  intros Hc Hc' Hne.
  assert (ticker +:+ ":" +:+ minutes <> ticker' +:+ ":" +:+ minutes') as Hkey.
  { intros Heq. apply Hne.
    destruct (colon_split ticker minutes ticker' minutes' Hc Hc' Heq) as [-> ->].
    reflexivity. }
  destruct (cacheGet (cache w) (clock w) (ticker +:+ ":" +:+ minutes))
    as [cached|] eqn:Hget.
  - rewrite (fetch_hit upstream latency ticker minutes w cached Hget). reflexivity.
  - rewrite (fetch_miss upstream latency ticker minutes w Hget).
    destruct (upstream _ ticker minutes); cbn [snd cache];
      try reflexivity; apply cacheGet_set_other; exact Hkey.
Qed.

End FetcherMore.

Lemma failed_fetch_not_cached_witness :
  cache {| clock := 1700000050120; cache := ∅;
           upstreamCalls := [("AAPL", "60")] |} = cache freshWorld
  /\ upstreamCalls {| clock := 1700000050120; cache := (∅ : gmap string (CacheEntry float));
                      upstreamCalls := [("AAPL", "60")] |}
     = upstreamCalls freshWorld ++ [("AAPL", "60")]
  /\ (exists reason,
        failingUpstream (length (upstreamCalls freshWorld)) "AAPL" "60"
        = ReplyFailure reason
        /\ "Failed to fetch data for AAPL: Request failed with status code 503"
           = "Failed to fetch data for " +:+ "AAPL" +:+ ": " +:+ reason)
  /\ (forall w2 : World float,
        cache w2 !! ("AAPL" +:+ ":" +:+ "60")
        = cache {| clock := 1700000050120; cache := ∅;
                   upstreamCalls := [("AAPL", "60")] |} !! ("AAPL" +:+ ":" +:+ "60") ->
        clock freshWorld <= clock w2 ->
        upstreamCalls
          (snd (fetchStockPriceHistory failingUpstream sampleLatency "AAPL" "60" w2))
        = upstreamCalls w2 ++ [("AAPL", "60")]).
Proof.
  apply (failed_fetch_not_cached failingUpstream sampleLatency "AAPL" "60" freshWorld
           {| clock := 1700000050120; cache := ∅; upstreamCalls := [("AAPL", "60")] |}
           "Failed to fetch data for AAPL: Request failed with status code 503").
  vm_compute. reflexivity.
Defined.

Lemma fetch_leaves_other_requests_witness :
  cacheGet (cache (snd (fetchStockPriceHistory sampleUpstream sampleLatency
                          "MSFT" "60" cachedWorld)))
           1700000060000 ("AAPL" +:+ ":" +:+ "60")
  = cacheGet (cache cachedWorld) 1700000060000 ("AAPL" +:+ ":" +:+ "60").
Proof.
  apply (fetch_leaves_other_requests sampleUpstream sampleLatency
           "MSFT" "60" "AAPL" "60" cachedWorld 1700000060000).
  - reflexivity.
  - reflexivity.
  - intros H. discriminate H.
Defined.

(** ** Promise.all of the two fetches *)

Section FetchBothFacts.
Context {num : Type}.
Variable upstream : nat -> string -> string -> UpstreamReply num.
Variable latency : nat -> nat.

Lemma fetchBegin_world (ticker minutes : string) (w : World num) :
  clock (snd (fetchBegin latency ticker minutes w)) = clock w
  /\ cache (snd (fetchBegin latency ticker minutes w)) = cache w
  /\ upstreamCalls (snd (fetchBegin latency ticker minutes w))
     = upstreamCalls w
       ++ match cacheGet (cache w) (clock w) (ticker +:+ ":" +:+ minutes) with
          | None => [(ticker, minutes)]
          | Some _ => []
          end.
Proof.
  unfold fetchBegin.
  destruct (cacheGet (cache w) (clock w) (ticker +:+ ":" +:+ minutes));
    cbn [snd clock cache upstreamCalls]; rewrite ?app_nil_r; auto.
Qed.

Lemma settle_calls (ticker minutes : string) (s : FetchState num) (w : World num) :
  upstreamCalls (snd (settle upstream ticker minutes s w)) = upstreamCalls w.
Proof.
  destruct s as [data|k arrival]; [reflexivity|].
  unfold settle, fetchResume. destruct (upstream k ticker minutes); reflexivity.
Qed.

(** X12. [Promise.all] looks both tickers up before either reply is stored:
    [fetchBoth] issues one request for each ticker whose lookup misses in the
    cache as it stands at the start, in the order of the tickers. Two equal
    tickers that miss are therefore requested twice. *)
Theorem fetchBoth_requests (ticker1 ticker2 minutes : string) (w : World num) :
  upstreamCalls (snd (fetchBoth upstream latency ticker1 ticker2 minutes w))
  = upstreamCalls w
    ++ match cacheGet (cache w) (clock w) (ticker1 +:+ ":" +:+ minutes) with
       | None => [(ticker1, minutes)]
       | Some _ => []
       end
    ++ match cacheGet (cache w) (clock w) (ticker2 +:+ ":" +:+ minutes) with
       | None => [(ticker2, minutes)]
       | Some _ => []
       end.
Proof.
  unfold fetchBoth.
  destruct (fetchBegin_world ticker1 minutes w) as (Hc1 & Hd1 & Hu1).
  destruct (fetchBegin latency ticker1 minutes w) as [s1 w1]. cbn [snd] in *.
  destruct (fetchBegin_world ticker2 minutes w1) as (Hc2 & Hd2 & Hu2).
  destruct (fetchBegin latency ticker2 minutes w1) as [s2 w2]. cbn [snd] in *.
  rewrite Hd1, Hc1 in Hu2. rewrite Hu1 in Hu2. rewrite <- app_assoc in Hu2.
  rewrite <- Hu2.
  destruct (settlesAt s1 w2 <=? settlesAt s2 w2).
  - pose proof (settle_calls ticker1 minutes s1 w2) as H3.
    destruct (settle upstream ticker1 minutes s1 w2) as [r1 w3]. cbn [snd] in *.
    pose proof (settle_calls ticker2 minutes s2 w3) as H4.
    destruct (settle upstream ticker2 minutes s2 w3) as [r2 w4]. cbn [snd] in *.
    congruence.
  - pose proof (settle_calls ticker2 minutes s2 w2) as H3.
    destruct (settle upstream ticker2 minutes s2 w2) as [r2 w3]. cbn [snd] in *.
    pose proof (settle_calls ticker1 minutes s1 w3) as H4.
    destruct (settle upstream ticker1 minutes s1 w3) as [r1 w4]. cbn [snd] in *.
    congruence.
Qed.

End FetchBothFacts.

(** Both fetches of the same ticker on an empty cache go to the feed. *)
Example fetchBoth_same_ticker_twice :
  upstreamCalls (snd (fetchBoth sampleUpstream sampleLatency "AAPL" "AAPL" "60"
                        freshWorld))
  = [("AAPL", "60"); ("AAPL", "60")].
Proof. vm_compute. reflexivity. Qed.

(** ** The average operation *)

Section AverageFacts.
Context {num : Type} {N : JSNumber num}.
Variable upstream : nat -> string -> string -> UpstreamReply num.
Variable latency : nat -> nat.
Variable StringToNumber : string -> NumberValue.

Local Abbreviation average := (stockAverage upstream latency StringToNumber).

Lemma notAverage_false (aggregation : QueryValue) :
  notAverage aggregation = false <-> aggregation = QString "average".
Proof.
  destruct aggregation as [|s|items|]; cbn; try (split; discriminate).
  rewrite negb_false_iff, String.eqb_eq. split; [intros ->|intros [= ->]];
    reflexivity.
Qed.

Lemma notAverage_true (aggregation : QueryValue) :
  notAverage aggregation = true <-> aggregation <> QString "average".
Proof.
  rewrite <- notAverage_false. destruct (notAverage aggregation); split;
    intros; congruence.
Qed.

(** What a successful fetch returns is what the cache holds for the key
    when the fetch is over. *)
Lemma fetch_returned_entry (ticker minutes : string) (w w' : World num)
    (history : PriceHistory num) :
  fetchStockPriceHistory upstream latency ticker minutes w = (Returned history, w') ->
  exists entry, cache w' !! (ticker +:+ ":" +:+ minutes) = Some entry
                /\ v entry = history.
Proof.
  intros Hfetch.
  destruct (cacheGet (cache w) (clock w) (ticker +:+ ":" +:+ minutes))
    as [cached|] eqn:Hget.
  - rewrite (fetch_hit upstream latency ticker minutes w cached Hget) in Hfetch.
    injection Hfetch as <- <-. unfold cacheGet in Hget.
    destruct (cache w !! (ticker +:+ ":" +:+ minutes)) as [entry|]; [|discriminate].
    destruct (t entry <? clock w); [discriminate|].
    injection Hget as <-. eauto.
  - rewrite (fetch_miss upstream latency ticker minutes w Hget) in Hfetch.
    destruct (upstream _ ticker minutes) as [d|stock|reason]; try discriminate;
      injection Hfetch as <- <-; cbn [cache]; unfold cacheSet;
      rewrite lookup_insert_eq; eauto.
Qed.

(** The three ways the handler answers. *)
Lemma average_cases (req : AverageRequest) (w : World num) :
  (notAverage (a_aggregation req) || invalidMinutes StringToNumber (a_minutes req) = true
   /\ a_status (fst (average req w)) = 400%nat /\ snd (average req w) = w)
  \/ (notAverage (a_aggregation req) || invalidMinutes StringToNumber (a_minutes req) = false
      /\ exists history,
          fetchStockPriceHistory upstream latency (p_ticker req)
            (ToString (a_minutes req)) w = (Returned history, snd (average req w))
          /\ fst (average req w)
             = {| a_status := 200;
                  a_body := AverageResult (calculateAveragePrice (Some history))
                                          history |})
  \/ (notAverage (a_aggregation req) || invalidMinutes StringToNumber (a_minutes req) = false
      /\ exists message,
          fetchStockPriceHistory upstream latency (p_ticker req)
            (ToString (a_minutes req)) w = (Thrown message, snd (average req w))
          /\ fst (average req w)
             = {| a_status := 500; a_body := AverageError message |}).
Proof.
  unfold stockAverage.
  destruct (notAverage (a_aggregation req)); [left; auto|].
  destruct (invalidMinutes StringToNumber (a_minutes req)); [left; auto|].
  destruct (fetchStockPriceHistory _ _ _ _ _) as [[history|message] w'].
  - right. left. split; [reflexivity|]. exists history. auto.
  - right. right. split; [reflexivity|]. exists message. auto.
Qed.

(** X13. The average operation answers 400 exactly when the aggregation
    parameter is not the string [average] or the minutes are invalid; a 400
    answer leaves the cache alone and calls no feed; every other answer is
    200 or 500. *)
Theorem stockAverage_validation (req : AverageRequest) (w : World num) :
  (a_status (fst (average req w)) = 400%nat
   <-> a_aggregation req <> QString "average"
       \/ invalidMinutes StringToNumber (a_minutes req) = true)
  /\ (a_status (fst (average req w)) = 400%nat -> snd (average req w) = w)
  /\ (a_status (fst (average req w)) = 400%nat
      \/ a_status (fst (average req w)) = 200%nat
      \/ a_status (fst (average req w)) = 500%nat).
Proof.
  rewrite <- notAverage_true.
  destruct (average_cases req w)
    as [(Hbad & Hst & Hw)|[(Hok & h & _ & Hres)|(Hok & m & _ & Hres)]].
  - apply orb_true_iff in Hbad. split; [|split].
    + split; intros _; assumption.
    + intros _. exact Hw.
    + left. exact Hst.
  - apply orb_false_iff in Hok as [Ha Hm]. rewrite Hres. cbn [a_status].
    split; [|split].
    + split; [discriminate|]. intros [H|H]; congruence.
    + discriminate.
    + right. left. reflexivity.
  - apply orb_false_iff in Hok as [Ha Hm]. rewrite Hres. cbn [a_status].
    split; [|split].
    + split; [discriminate|]. intros [H|H]; congruence.
    + discriminate.
    + right. right. reflexivity.
Qed.

(** X14. A 500 answer of the average operation means that the request went
    to the feed and was rejected: the body carries
    [Failed to fetch data for <ticker>: <reason>], one request was issued,
    and nothing was stored in the cache. *)
Theorem stockAverage_failure (req : AverageRequest) (w : World num) :
  a_status (fst (average req w)) = 500%nat ->
  exists reason,
    upstream (length (upstreamCalls w)) (p_ticker req) (ToString (a_minutes req))
    = ReplyFailure reason
    /\ a_body (fst (average req w))
       = AverageError ("Failed to fetch data for " +:+ p_ticker req +:+ ": " +:+ reason)
    /\ cache (snd (average req w)) = cache w
    /\ upstreamCalls (snd (average req w))
       = upstreamCalls w ++ [(p_ticker req, ToString (a_minutes req))].
Proof.
  intros H500.
  destruct (average_cases req w)
    as [(_ & Hst & _)|[(_ & h & _ & Hres)|(_ & m & Hfetch & Hres)]].
  - rewrite Hst in H500. discriminate.
  - rewrite Hres in H500. discriminate.
  - destruct (fetch_thrown upstream latency _ _ _ _ _ Hfetch)
      as (_ & reason & Hreply & -> & Hw).
    exists reason. rewrite Hres, Hw. cbn [a_body cache upstreamCalls]. auto.
Qed.

(** X15. A request that was answered 200 is answered the same again, from
    the cache and without a call to the feed, in every world that holds the
    same entry for its key, for as long as that entry has not expired. *)
Theorem stockAverage_repeat (req : AverageRequest) (w w2 : World num) :
  a_status (fst (average req w)) = 200%nat ->
  cache w2 !! (p_ticker req +:+ ":" +:+ ToString (a_minutes req))
  = cache (snd (average req w)) !! (p_ticker req +:+ ":" +:+ ToString (a_minutes req)) ->
  cacheGet (cache w2) (clock w2) (p_ticker req +:+ ":" +:+ ToString (a_minutes req))
  <> None ->
  average req w2 = (fst (average req w), w2).
Proof.
  intros H200 Hsame Hfresh.
  destruct (average_cases req w)
    as [(_ & Hst & _)|[(Hok & h & Hfetch & Hres)|(_ & m & _ & Hres)]].
  - rewrite Hst in H200. discriminate.
  - destruct (fetch_returned_entry _ _ _ _ _ Hfetch) as (entry & Hentry & Hv).
    assert (cacheGet (cache w2) (clock w2)
              (p_ticker req +:+ ":" +:+ ToString (a_minutes req)) = Some h) as Hhit.
    { unfold cacheGet in *. rewrite Hsame, Hentry in *.
      destruct (t entry <? clock w2); [congruence|]. rewrite Hv. reflexivity. }
    rewrite Hres. unfold stockAverage.
    apply orb_false_iff in Hok as [-> ->].
    rewrite (fetch_hit upstream latency _ _ w2 h Hhit). reflexivity.
  - rewrite Hres in H200. discriminate.
Qed.

End AverageFacts.

Lemma stockAverage_failure_witness :
  exists reason,
    failingUpstream (length (upstreamCalls freshWorld)) "AAPL" (ToString (QString "60"))
    = ReplyFailure reason
    /\ a_body (fst (stockAverage failingUpstream sampleLatency (digitsToNumber 0)
                     averageRequest freshWorld))
       = AverageError ("Failed to fetch data for " +:+ "AAPL" +:+ ": " +:+ reason)
    /\ cache (snd (stockAverage failingUpstream sampleLatency (digitsToNumber 0)
                    averageRequest freshWorld))
       = cache freshWorld
    /\ upstreamCalls (snd (stockAverage failingUpstream sampleLatency (digitsToNumber 0)
                            averageRequest freshWorld))
       = upstreamCalls freshWorld ++ [("AAPL", ToString (QString "60"))].
Proof.
  apply (stockAverage_failure failingUpstream sampleLatency (digitsToNumber 0)
           averageRequest freshWorld).
  vm_compute. reflexivity.
Defined.

Lemma stockAverage_repeat_witness :
  stockAverage sampleUpstream sampleLatency (digitsToNumber 0) averageRequest
    (elapse 200000 cachedWorld)
  = (fst (stockAverage sampleUpstream sampleLatency (digitsToNumber 0) averageRequest
            freshWorld),
     elapse 200000 cachedWorld).
Proof.
  apply (stockAverage_repeat sampleUpstream sampleLatency (digitsToNumber 0)
           averageRequest freshWorld (elapse 200000 cachedWorld)).
  - vm_compute. reflexivity.
  - vm_compute. reflexivity.
  - vm_compute. discriminate.
Defined.

(** The end-to-end example of the specification, in binary64: prices 100
    and 200 give the average 150. *)
Example stockAverage_100_200 :
  fst (stockAverage
         (fun _ _ _ => ReplyArray
            [ {| price := 100%float; lastUpdatedAt := Some 1700000000000 |};
              {| price := 200%float; lastUpdatedAt := Some 1700000030000 |} ])
         sampleLatency (digitsToNumber 0) averageRequest freshWorld)
  = {| a_status := 200;
       a_body := AverageResult 150%float
         [ {| price := 100%float; lastUpdatedAt := Some 1700000000000 |};
           {| price := 200%float; lastUpdatedAt := Some 1700000030000 |} ] |}.
Proof. vm_compute. reflexivity. Qed.

(** ** The correlation operation: failures and repetition *)

Section FetchBothMore.
Context {num : Type}.
Variable upstream : nat -> string -> string -> UpstreamReply num.
Variable latency : nat -> nat.

Lemma cacheGet_Some_entry (data : gmap string (CacheEntry num)) (now : Z)
    (key : string) (history : PriceHistory num) :
  cacheGet data now key = Some history ->
  exists entry, data !! key = Some entry /\ v entry = history.
Proof.
  unfold cacheGet. destruct (data !! key) as [entry|]; [|discriminate].
  destruct (t entry <? now); [discriminate|]. intros [= <-]. eauto.
Qed.

Lemma cacheGet_fresh_entry (data : gmap string (CacheEntry num)) (now : Z)
    (key : string) (entry : CacheEntry num) :
  data !! key = Some entry -> cacheGet data now key <> None ->
  cacheGet data now key = Some (v entry).
Proof.
  unfold cacheGet. intros ->. destruct (t entry <? now); congruence.
Qed.

(** When both fetches succeed, the cache ends up holding, under each of two
    different keys, the history returned for it. *)
Lemma fetchBoth_returned_entries (ticker1 ticker2 minutes : string)
    (w w' : World num) (history1 history2 : PriceHistory num) :
  fetchBoth upstream latency ticker1 ticker2 minutes w
  = (Returned (history1, history2), w') ->
  ticker1 +:+ ":" +:+ minutes <> ticker2 +:+ ":" +:+ minutes ->
  (exists e1, cache w' !! (ticker1 +:+ ":" +:+ minutes) = Some e1 /\ v e1 = history1)
  /\ (exists e2, cache w' !! (ticker2 +:+ ":" +:+ minutes) = Some e2 /\ v e2 = history2).
Proof.
  intros Hfb Hne. unfold fetchBoth, fetchBegin in Hfb.
  destruct (cacheGet (cache w) (clock w) (ticker1 +:+ ":" +:+ minutes))
    as [c1|] eqn:G1;
  cbn [clock cache upstreamCalls] in Hfb;
  destruct (cacheGet (cache w) (clock w) (ticker2 +:+ ":" +:+ minutes))
    as [c2|] eqn:G2;
  cbn [clock cache upstreamCalls settlesAt settle] in Hfb;
  unfold fetchResume in Hfb;
  try (apply cacheGet_Some_entry in G1 as (e1 & He1 & Hv1));
  try (apply cacheGet_Some_entry in G2 as (e2 & He2 & Hv2));
  repeat match type of Hfb with
         | context [if ?b then _ else _] => destruct b
         | context [match upstream ?k ?t ?m with _ => _ end] =>
             destruct (upstream k t m)
         end;
  cbn [clock cache upstreamCalls] in Hfb;
  try discriminate; injection Hfb as <- <- <-;
  cbn [cache]; unfold cacheSet;
  rewrite ?lookup_insert_eq, ?lookup_insert_ne by congruence;
  rewrite ?lookup_insert_eq;
  split; eauto.
Qed.

(** A failed [Promise.all] carries the error of one of the two requests it
    issued. *)
Lemma fetchBoth_thrown (ticker1 ticker2 minutes : string) (w w' : World num)
    (message : string) :
  fetchBoth upstream latency ticker1 ticker2 minutes w = (Thrown message, w') ->
  exists ticker k reason,
    (ticker = ticker1 \/ ticker = ticker2)
    /\ (length (upstreamCalls w) <= k)%nat
    /\ upstreamCalls w' !! k = Some (ticker, minutes)
    /\ upstream k ticker minutes = ReplyFailure reason
    /\ message = "Failed to fetch data for " +:+ ticker +:+ ": " +:+ reason.
Proof.
  intros Hfb. unfold fetchBoth, fetchBegin in Hfb.
  destruct (cacheGet (cache w) (clock w) (ticker1 +:+ ":" +:+ minutes))
    as [c1|] eqn:G1;
  cbn [clock cache upstreamCalls] in Hfb;
  destruct (cacheGet (cache w) (clock w) (ticker2 +:+ ":" +:+ minutes))
    as [c2|] eqn:G2;
  cbn [clock cache upstreamCalls settlesAt settle] in Hfb;
  unfold fetchResume in Hfb;
  repeat match type of Hfb with
         | context [if ?b then _ else _] => destruct b
         | context [match upstream ?k ?t ?m with _ => _ end] =>
             let E := fresh "E" in destruct (upstream k t m) eqn:E
         end;
  cbn [clock cache upstreamCalls] in Hfb;
  try discriminate; injection Hfb as <- <-; cbn [upstreamCalls];
  rewrite ?length_app in *; cbn [length] in *;
  first
    [ exists ticker1, (length (upstreamCalls w)); eexists;
      split; [left; reflexivity|]; split; [lia|];
      split; [|split; [eassumption|reflexivity]];
      rewrite <- ?app_assoc; apply list_lookup_middle; reflexivity
    | exists ticker2, (length (upstreamCalls w)); eexists;
      split; [right; reflexivity|]; split; [lia|];
      split; [|split; [eassumption|reflexivity]];
      rewrite <- ?app_assoc; apply list_lookup_middle; reflexivity
    | exists ticker2, (length (upstreamCalls w) + 1)%nat; eexists;
      split; [right; reflexivity|]; split; [lia|];
      split; [|split; [eassumption|reflexivity]];
      apply list_lookup_middle; rewrite length_app; reflexivity ].
Qed.

End FetchBothMore.

Section ServiceMore.
Context {num : Type} {N : JSNumber num}.
Variable upstream : nat -> string -> string -> UpstreamReply num.
Variable latency : nat -> nat.
Variable StringToNumber : string -> NumberValue.

Local Abbreviation correlate := (stockCorrelation upstream latency StringToNumber).

(** With both histories in the cache nothing is requested and nothing
    changes. *)
Lemma fetchBoth_hits (ticker1 ticker2 minutes : string) (w : World num)
    (history1 history2 : PriceHistory num) :
  cacheGet (cache w) (clock w) (ticker1 +:+ ":" +:+ minutes) = Some history1 ->
  cacheGet (cache w) (clock w) (ticker2 +:+ ":" +:+ minutes) = Some history2 ->
  fetchBoth upstream latency ticker1 ticker2 minutes w
  = (Returned (history1, history2), w).
Proof.
  intros H1 H2. unfold fetchBoth, fetchBegin. rewrite H1, H2.
  cbn [settlesAt]. rewrite Z.leb_refl. reflexivity.
Qed.

(** The answer as a function of what [Promise.all] gave. *)
Lemma correlate_cases (req : Request) (w : World num) :
  (invalidMinutes StringToNumber (q_minutes req) || invalidTicker (q_ticker req) = true
   /\ status (fst (correlate req w)) = 400%nat)
  \/ (invalidMinutes StringToNumber (q_minutes req) || invalidTicker (q_ticker req) = false
      /\ exists history1 history2,
          fetchBoth upstream latency (itemAt (q_ticker req) 0) (itemAt (q_ticker req) 1)
            (ToString (q_minutes req)) w
          = (Returned (history1, history2), snd (correlate req w))
          /\ status (fst (correlate req w)) = 200%nat)
  \/ (invalidMinutes StringToNumber (q_minutes req) || invalidTicker (q_ticker req) = false
      /\ exists message,
          fetchBoth upstream latency (itemAt (q_ticker req) 0) (itemAt (q_ticker req) 1)
            (ToString (q_minutes req)) w
          = (Thrown message, snd (correlate req w))
          /\ fst (correlate req w) = {| status := 500; body := ErrorBody message |}).
Proof.
  unfold stockCorrelation.
  destruct (invalidMinutes StringToNumber (q_minutes req)); [left; auto|].
  destruct (invalidTicker (q_ticker req)); [left; auto|].
  destruct (fetchBoth _ _ _ _ _ _) as [[[h1 h2]|message] w'].
  - right. left. split; [reflexivity|]. exists h1, h2.
    destruct (alignPriceHistories _ _ _ _). auto.
  - right. right. split; [reflexivity|]. exists message. auto.
Qed.

(** X16. A 500 answer of the correlation operation carries the error of a
    request that this very operation issued for one of its two tickers and
    that the feed rejected, as [Failed to fetch data for <ticker>: <reason>];
    an operation that issues no request cannot fail. *)
Theorem stockCorrelation_failure (req : Request) (w : World num) :
  status (fst (correlate req w)) = 500%nat ->
  exists ticker k reason,
    (ticker = itemAt (q_ticker req) 0 \/ ticker = itemAt (q_ticker req) 1)
    /\ (length (upstreamCalls w) <= k)%nat
    /\ upstreamCalls (snd (correlate req w)) !! k
       = Some (ticker, ToString (q_minutes req))
    /\ upstream k ticker (ToString (q_minutes req)) = ReplyFailure reason
    /\ body (fst (correlate req w))
       = ErrorBody ("Failed to fetch data for " +:+ ticker +:+ ": " +:+ reason).
Proof.
  intros H500.
  destruct (correlate_cases req w)
    as [(_ & Hst)|[(_ & h1 & h2 & _ & Hst)|(_ & message & Hfb & Hres)]].
  - rewrite Hst in H500. discriminate.
  - rewrite Hst in H500. discriminate.
  - destruct (fetchBoth_thrown upstream latency _ _ _ _ _ _ Hfb)
      as (ticker & k & reason & Hor & Hk & Hcall & Hreply & ->).
    exists ticker, k, reason. rewrite Hres. cbn [body]. auto.
Qed.

(** X17. A correlation request for two different tickers that was answered
    200 is answered 200 again, from the cache and without a call to the
    feed, in every world that holds the same two entries, for as long as
    neither has expired; read at the same instant, the whole answer is the
    same. *)
Theorem stockCorrelation_repeat (req : Request) (w w2 : World num) :
  status (fst (correlate req w)) = 200%nat ->
  itemAt (q_ticker req) 0 <> itemAt (q_ticker req) 1 ->
  (forall ticker,
      ticker = itemAt (q_ticker req) 0 \/ ticker = itemAt (q_ticker req) 1 ->
      cache w2 !! (ticker +:+ ":" +:+ ToString (q_minutes req))
      = cache (snd (correlate req w)) !! (ticker +:+ ":" +:+ ToString (q_minutes req))
      /\ cacheGet (cache w2) (clock w2) (ticker +:+ ":" +:+ ToString (q_minutes req))
         <> None) ->
  snd (correlate req w2) = w2
  /\ status (fst (correlate req w2)) = 200%nat
  /\ (clock w2 = clock (snd (correlate req w)) ->
      fst (correlate req w2) = fst (correlate req w)).
Proof.
  intros H200 Hdiff Hfresh.
  destruct (correlate_cases req w)
    as [(_ & Hst)|[(Hok & h1 & h2 & Hfb & _)|(_ & message & _ & Hres)]].
  - rewrite Hst in H200. discriminate.
  - remember (snd (correlate req w)) as w' eqn:Hw'. clear Hw'.
    assert (itemAt (q_ticker req) 0 +:+ ":" +:+ ToString (q_minutes req)
            <> itemAt (q_ticker req) 1 +:+ ":" +:+ ToString (q_minutes req)) as Hkeys
      by (intros Heq; apply Hdiff, (cache_key_ticker _ _ _ Heq)).
    destruct (fetchBoth_returned_entries upstream latency _ _ _ _ _ _ _ Hfb Hkeys)
      as [(e1 & He1 & Hv1) (e2 & He2 & Hv2)].
    destruct (Hfresh _ (or_introl eq_refl)) as [Hs1 Hf1].
    destruct (Hfresh _ (or_intror eq_refl)) as [Hs2 Hf2].
    rewrite He1 in Hs1. rewrite He2 in Hs2.
    pose proof (cacheGet_fresh_entry _ _ _ _ Hs1 Hf1) as Hhit1.
    pose proof (cacheGet_fresh_entry _ _ _ _ Hs2 Hf2) as Hhit2.
    rewrite Hv1 in Hhit1. rewrite Hv2 in Hhit2.
    pose proof (fetchBoth_hits _ _ _ w2 h1 h2 Hhit1 Hhit2) as Hfb2.
    apply orb_false_iff in Hok as [Hm Ht].
    assert (forall w0 w0',
               fetchBoth upstream latency (itemAt (q_ticker req) 0)
                 (itemAt (q_ticker req) 1) (ToString (q_minutes req)) w0
               = (Returned (h1, h2), w0') ->
               correlate req w0
               = (let '(a1, a2) :=
                    alignPriceHistories (clock w0') h1 h2
                      (ToNumber StringToNumber (q_minutes req)) in
                  ({| status := 200;
                      body := CorrelationBody (calculateCorrelation a1 a2)
                        (<[itemAt (q_ticker req) 1 :=
                             {| averagePrice := calculateAveragePrice (Some h2);
                                priceHistory := h2 |}]>
                           (<[itemAt (q_ticker req) 0 :=
                                {| averagePrice := calculateAveragePrice (Some h1);
                                   priceHistory := h1 |}]> ∅)) |}, w0'))) as Hshape.
    { intros w0 w0' Hf. unfold stockCorrelation. rewrite Hm, Ht, Hf.
      destruct (alignPriceHistories _ _ _ _). reflexivity. }
    rewrite (Hshape w2 w2 Hfb2), (Hshape w w' Hfb).
    destruct (alignPriceHistories (clock w2) h1 h2 _) as [a1 a2] eqn:Ea.
    cbn [fst snd status]. split; [reflexivity|]. split; [reflexivity|].
    intros Hclock. rewrite <- Hclock, Ea. reflexivity.
  - rewrite Hres in H200. discriminate.
Qed.

End ServiceMore.

Lemma stockCorrelation_failure_witness :
  exists ticker k reason,
    (ticker = itemAt (q_ticker twoTickerRequest) 0
     \/ ticker = itemAt (q_ticker twoTickerRequest) 1)
    /\ (length (upstreamCalls freshWorld) <= k)%nat
    /\ upstreamCalls (snd (stockCorrelation failingUpstream sampleLatency
                             (digitsToNumber 0) twoTickerRequest freshWorld)) !! k
       = Some (ticker, ToString (q_minutes twoTickerRequest))
    /\ failingUpstream k ticker (ToString (q_minutes twoTickerRequest))
       = ReplyFailure reason
    /\ body (fst (stockCorrelation failingUpstream sampleLatency
                    (digitsToNumber 0) twoTickerRequest freshWorld))
       = ErrorBody ("Failed to fetch data for " +:+ ticker +:+ ": " +:+ reason).
Proof.
  apply (stockCorrelation_failure failingUpstream sampleLatency (digitsToNumber 0)
           twoTickerRequest freshWorld).
  vm_compute. reflexivity.
Defined.

Lemma stockCorrelation_repeat_witness :
  snd (stockCorrelation sampleUpstream sampleLatency (digitsToNumber 0) twoTickerRequest
         (snd (stockCorrelation sampleUpstream sampleLatency (digitsToNumber 0)
                 twoTickerRequest freshWorld)))
  = snd (stockCorrelation sampleUpstream sampleLatency (digitsToNumber 0)
           twoTickerRequest freshWorld)
  /\ status (fst (stockCorrelation sampleUpstream sampleLatency (digitsToNumber 0)
                    twoTickerRequest
                    (snd (stockCorrelation sampleUpstream sampleLatency
                            (digitsToNumber 0) twoTickerRequest freshWorld))))
     = 200%nat
  /\ (clock (snd (stockCorrelation sampleUpstream sampleLatency (digitsToNumber 0)
                    twoTickerRequest freshWorld))
      = clock (snd (stockCorrelation sampleUpstream sampleLatency (digitsToNumber 0)
                      twoTickerRequest freshWorld)) ->
      fst (stockCorrelation sampleUpstream sampleLatency (digitsToNumber 0)
             twoTickerRequest
             (snd (stockCorrelation sampleUpstream sampleLatency (digitsToNumber 0)
                     twoTickerRequest freshWorld)))
      = fst (stockCorrelation sampleUpstream sampleLatency (digitsToNumber 0)
               twoTickerRequest freshWorld)).
Proof.
  apply (stockCorrelation_repeat sampleUpstream sampleLatency (digitsToNumber 0)
           twoTickerRequest freshWorld
           (snd (stockCorrelation sampleUpstream sampleLatency (digitsToNumber 0)
                   twoTickerRequest freshWorld))).
  - vm_compute. reflexivity.
  - vm_compute. discriminate.
  - intros ticker [->| ->]; (split; [reflexivity|vm_compute; discriminate]).
Defined.

(** ** Invariants of the cache over the runs of the service *)

Section RunFacts.
Context {num : Type} {N : JSNumber num}.
Variable upstream : nat -> string -> string -> UpstreamReply num.
Variable latency : nat -> nat.
Variable StringToNumber : string -> NumberValue.

Local Abbreviation sound := (cacheSound upstream).

Lemma repliedFor_more_calls (w : World num) (calls : list (string * string))
    (key : string) (history : PriceHistory num) (now : Z)
    (data : gmap string (CacheEntry num)) :
  repliedFor upstream w key history ->
  repliedFor upstream
    {| clock := now; cache := data; upstreamCalls := upstreamCalls w ++ calls |}
    key history.
Proof.
  intros (k & ticker & minutes & Hk & Hkey & Hn).
  exists k, ticker, minutes. cbn [upstreamCalls].
  split; [|split; assumption]. apply lookup_app_l_Some. exact Hk.
Qed.

Lemma sound_elapse (w : World num) (ms : Z) :
  0 <= ms -> sound w -> sound (elapse ms w).
Proof.
  intros Hms Hs key entry Hentry. cbn [elapse cache clock upstreamCalls] in *.
  destruct (Hs key entry Hentry) as [Ht Hr]. split; [lia|exact Hr].
Qed.

Lemma sound_begin (ticker minutes : string) (w : World num) :
  sound w -> sound (snd (fetchBegin latency ticker minutes w)).
Proof.
  intros Hs. unfold fetchBegin.
  destruct (cacheGet (cache w) (clock w) (ticker +:+ ":" +:+ minutes));
    [exact Hs|].
  intros key entry Hentry. cbn [snd cache clock upstreamCalls] in *.
  destruct (Hs key entry Hentry) as [Ht (k & t0 & m0 & Hk & Hkey & Hn)].
  split; [exact Ht|]. exists k, t0, m0.
  split; [apply lookup_app_l_Some; exact Hk|]. split; assumption.
Qed.

Lemma sound_resume (ticker minutes : string) (k : nat) (arrival : Z)
    (w : World num) :
  sound w -> upstreamCalls w !! k = Some (ticker, minutes) -> clock w <= arrival ->
  sound (snd (fetchResume upstream ticker minutes k arrival w)).
Proof.
  intros Hs Hk Hclock. unfold fetchResume.
  destruct (upstream k ticker minutes) as [data|stock|reason] eqn:Hreply;
    intros key entry Hentry; cbn [snd cache clock upstreamCalls] in *.
  - unfold cacheSet in Hentry.
    destruct (decide (ticker +:+ ":" +:+ minutes = key)) as [<-|Hne].
    + rewrite lookup_insert_eq in Hentry. injection Hentry as <-. cbn [t v].
      split; [lia|]. exists k, ticker, minutes. rewrite Hreply. auto.
    + rewrite lookup_insert_ne in Hentry by exact Hne.
      destruct (Hs key entry Hentry) as [Ht Hr]. split; [lia|exact Hr].
  - unfold cacheSet in Hentry.
    destruct (decide (ticker +:+ ":" +:+ minutes = key)) as [<-|Hne].
    + rewrite lookup_insert_eq in Hentry. injection Hentry as <-. cbn [t v].
      split; [lia|]. exists k, ticker, minutes. rewrite Hreply. auto.
    + rewrite lookup_insert_ne in Hentry by exact Hne.
      destruct (Hs key entry Hentry) as [Ht Hr]. split; [lia|exact Hr].
  - destruct (Hs key entry Hentry) as [Ht Hr]. split; [lia|exact Hr].
Qed.

Lemma begin_pending (ticker minutes : string) (w : World num) :
  pendingOk ticker minutes (fst (fetchBegin latency ticker minutes w))
            (snd (fetchBegin latency ticker minutes w)).
Proof.
  unfold fetchBegin.
  destruct (cacheGet (cache w) (clock w) (ticker +:+ ":" +:+ minutes));
    cbn [fst snd pendingOk upstreamCalls clock]; [exact I|].
  split; [apply list_lookup_middle; reflexivity|lia].
Qed.

Lemma sound_settle (ticker minutes : string) (s : FetchState num) (w : World num) :
  sound w -> pendingOk ticker minutes s w ->
  sound (snd (settle upstream ticker minutes s w)).
Proof.
  intros Hs Hp. destruct s as [data|k arrival]; [exact Hs|].
  destruct Hp as [Hk Hclock]. apply sound_resume; assumption.
Qed.

Lemma sound_fetch (ticker minutes : string) (w : World num) :
  sound w -> sound (snd (fetchStockPriceHistory upstream latency ticker minutes w)).
Proof.
  intros Hs. unfold fetchStockPriceHistory.
  pose proof (sound_begin ticker minutes w Hs) as Hb.
  pose proof (begin_pending ticker minutes w) as Hp.
  destruct (fetchBegin latency ticker minutes w) as [s w1]. cbn [fst snd] in *.
  apply sound_settle; assumption.
Qed.

Lemma settle_clock (ticker minutes : string) (s : FetchState num) (w : World num) :
  clock (snd (settle upstream ticker minutes s w)) = settlesAt s w.
Proof.
  destruct s as [data|k arrival]; [reflexivity|].
  unfold settle, fetchResume. destruct (upstream k ticker minutes); reflexivity.
Qed.

Lemma sound_fetchBoth (ticker1 ticker2 minutes : string) (w : World num) :
  sound w -> sound (snd (fetchBoth upstream latency ticker1 ticker2 minutes w)).
Proof.
  intros Hs. unfold fetchBoth.
  pose proof (sound_begin ticker1 minutes w Hs) as Hs1.
  pose proof (begin_pending ticker1 minutes w) as Hp1.
  destruct (fetchBegin latency ticker1 minutes w) as [s1 w1]. cbn [fst snd] in *.
  pose proof (sound_begin ticker2 minutes w1 Hs1) as Hs2.
  pose proof (begin_pending ticker2 minutes w1) as Hp2.
  pose proof (fetchBegin_world latency ticker2 minutes w1) as (Hc & _ & Hu).
  destruct (fetchBegin latency ticker2 minutes w1) as [s2 w2]. cbn [fst snd] in *.
  assert (pendingOk ticker1 minutes s1 w2) as Hp1'.
  { destruct s1 as [d|k a]; [exact I|]. destruct Hp1 as [Hk Ha].
    split; [rewrite Hu; apply lookup_app_l_Some; exact Hk|lia]. }
  destruct (Z.leb_spec (settlesAt s1 w2) (settlesAt s2 w2)) as [Hle|Hgt].
  - pose proof (sound_settle ticker1 minutes s1 w2 Hs2 Hp1') as Hs3.
    pose proof (settle_clock ticker1 minutes s1 w2) as Hc3.
    pose proof (settle_calls upstream ticker1 minutes s1 w2) as Hu3.
    destruct (settle upstream ticker1 minutes s1 w2) as [r1 w3]. cbn [snd] in *.
    assert (pendingOk ticker2 minutes s2 w3) as Hp2'.
    { destruct s2 as [d|k a]; [exact I|]. destruct Hp2 as [Hk Ha].
      cbn [settlesAt] in Hle. split; [rewrite Hu3; exact Hk|lia]. }
    pose proof (sound_settle ticker2 minutes s2 w3 Hs3 Hp2') as Hs4.
    destruct (settle upstream ticker2 minutes s2 w3) as [r2 w4]. exact Hs4.
  - pose proof (sound_settle ticker2 minutes s2 w2 Hs2 Hp2) as Hs3.
    pose proof (settle_clock ticker2 minutes s2 w2) as Hc3.
    pose proof (settle_calls upstream ticker2 minutes s2 w2) as Hu3.
    destruct (settle upstream ticker2 minutes s2 w2) as [r2 w3]. cbn [snd] in *.
    assert (pendingOk ticker1 minutes s1 w3) as Hp1''.
    { destruct s1 as [d|k a]; [exact I|]. destruct Hp1' as [Hk Ha].
      cbn [settlesAt] in Hgt. split; [rewrite Hu3; exact Hk|lia]. }
    pose proof (sound_settle ticker1 minutes s1 w3 Hs3 Hp1'') as Hs4.
    destruct (settle upstream ticker1 minutes s1 w3) as [r1 w4]. exact Hs4.
Qed.

Lemma sound_step (w w' : World num) :
  Step upstream latency StringToNumber w w' -> sound w -> sound w'.
Proof.
  intros Hstep Hs. destruct Hstep as [w ms Hms|w req|w req].
  - apply sound_elapse; assumption.
  - unfold stockAverage.
    destruct (notAverage _); [exact Hs|].
    destruct (invalidMinutes _ _); [exact Hs|].
    pose proof (sound_fetch (p_ticker req) (ToString (a_minutes req)) w Hs) as Hf.
    destruct (fetchStockPriceHistory _ _ _ _ _) as [[h|m] w1]; exact Hf.
  - unfold stockCorrelation.
    destruct (invalidMinutes _ _); [exact Hs|].
    destruct (invalidTicker _); [exact Hs|].
    pose proof (sound_fetchBoth (itemAt (q_ticker req) 0) (itemAt (q_ticker req) 1)
                  (ToString (q_minutes req)) w Hs) as Hf.
    destruct (fetchBoth _ _ _ _ _ _) as [[[h1 h2]|m] w1]; [|exact Hf].
    destruct (alignPriceHistories _ _ _ _). exact Hf.
Qed.

(** Every world the service reaches has a sound cache. *)
Lemma reachable_sound (w : World num) :
  Reachable upstream latency StringToNumber w -> sound w.
Proof.
  induction 1 as [start|w w' _ IH Hstep].
  - intros key entry Hentry. cbn [cache] in Hentry.
    rewrite lookup_empty in Hentry. discriminate.
  - exact (sound_step w w' Hstep IH).
Qed.

(** In a sound world a successful fetch returns what the feed replied to a
    request for the same key. *)
Lemma fetch_provenance (ticker minutes : string) (w w' : World num)
    (history : PriceHistory num) :
  sound w ->
  fetchStockPriceHistory upstream latency ticker minutes w = (Returned history, w') ->
  repliedFor upstream w' (ticker +:+ ":" +:+ minutes) history.
Proof.
  intros Hs Hfetch.
  destruct (cacheGet (cache w) (clock w) (ticker +:+ ":" +:+ minutes))
    as [cached|] eqn:Hget.
  - rewrite (fetch_hit upstream latency ticker minutes w cached Hget) in Hfetch.
    injection Hfetch as <- <-.
    apply cacheGet_Some_entry in Hget as (entry & Hentry & <-).
    exact (proj2 (Hs _ _ Hentry)).
  - rewrite (fetch_miss upstream latency ticker minutes w Hget) in Hfetch.
    destruct (upstream _ ticker minutes) as [d|stock|reason] eqn:Hreply;
      try discriminate; injection Hfetch as <- <-;
      exists (length (upstreamCalls w)), ticker, minutes; cbn [upstreamCalls];
      (split; [apply list_lookup_middle; reflexivity|]);
      (split; [reflexivity|]); rewrite Hreply; reflexivity.
Qed.

Lemma fetchBoth_provenance (ticker1 ticker2 minutes : string) (w w' : World num)
    (history1 history2 : PriceHistory num) :
  sound w ->
  fetchBoth upstream latency ticker1 ticker2 minutes w
  = (Returned (history1, history2), w') ->
  repliedFor upstream w' (ticker1 +:+ ":" +:+ minutes) history1
  /\ repliedFor upstream w' (ticker2 +:+ ":" +:+ minutes) history2.
Proof.
  intros Hs Hfb. unfold fetchBoth, fetchBegin in Hfb.
  destruct (cacheGet (cache w) (clock w) (ticker1 +:+ ":" +:+ minutes))
    as [c1|] eqn:G1;
  cbn [clock cache upstreamCalls] in Hfb;
  destruct (cacheGet (cache w) (clock w) (ticker2 +:+ ":" +:+ minutes))
    as [c2|] eqn:G2;
  cbn [clock cache upstreamCalls settlesAt settle] in Hfb;
  unfold fetchResume in Hfb;
  try (apply cacheGet_Some_entry in G1 as (e1 & He1 & <-);
       destruct (Hs _ _ He1) as [_ (k1 & t1 & m1 & Hk1 & Hkey1 & Hn1)]);
  try (apply cacheGet_Some_entry in G2 as (e2 & He2 & <-);
       destruct (Hs _ _ He2) as [_ (k2 & t2 & m2 & Hk2 & Hkey2 & Hn2)]);
  repeat match type of Hfb with
         | context [if ?b then _ else _] => destruct b
         | context [match upstream ?k ?t ?m with _ => _ end] =>
             let E := fresh "E" in destruct (upstream k t m) eqn:E
         end;
  cbn [clock cache upstreamCalls] in Hfb;
  try discriminate; injection Hfb as <- <- <-;
  split;
  first
    [ exists k1, t1, m1; cbn [upstreamCalls];
      split; [|split; assumption];
      first [ exact Hk1
            | apply lookup_app_l_Some; exact Hk1
            | apply lookup_app_l_Some, lookup_app_l_Some; exact Hk1 ]
    | exists k2, t2, m2; cbn [upstreamCalls];
      split; [|split; assumption];
      first [ exact Hk2
            | apply lookup_app_l_Some; exact Hk2
            | apply lookup_app_l_Some, lookup_app_l_Some; exact Hk2 ]
    | match goal with
      | E : upstream ?k ?t ?m = _ |- repliedFor _ _ (?t +:+ ":" +:+ ?m) _ =>
          exists k, t, m; cbn [upstreamCalls];
          split; [|split; [reflexivity|rewrite E; reflexivity]];
          first [ apply list_lookup_middle; reflexivity
                | rewrite <- app_assoc; apply list_lookup_middle; reflexivity ]
      end ].
Qed.

(** X19. Handling one request after another from an empty cache, the
    service only serves what the feed sent for the key asked: the price
    history of every 200 answer of the average operation is the feed's reply
    (an array, or a single stock made an array of one) to a request issued
    earlier or just now for the same cache key, and the average of the
    answer is the average of that history. *)
Theorem stockAverage_provenance (req : AverageRequest) (w : World num) :
  Reachable upstream latency StringToNumber w ->
  a_status (fst (stockAverage upstream latency StringToNumber req w)) = 200%nat ->
  exists history,
    a_body (fst (stockAverage upstream latency StringToNumber req w))
    = AverageResult (calculateAveragePrice (Some history)) history
    /\ repliedFor upstream (snd (stockAverage upstream latency StringToNumber req w))
         (p_ticker req +:+ ":" +:+ ToString (a_minutes req)) history.
Proof.
  intros Hreach H200.
  destruct (average_cases upstream latency StringToNumber req w)
    as [(_ & Hst & _)|[(_ & h & Hfetch & Hres)|(_ & m & _ & Hres)]].
  - rewrite Hst in H200. discriminate.
  - exists h. rewrite Hres. split; [reflexivity|].
    exact (fetch_provenance _ _ _ _ _ (reachable_sound w Hreach) Hfetch).
  - rewrite Hres in H200. discriminate.
Qed.

(** X20. The same for the correlation operation: in every 200 answer, each
    entry of [stocks] stands under one of the two tickers asked, its price
    history is the feed's reply to a request for that ticker's cache key,
    and its average is the average of that whole history. *)
Theorem stockCorrelation_provenance (req : Request) (w : World num) (c : num)
    (stocks : gmap string (StockSummary num)) :
  Reachable upstream latency StringToNumber w ->
  body (fst (stockCorrelation upstream latency StringToNumber req w))
  = CorrelationBody c stocks ->
  forall ticker summary, stocks !! ticker = Some summary ->
    (ticker = itemAt (q_ticker req) 0 \/ ticker = itemAt (q_ticker req) 1)
    /\ repliedFor upstream
         (snd (stockCorrelation upstream latency StringToNumber req w))
         (ticker +:+ ":" +:+ ToString (q_minutes req)) (priceHistory summary)
    /\ averagePrice summary = calculateAveragePrice (Some (priceHistory summary)).
Proof.
  intros Hreach Hbody ticker summary Hlook.
  unfold stockCorrelation in *.
  destruct (invalidMinutes _ _); [discriminate|].
  destruct (invalidTicker _); [discriminate|].
  destruct (fetchBoth _ _ _ _ _ _) as [[[h1 h2]|m] w'] eqn:Hfb; [|discriminate].
  destruct (fetchBoth_provenance _ _ _ _ _ _ _ (reachable_sound w Hreach) Hfb)
    as [Hp1 Hp2].
  destruct (alignPriceHistories _ _ _ _) as [a1 a2]. cbn [fst snd body] in *.
  injection Hbody as _ <-.
  destruct (decide (itemAt (q_ticker req) 1 = ticker)) as [<-|Hne2].
  - rewrite lookup_insert_eq in Hlook. injection Hlook as <-.
    cbn [priceHistory averagePrice]. auto.
  - rewrite lookup_insert_ne in Hlook by exact Hne2.
    destruct (decide (itemAt (q_ticker req) 0 = ticker)) as [<-|Hne1].
    + rewrite lookup_insert_eq in Hlook. injection Hlook as <-.
      cbn [priceHistory averagePrice]. auto.
    + rewrite lookup_insert_ne, lookup_empty in Hlook by exact Hne1.
      discriminate.
Qed.

(** X18. However the service got where it is, handling one request after
    another from an empty cache, nothing stays in its cache for more than
    300 seconds: 300 seconds after any reachable state, every lookup
    misses. *)
Theorem cache_lifetime_bounded (w : World num) (now : Z) (key : string) :
  Reachable upstream latency StringToNumber w ->
  clock w + 300 * 1000 < now ->
  cacheGet (cache w) now key = None.
Proof.
  intros Hreach Hlater. unfold cacheGet.
  destruct (cache w !! key) as [entry|] eqn:Hentry; [|reflexivity].
  destruct (reachable_sound w Hreach key entry Hentry) as [Ht _].
  unfold stdTTL in Ht.
  assert ((t entry <? now) = true) as -> by (apply Z.ltb_lt; lia).
  reflexivity.
Qed.

End RunFacts.

Lemma cachedWorld_reachable :
  Reachable sampleUpstream sampleLatency (digitsToNumber 0) cachedWorld.
Proof.
  replace cachedWorld
    with (snd (stockAverage sampleUpstream sampleLatency (digitsToNumber 0)
                 averageRequest freshWorld))
    by (vm_compute; reflexivity).
  apply (ReachStep _ _ _ freshWorld).
  - apply (ReachStart sampleUpstream sampleLatency (digitsToNumber 0) 1700000050000).
  - apply StepAverage.
Qed.

Lemma cache_lifetime_bounded_witness :
  cacheGet (cache cachedWorld) 1700000350121 "AAPL:60" = None.
Proof.
  apply (cache_lifetime_bounded sampleUpstream sampleLatency (digitsToNumber 0)
           cachedWorld 1700000350121 "AAPL:60").
  - exact cachedWorld_reachable.
  - vm_compute. reflexivity.
Defined.

Lemma stockAverage_provenance_witness :
  exists history,
    a_body (fst (stockAverage sampleUpstream sampleLatency (digitsToNumber 0)
                   averageRequest cachedWorld))
    = AverageResult (calculateAveragePrice (Some history)) history
    /\ repliedFor sampleUpstream
         (snd (stockAverage sampleUpstream sampleLatency (digitsToNumber 0)
                 averageRequest cachedWorld))
         (p_ticker averageRequest +:+ ":" +:+ ToString (a_minutes averageRequest))
         history.
Proof.
  apply (stockAverage_provenance sampleUpstream sampleLatency (digitsToNumber 0)
           averageRequest cachedWorld).
  - exact cachedWorld_reachable.
  - vm_compute. reflexivity.
Defined.

Lemma stockCorrelation_provenance_witness :
  ("MSFT" = itemAt (q_ticker twoTickerRequest) 0
   \/ "MSFT" = itemAt (q_ticker twoTickerRequest) 1)
  /\ repliedFor sampleUpstream
       (snd (stockCorrelation sampleUpstream sampleLatency (digitsToNumber 0)
               twoTickerRequest cachedWorld))
       ("MSFT" +:+ ":" +:+ ToString (q_minutes twoTickerRequest))
       (priceHistory {| averagePrice := calculateAveragePrice (Some sampleB);
                        priceHistory := sampleB |})
  /\ averagePrice {| averagePrice := calculateAveragePrice (Some sampleB);
                     priceHistory := sampleB |}
     = calculateAveragePrice
         (Some (priceHistory {| averagePrice := calculateAveragePrice (Some sampleB);
                                priceHistory := sampleB |})).
Proof.
  apply (stockCorrelation_provenance sampleUpstream sampleLatency (digitsToNumber 0)
           twoTickerRequest cachedWorld
           (calculateCorrelation [1%float; 2%float; 4%float] [3%float; 1%float; 2%float])
           (<["MSFT" := {| averagePrice := calculateAveragePrice (Some sampleB);
                           priceHistory := sampleB |}]>
              (<["AAPL" := {| averagePrice := calculateAveragePrice (Some sampleA);
                              priceHistory := sampleA |}]> ∅))
           cachedWorld_reachable).
  - vm_compute. reflexivity.
  - vm_compute. reflexivity.
Defined.

(** ** Aligning, then correlating *)

Section AlignThenCorrelate.
Context {num : Type} {N : JSNumber num}.


End AlignThenCorrelate.

